(** * LabIQ monitoring client: polling, aggregation, telemetry and rendering

    A shallow embedding of the client-side logic of the LabIQ front end
    (frontend/app/page.tsx, frontend/components/DashboardTab.tsx,
    ScoringPanel.tsx and EsqlTab.tsx) and the properties the specification
    states about it.

    Conventions.  React state is a record; a state setter is an explicit
    transition on it.  An [async] function is cut at its [await]: the part
    that runs before the request leaves and the part that runs once the
    request has settled.  JSON payloads typed [any] in the source are
    values of [Js.value], in which a number is given by its exact value.
    Arithmetic on JS numbers is IEEE 754 binary64 arithmetic, on the
    primitive floats of the prover; their order and rounding are related to
    the rational numbers in [Binary64]. *)

From Stdlib Require Import Bool List String Ascii ZArith QArith Qpower Qminmax Lia Lqa.
From Stdlib Require Import Numbers.DecimalString.
From Stdlib Require Numbers.DecimalZ.
From Stdlib Require Import Floats.
Import ListNotations.

Local Close Scope Q_scope.
Local Close Scope float_scope.
Local Open Scope string_scope.
Local Open Scope list_scope.

#[local] Set Warnings "-register-all".
#[local] Set Warnings "-inexact-float".

(* ================================================================== *)
(** ** The fragment of JavaScript the components rely on               *)
(* ================================================================== *)

Module Js.

(** A JSON payload as the client receives it ([any] in the source). *)
Inductive value : Type :=
| VUndefined
| VNull
| VBool (b : bool)
| VNum (q : Q)
| VStr (s : string)
| VArr (items : list value)
| VObj (fields : list (string * value)).

(** How an awaited request settles: the response body, or a rejection
    (transport failure or a non-2xx status) with its error object. *)
Inductive settled : Type :=
| Fulfilled (data : value)
| Rejected (reason : value).

Definition num_of_nat (n : nat) : value := VNum (inject_Z (Z.of_nat n)).

(** [v === null || v === undefined]. *)
Definition nullish (v : value) : bool :=
  match v with
  | VUndefined | VNull => true
  | _ => false
  end.

(** ToBoolean. *)
Definition truthy (v : value) : bool :=
  match v with
  | VUndefined | VNull => false
  | VBool b => b
  | VNum q => negb (Qeq_bool q 0%Q)
  | VStr s => negb (String.eqb s EmptyString)
  | VArr _ | VObj _ => true
  end.

Fixpoint assoc (k : string) (fields : list (string * value)) : value :=
  match fields with
  | [] => VUndefined
  | (k', v) :: rest => if String.eqb k k' then v else assoc k rest
  end.

(** Reading property [k] of a value that is neither null nor undefined.
    Only named (non-index) properties are read by the components. *)
Definition prop (v : value) (k : string) : value :=
  match v with
  | VObj fields => assoc k fields
  | VArr items => if String.eqb k "length" then num_of_nat (List.length items) else VUndefined
  | VStr s => if String.eqb k "length" then num_of_nat (String.length s) else VUndefined
  | _ => VUndefined
  end.

(** [v.k]: a TypeError ([None]) when [v] is null or undefined. *)
Definition get (v : value) (k : string) : option value :=
  if nullish v then None else Some (prop v k).

(** [v?.k]. *)
Definition oget (v : value) (k : string) : value :=
  if nullish v then VUndefined else prop v k.

(** [a ?? b] and [a || b]. *)
Definition coalesce (a b : value) : value := if nullish a then b else a.
Definition or_else (a b : value) : value := if truthy a then a else b.

(** [v === s] for a string literal [s]. *)
Definition is_str (v : value) (s : string) : bool :=
  match v with
  | VStr s' => String.eqb s' s
  | _ => false
  end.

(** *** Strings *)

(** [s.indexOf(pat)], as [None] for -1. *)
Fixpoint index_of (pat s : string) : option nat :=
  if String.prefix pat s then Some 0
  else match s with
       | EmptyString => None
       | String _ rest => option_map S (index_of pat rest)
       end.

Definition includes (s pat : string) : bool :=
  match index_of pat s with Some _ => true | None => false end.

Definition startsWith (s pat : string) : bool := String.prefix pat s.

Fixpoint drop (n : nat) (s : string) : string :=
  match n, s with
  | O, _ => s
  | S n', String _ rest => drop n' rest
  | S _, EmptyString => EmptyString
  end.

Fixpoint take (n : nat) (s : string) : string :=
  match n, s with
  | S n', String c rest => String c (take n' rest)
  | _, _ => EmptyString
  end.

(** [s.replace(pat, '')] with a string pattern: the first occurrence only. *)
Definition remove_first (pat s : string) : string :=
  match index_of pat s with
  | Some i => take i s ++ drop (i + String.length pat) s
  | None => s
  end.

(** [s.split(sep)[0]] for a one-character separator. *)
Fixpoint before (sep : ascii) (s : string) : string :=
  match s with
  | EmptyString => EmptyString
  | String c rest => if Ascii.eqb c sep then EmptyString else String c (before sep rest)
  end.

(** [s.slice(0, n)]. *)
Definition slice0 (n : nat) (s : string) : string := take n s.

(** White space that [trim] strips (the ASCII part of it). *)
Definition is_space (c : ascii) : bool :=
  let n := nat_of_ascii c in
  ((9 <=? n) && (n <=? 13) || (n =? 32))%nat.

Fixpoint all_space (s : string) : bool :=
  match s with
  | EmptyString => true
  | String c rest => is_space c && all_space rest
  end.

(** [!s.trim()]: the trimmed string is empty. *)
Definition blank (s : string) : bool := all_space s.

(** The list without its [i]-th element. *)
Fixpoint remove_nth {A : Type} (i : nat) (l : list A) : list A :=
  match i, l with
  | _, [] => []
  | O, _ :: rest => rest
  | S i', a :: rest => a :: remove_nth i' rest
  end.

(** Decimal rendering of an integer, as a template literal prints it. *)
Definition show_int (z : Z) : string := NilEmpty.string_of_int (Z.to_int z).

Definition dquote : string := String (ascii_of_nat 34) EmptyString.

(** [Math.round(a / d)] for integers [a] and [d > 0]: nearest, ties up. *)
Definition round_div (a d : Z) : Z := ((2 * a + d) / (2 * d))%Z.

End Js.

(* ================================================================== *)
(** ** frontend/app/page.tsx: telemetry tap, status, roster, fast cadence *)
(* ================================================================== *)

Module Page.
Import Js.

(** [process.env.NEXT_PUBLIC_API_URL || 'http://localhost:8000']. *)
Definition API (env : option string) : string :=
  match env with
  | Some s => if String.eqb s EmptyString then "http://localhost:8000" else s
  | None => "http://localhost:8000"
  end.

Record Patient : Type := mkPatient {
  patient_id : string;
  total_tests : Z;
  abnormal : Z;
  critical : Z;
  last_test : string;
  first_test : string
}.

Record SysStatus : Type := mkSysStatus {
  es_connected : bool;
  doc_count : value;
  mcp_enabled : value;
  latency_ms : Z;
  last_checked : string
}.

Record FeedEntry : Type := mkFeedEntry {
  label : string;
  ms : value;
  rows : value
}.

(** The state hooks of [App] that the polling layer writes. *)
Record AppState : Type := mkApp {
  patientId : string;
  patients : list Patient;
  patientsLoading : bool;
  status : option SysStatus;
  esqlFeed : list FeedEntry;
  criticalAlert : option string
}.

(** [useState] initial values. *)
Definition initial : AppState :=
  mkApp "PAT001" [] true None [] None.

Definition setPatientId (v : string) (st : AppState) : AppState :=
  mkApp v (patients st) (patientsLoading st) (status st) (esqlFeed st) (criticalAlert st).
Definition setPatients (v : list Patient) (st : AppState) : AppState :=
  mkApp (patientId st) v (patientsLoading st) (status st) (esqlFeed st) (criticalAlert st).
Definition setPatientsLoading (v : bool) (st : AppState) : AppState :=
  mkApp (patientId st) (patients st) v (status st) (esqlFeed st) (criticalAlert st).
Definition setStatus (f : option SysStatus -> option SysStatus) (st : AppState) : AppState :=
  mkApp (patientId st) (patients st) (patientsLoading st) (f (status st)) (esqlFeed st) (criticalAlert st).
Definition setEsqlFeed (f : list FeedEntry -> list FeedEntry) (st : AppState) : AppState :=
  mkApp (patientId st) (patients st) (patientsLoading st) (status st) (f (esqlFeed st)) (criticalAlert st).
Definition setCriticalAlert (v : option string) (st : AppState) : AppState :=
  mkApp (patientId st) (patients st) (patientsLoading st) (status st) (esqlFeed st) v.

(** *** The axios interceptors (NetworkTelemetryTap) *)

(** [(config.url || '').replace(API, '').split('?')[0]]. *)
Definition normalized_url (api : string) (url : option string) : string :=
  before "?" (remove_first api (match url with Some u => u | None => EmptyString end)).

(** [url.startsWith('/api/') && !url.includes('health')]. *)
Definition tapped (url : string) : bool :=
  startsWith url "/api/" && negb (includes url "health").

Definition feed_capacity : nat := 6.

(** The updater the request interceptor hands to [setEsqlFeed]. *)
Definition push_placeholder (url : string) (prev : list FeedEntry) : list FeedEntry :=
  firstn feed_capacity (mkFeedEntry url (VNum 0%Q) (VNum 0%Q) :: prev).

Definition on_request (api : string) (config_url : option string) (st : AppState) : AppState :=
  let url := normalized_url api config_url in
  if tapped url then setEsqlFeed (push_placeholder url) st else st.

(** [data?.row_count ?? data?.total ?? data?.biomarkers?.length
     ?? data?.alerts?.length ?? 0]. *)
Definition extract_rows (data : value) : value :=
  coalesce
    (coalesce
       (coalesce
          (coalesce (oget data "row_count") (oget data "total"))
          (oget (oget data "biomarkers") "length"))
       (oget (oget data "alerts") "length"))
    (VNum 0%Q).

(** [data?.esql_ms ?? data?.ms ?? data?.execution_ms ?? 0]. *)
Definition extract_ms (data : value) : value :=
  coalesce
    (coalesce (coalesce (oget data "esql_ms") (oget data "ms")) (oget data "execution_ms"))
    (VNum 0%Q).

(** The updater the response interceptor hands to [setEsqlFeed]:
    [copy = [...prev]; if (copy.length && copy[0].label === url) copy[0] = ...]. *)
Definition attribute (url : string) (ms_ rows_ : value) (prev : list FeedEntry)
  : list FeedEntry :=
  match prev with
  | head :: rest =>
      if String.eqb (label head) url then mkFeedEntry url ms_ rows_ :: rest else prev
  | [] => prev
  end.

Definition on_response (api : string) (config_url : option string) (data : value)
           (st : AppState) : AppState :=
  let url := normalized_url api config_url in
  if tapped url
  then setEsqlFeed (attribute url (extract_ms data) (extract_rows data)) st
  else st.

(** What the tap sees: requests leaving and (2xx) responses coming back. *)
Inductive tap_event : Type :=
| Request (config_url : option string)
| Response (config_url : option string) (data : value).

Definition tap (api : string) (st : AppState) (e : tap_event) : AppState :=
  match e with
  | Request u => on_request api u st
  | Response u d => on_response api u d st
  end.

Definition tap_all (api : string) (es : list tap_event) (st : AppState) : AppState :=
  fold_left (tap api) es st.

(** The labels of the requests of a run that the request interceptor
    records, oldest first. *)
Fixpoint requested (api : string) (es : list tap_event) : list string :=
  match es with
  | [] => []
  | Request u :: rest =>
      if tapped (normalized_url api u)
      then normalized_url api u :: requested api rest
      else requested api rest
  | Response _ _ :: rest => requested api rest
  end.

(** Every label in the feed passed the filter of the request interceptor. *)
Definition labels_tapped (st : AppState) : Prop :=
  Forall (fun e => tapped (label e) = true) (esqlFeed st).

(** *** [checkStatus] (StatusMonitor) *)

(** The updater of the [catch] branch: [s => s ? { ...s, es_connected: false } : null]. *)
Definition degrade (s : option SysStatus) : option SysStatus :=
  match s with
  | Some s0 =>
      Some (mkSysStatus false (doc_count s0) (mcp_enabled s0) (latency_ms s0) (last_checked s0))
  | None => None
  end.

(** The body of the [try] once the probe is fulfilled: [None] when reading
    a field of the body throws. *)
Definition status_of_health (t0 now : Z) (clock : string) (data : value)
  : option SysStatus :=
  match get data "elasticsearch", get data "lab_results_count", get data "mcp_enabled" with
  | Some e, Some d, Some m =>
      Some (mkSysStatus (is_str e "connected") (coalesce d (VNum 0%Q))
              (coalesce m (VBool false)) (now - t0) clock)
  | _, _, _ => None
  end.

(** [checkStatus] after its [await]; [t0] was read before the request left,
    [now] and [clock] are read when it settles. *)
Definition checkStatus_settle (t0 now : Z) (clock : string) (r : settled)
           (st : AppState) : AppState :=
  match r with
  | Fulfilled data =>
      match status_of_health t0 now clock data with
      | Some s => setStatus (fun _ => Some s) st
      | None => setStatus degrade st
      end
  | Rejected _ => setStatus degrade st
  end.

(** *** [loadPatients] (PatientRegistry) *)

(** A roster row as the backend sends it; absent or null fields are [None]. *)
Record RosterRow : Type := mkRow {
  r_patient_id : string;
  r_total_tests : option Z;
  r_abnormal : option Z;
  r_critical : option Z;
  r_last_test : option string;
  r_first_test : option string
}.

(** The roster request: the [patients] field of a 2xx body (absent: [None]),
    or anything that lands in the [catch]. *)
Inductive roster_result : Type :=
| RosterOk (rows : option (list RosterRow))
| RosterFailed.

Definition or_zero (o : option Z) : Z := match o with Some z => z | None => 0%Z end.
Definition date_prefix (o : option string) : string :=
  slice0 10 (match o with Some s => s | None => EmptyString end).

Definition to_patient (r : RosterRow) : Patient :=
  mkPatient (r_patient_id r) (or_zero (r_total_tests r)) (or_zero (r_abnormal r))
    (or_zero (r_critical r)) (date_prefix (r_last_test r)) (date_prefix (r_first_test r)).

(** [rows.find(p => p.patient_id === id)]. *)
Definition find_patient (id : string) (rows : list Patient) : option Patient :=
  find (fun p => String.eqb (patient_id p) id) rows.

Definition alert_text (id : string) (n : Z) : string :=
  "Patient " ++ id ++ " has " ++ show_int n
    ++ " critical lab panels — immediate review needed".

(** The part of [loadPatients] that runs before the request leaves. *)
Definition loadPatients_begin (st : AppState) : AppState := setPatientsLoading true st.

(** The part after the [await]. [id] is the [patientId] the callback closed
    over when it was created: every read of [patientId] below is of that
    constant, also after [setPatientId]. *)
Definition loadPatients_settle (id : string) (r : roster_result) (st : AppState)
  : AppState :=
  let st1 :=
    match r with
    | RosterOk data_patients =>
        let rows := map to_patient (match data_patients with Some l => l | None => [] end) in
        let st_a := setPatients rows st in
        let st_b :=
          match rows, find_patient id rows with
          | first :: _, None => setPatientId (patient_id first) st_a
          | _, _ => st_a
          end in
        let current := find_patient id rows in
        setCriticalAlert
          (match current with
           | Some c => if (0 <? critical c)%Z then Some (alert_text id (critical c)) else None
           | None => None
           end) st_b
    | RosterFailed => st
    end in
  setPatientsLoading false st1.

(** *** The polling effect (fast cadence) *)

(** A request that has left and has not settled, with what its
    continuation closed over. *)
Inductive request : Type :=
| GetHealth (t0 : Z)
| GetPatients (id : string).

Record Runtime : Type := mkRuntime {
  app : AppState;
  pending : list request
}.

Definition checkStatus_begin (now : Z) (rt : Runtime) : Runtime :=
  mkRuntime (app rt) (pending rt ++ [GetHealth now]).

Definition loadPatients_call (rt : Runtime) : Runtime :=
  mkRuntime (loadPatients_begin (app rt)) (pending rt ++ [GetPatients (patientId (app rt))]).

(** The body of the effect and of its interval callback:
    [checkStatus(); loadPatients();]. *)
Definition poll (now : Z) (rt : Runtime) : Runtime :=
  loadPatients_call (checkStatus_begin now rt).

Definition fast_period_ms : Z := 20000.

Definition mount (now : Z) : Runtime := poll now (mkRuntime initial []).
Definition interval_tick (now : Z) (rt : Runtime) : Runtime := poll now rt.

Definition is_health (r : request) : bool :=
  match r with GetHealth _ => true | GetPatients _ => false end.
Definition is_roster (r : request) : bool :=
  match r with GetPatients _ => true | GetHealth _ => false end.

Definition health_in_flight (rt : Runtime) : nat := List.length (filter is_health (pending rt)).
Definition roster_in_flight (rt : Runtime) : nat := List.length (filter is_roster (pending rt)).

(** What comes back for a pending request, with the clock readings its
    continuation takes. *)
Inductive response : Type :=
| HealthResponse (now : Z) (clock : string) (r : settled)
| RosterResponse (r : roster_result).

(** The [i]-th pending request settles and its continuation runs. *)
Definition settle (i : nat) (resp : response) (rt : Runtime) : Runtime :=
  match nth_error (pending rt) i, resp with
  | Some (GetHealth t0), HealthResponse now clock r =>
      mkRuntime (checkStatus_settle t0 now clock r (app rt)) (remove_nth i (pending rt))
  | Some (GetPatients id), RosterResponse r =>
      mkRuntime (loadPatients_settle id r (app rt)) (remove_nth i (pending rt))
  | _, _ => rt
  end.

End Page.

(* ================================================================== *)
(** ** frontend/components/DashboardTab.tsx                            *)
(* ================================================================== *)

Module DashboardTab.
Import Js.

Record QueryLog : Type := mkQueryLog {
  query : string;
  rows : value;
  ms : Z;
  time : string
}.

Record DashState : Type := mkDash {
  summary : value;
  biomarkers : value;
  risk : value;
  alerts : value;
  queryLog : list QueryLog;
  loading : bool;
  lastUpdate : string;
  countdown : Z
}.

(** [useState] initial values. *)
Definition initial : DashState :=
  mkDash VNull (VArr []) VNull (VArr []) [] true EmptyString 30.

(** One call of a state setter. *)
Inductive setter : Type :=
| SetSummary (v : value)
| SetBiomarkers (v : value)
| SetRisk (v : value)
| SetAlerts (v : value)
| SetQueryLog (f : list QueryLog -> list QueryLog)
| SetLoading (b : bool)
| SetLastUpdate (s : string)
| SetCountdown (f : Z -> Z).

Definition apply (st : DashState) (a : setter) : DashState :=
  match a with
  | SetSummary v =>
      mkDash v (biomarkers st) (risk st) (alerts st) (queryLog st) (loading st) (lastUpdate st) (countdown st)
  | SetBiomarkers v =>
      mkDash (summary st) v (risk st) (alerts st) (queryLog st) (loading st) (lastUpdate st) (countdown st)
  | SetRisk v =>
      mkDash (summary st) (biomarkers st) v (alerts st) (queryLog st) (loading st) (lastUpdate st) (countdown st)
  | SetAlerts v =>
      mkDash (summary st) (biomarkers st) (risk st) v (queryLog st) (loading st) (lastUpdate st) (countdown st)
  | SetQueryLog f =>
      mkDash (summary st) (biomarkers st) (risk st) (alerts st) (f (queryLog st)) (loading st) (lastUpdate st) (countdown st)
  | SetLoading b =>
      mkDash (summary st) (biomarkers st) (risk st) (alerts st) (queryLog st) b (lastUpdate st) (countdown st)
  | SetLastUpdate s =>
      mkDash (summary st) (biomarkers st) (risk st) (alerts st) (queryLog st) (loading st) s (countdown st)
  | SetCountdown f =>
      mkDash (summary st) (biomarkers st) (risk st) (alerts st) (queryLog st) (loading st) (lastUpdate st) (f (countdown st))
  end.

Definition apply_all (st : DashState) (calls : list setter) : DashState :=
  fold_left apply calls st.

(** *** A block of synchronous code: the setter calls it makes, in order,
    and its result ([None]: it threw). *)
Definition Eff (A : Type) : Type := (list setter * option A)%type.

Definition ret {A} (a : A) : Eff A := ([], Some a).
Definition call (a : setter) : Eff unit := ([a], Some tt).
Definition eval (o : option value) : Eff value := ([], o).
Definition bind {A B} (m : Eff A) (k : A -> Eff B) : Eff B :=
  match m with
  | (w, Some a) => let (w', r) := k a in (w ++ w', r)
  | (w, None) => (w, None)
  end.
(** [try { body } finally { fin }]; [fin] itself does not throw. *)
Definition try_finally {A} (body : Eff A) (fin : list setter) : Eff A :=
  (fst body ++ fin, snd body).

Notation "x <- m ;; k" := (bind m (fun x => k))
  (at level 61, m at next level, right associativity).
Notation "m ;; k" := (bind m (fun _ => k))
  (at level 61, right associativity).

Definition log_capacity : nat := 10.

(** [logQuery]. *)
Definition push_query (q : string) (rows_ : value) (ms_ : Z) (clock : string)
           (prev : list QueryLog) : list QueryLog :=
  firstn log_capacity (mkQueryLog q rows_ ms_ clock :: prev).

Definition logQuery (clock : string) (q : string) (rows_ : value) (ms_ : Z) : Eff unit :=
  call (SetQueryLog (push_query q rows_ ms_ clock)).

Definition q_summary (pid : string) : string :=
  "FROM lab-results | WHERE patient_id == " ++ dquote ++ pid ++ dquote ++ " | STATS COUNT(*)".
Definition q_biomarkers (pid : string) : string :=
  "GET lab-results/_search { patient_id: " ++ dquote ++ pid ++ dquote ++ ", sort: test_date }".
Definition q_risk (pid : string) : string :=
  "FROM lab-results | WHERE patient_id == " ++ dquote ++ pid ++ dquote
    ++ " AND abnormal_flags IS NOT NULL | STATS COUNT(*)".
Definition q_alerts (pid : string) : string :=
  "FROM lab-results | WHERE patient_id == " ++ dquote ++ pid ++ dquote
    ++ " | SORT test_date DESC | LIMIT 5".

(** The four results of [Promise.allSettled], in the order of the source. *)
Record Settled4 : Type := mkSettled4 {
  sumR : settled;
  bioR : settled;
  riskR : settled;
  alertR : settled
}.

Definition on_summary (pid : string) (t0 now : Z) (clock : string) (r : settled) : Eff unit :=
  match r with
  | Fulfilled data =>
      call (SetSummary data) ;;
      logQuery clock (q_summary pid) (VNum 1%Q) (round_div (now - t0) 4)
  | Rejected _ => ret tt
  end.

Definition on_biomarkers (pid : string) (t0 now : Z) (clock : string) (r : settled) : Eff unit :=
  match r with
  | Fulfilled data =>
      b <- eval (get data "biomarkers") ;;
      call (SetBiomarkers (or_else b (VArr []))) ;;
      b' <- eval (get data "biomarkers") ;;
      logQuery clock (q_biomarkers pid) (or_else (oget b' "length") (VNum 0%Q))
        (round_div (now - t0) 3)
  | Rejected _ => ret tt
  end.

Definition on_risk (pid : string) (t0 now : Z) (clock : string) (r : settled) : Eff unit :=
  match r with
  | Fulfilled data =>
      call (SetRisk data) ;;
      logQuery clock (q_risk pid) (VNum 1%Q) (round_div (now - t0) 2)
  | Rejected _ => ret tt
  end.

Definition on_alerts (pid : string) (t0 now : Z) (clock : string) (r : settled) : Eff unit :=
  match r with
  | Fulfilled data =>
      a <- eval (get data "alerts") ;;
      call (SetAlerts (or_else a (VArr []))) ;;
      a' <- eval (get data "alerts") ;;
      logQuery clock (q_alerts pid) (or_else (oget a' "length") (VNum 0%Q)) (now - t0)
  | Rejected _ => ret tt
  end.

(** The body of the [try] of [load] after [await Promise.allSettled(...)].
    [now] and [clock] are the readings of the clock while this block runs. *)
Definition load_try (pid : string) (t0 now : Z) (clock : string) (rs : Settled4) : Eff unit :=
  on_summary pid t0 now clock (sumR rs) ;;
  on_biomarkers pid t0 now clock (bioR rs) ;;
  on_risk pid t0 now clock (riskR rs) ;;
  on_alerts pid t0 now clock (alertR rs) ;;
  call (SetLastUpdate clock) ;;
  call (SetCountdown (fun _ => 30%Z)).

(** [load] before the await: [setLoading(true)], [t0 = Date.now()], and the
    four requests leave. *)
Definition load_begin : list setter := [SetLoading true].

(** [load] from the moment the four requests have settled. *)
Definition load_settle (pid : string) (t0 now : Z) (clock : string) (rs : Settled4) : Eff unit :=
  try_finally (load_try pid t0 now clock rs) [SetLoading false].

(** One whole refresh cycle: every setter call, and whether [load] threw. *)
Definition load (pid : string) (t0 now : Z) (clock : string) (rs : Settled4) : Eff unit :=
  (load_begin ++ fst (load_settle pid t0 now clock rs), snd (load_settle pid t0 now clock rs)).

Definition after_load (pid : string) (t0 now : Z) (clock : string) (rs : Settled4)
           (st : DashState) : DashState :=
  apply_all st (fst (load pid t0 now clock rs)).

(** One refresh cycle with everything it reads from outside. *)
Record Refresh : Type := mkRefresh {
  rf_patient : string;
  rf_t0 : Z;
  rf_now : Z;
  rf_clock : string;
  rf_results : Settled4
}.

Definition refresh (st : DashState) (r : Refresh) : DashState :=
  after_load (rf_patient r) (rf_t0 r) (rf_now r) (rf_clock r) (rf_results r) st.

Definition refreshes (st : DashState) (rs : list Refresh) : DashState :=
  fold_left refresh rs st.

(** The line a setter call puts on the query log, read off the updater it
    hands to [setQueryLog]; no line for any other setter. *)
Definition line_of (a : setter) : list QueryLog :=
  match a with
  | SetQueryLog f => f []
  | _ => []
  end.

(** The lines a refresh cycle logs, oldest first. *)
Definition lines (r : Refresh) : list QueryLog :=
  flat_map line_of (fst (load (rf_patient r) (rf_t0 r) (rf_now r) (rf_clock r) (rf_results r))).

Definition is_clear (a : setter) : bool :=
  match a with SetLoading false => true | _ => false end.

(** How many times a block calls [setLoading(false)]. *)
Definition clears (calls : list setter) : nat := List.length (filter is_clear calls).

Definition fulfilled (r : settled) : bool :=
  match r with Fulfilled _ => true | Rejected _ => false end.

(** A setter call that cannot make the log longer than its capacity. *)
Definition log_safe (a : setter) : Prop :=
  match a with
  | SetQueryLog f => forall l, List.length (f l) <= log_capacity
  | _ => True
  end.

(** The value each fulfilled endpoint contributes to its slice. *)
Definition summary_of (data : value) : value := data.
Definition biomarkers_of (data : value) : value := or_else (prop data "biomarkers") (VArr []).
Definition risk_of (data : value) : value := data.
Definition alerts_of (data : value) : value := or_else (prop data "alerts") (VArr []).

(** A fulfilled response whose body is null or undefined: reading a field
    of it throws. *)
Definition bodyless (r : settled) : bool :=
  match r with Fulfilled data => nullish data | Rejected _ => false end.

(** *** The countdown effect (slow cadence) *)

Record Cycle : Type := mkCycle {
  c_patient : string;
  c_t0 : Z
}.

Record Runtime : Type := mkRuntime {
  view : DashState;
  in_flight : list Cycle
}.

Definition load_call (pid : string) (now : Z) (rt : Runtime) : Runtime :=
  mkRuntime (apply_all (view rt) load_begin) (in_flight rt ++ [mkCycle pid now]).

(** The effect body on mount: [load()] and the one-second interval starts. *)
Definition mount (pid : string) (now : Z) : Runtime :=
  load_call pid now (mkRuntime initial []).

(** The interval callback:
    [setCountdown(c => { if (c <= 1) { load(); return 30; } return c - 1; })]. *)
Definition second_tick (pid : string) (now : Z) (rt : Runtime) : Runtime :=
  if (countdown (view rt) <=? 1)%Z
  then let rt' := load_call pid now rt in
       mkRuntime (apply (view rt') (SetCountdown (fun _ => 30%Z))) (in_flight rt')
  else mkRuntime (apply (view rt) (SetCountdown (fun c => (c - 1)%Z))) (in_flight rt).

Fixpoint seconds (n : nat) (pid : string) (now : Z) (rt : Runtime) : Runtime :=
  match n with
  | O => rt
  | S n' => seconds n' pid (now + 1000) (second_tick pid (now + 1000) rt)
  end.

Definition cycles_in_flight (rt : Runtime) : nat := List.length (in_flight rt).

(** The [i]-th cycle in flight has all four calls settled and its
    continuation runs. *)
Definition settle (i : nat) (now : Z) (clock : string) (rs : Settled4) (rt : Runtime)
  : Runtime :=
  match nth_error (in_flight rt) i with
  | Some c =>
      mkRuntime
        (apply_all (view rt) (fst (load_settle (c_patient c) (c_t0 c) now clock rs)))
        (remove_nth i (in_flight rt))
  | None => rt
  end.

(** *** [Sparkline] *)

Local Open Scope float_scope.

Definition W : float := 80.
Definition H : float := 24.
Definition pad : float := 2.

(** What [Sparkline] returns, or the RangeError that spreading the series
    into the arguments of [Math.min] raises. *)
Inductive sparkline : Type :=
| NoData
| Chart (pts : list (float * float)) (color : string) (lx ly : float) (pulse : bool)
| RangeError.

(** [Math.min] and [Math.max] of two numbers: NaN if either is NaN, and
    -0 below +0. *)
Definition min2 (a b : float) : float :=
  if is_nan a || is_nan b then nan
  else if a <? b then a
  else if b <? a then b
  else if get_sign a then a else b.

Definition max2 (a b : float) : float :=
  if is_nan a || is_nan b then nan
  else if a <? b then b
  else if b <? a then a
  else if get_sign a then b else a.

(** [Math.min(...values)] and [Math.max(...values)] in an engine that takes
    at most [max_args] arguments in a call: [None] is the RangeError. *)
Definition minimum (values : list float) : float := fold_left min2 values infinity.
Definition maximum (values : list float) : float := fold_left max2 values neg_infinity.

Definition Math_min (max_args : nat) (values : list float) : option float :=
  if (max_args <? List.length values)%nat then None else Some (minimum values).

Definition Math_max (max_args : nat) (values : list float) : option float :=
  if (max_args <? List.length values)%nat then None else Some (maximum values).

(** [d || 1]: 1 when [d] is 0, -0 or NaN. *)
Definition or_1 (d : float) : float :=
  if (d =? 0) || is_nan d then 1 else d.

Fixpoint mapi_from {A B : Type} (i : nat) (f : nat -> A -> B) (l : list A) : list B :=
  match l with
  | [] => []
  | a :: rest => f i a :: mapi_from (S i) f rest
  end.

(** [values.map((v, i) => ...)]. *)
Definition mapi {A B : Type} (f : nat -> A -> B) (l : list A) : list B := mapi_from 0 f l.

(** An array index or length as a number. *)
Definition of_index (i : nat) : float := of_uint63 (Uint63.of_Z (Z.of_nat i)).

Definition point (n : nat) (min range : float) (i : nat) (v : float) : float * float :=
  (pad + (of_index i / (of_index n - 1)) * (W - pad * 2),
   pad + (1 - (v - min) / range) * (H - pad * 2)).

Definition Sparkline (max_args : nat) (values : list float) (isAbnormal : bool) : sparkline :=
  if (List.length values <? 2)%nat then NoData
  else match Math_min max_args values, Math_max max_args values with
       | Some min, Some max =>
           let range := or_1 (max - min) in
           let pts := mapi (point (List.length values) min range) values in
           let color := if isAbnormal then "#f87171"%string else "#34d399"%string in
           let last := List.last values nan in
           let lx := pad + (W - pad * 2) in
           let ly := pad + (1 - (last - min) / range) * (H - pad * 2) in
           Chart pts color lx ly isAbnormal
       | _, _ => RangeError
       end.

(** A rendered coordinate pair inside the padded drawing box. *)
Definition in_box (p : float * float) : bool :=
  (pad <=? fst p) && (fst p <=? W - pad) && (pad <=? snd p) && (snd p <=? H - pad).

End DashboardTab.

(* ================================================================== *)
(** ** frontend/components/ScoringPanel.tsx                            *)
(* ================================================================== *)

Module ScoringPanel.
Local Open Scope float_scope.

(** The needle angle and the colour of [RiskGauge], on the binary64
    numbers the browser computes with. *)

(** [(percentile / 100) * 180 - 90]. *)
Definition RiskGauge_angle (percentile : float) : float :=
  (percentile / 100) * 180 - 90.

Definition RiskGauge_color (percentile : float) : string :=
  if 90 <=? percentile then "#ef4444"%string
  else if 75 <=? percentile then "#f97316"%string
  else if 50 <=? percentile then "#eab308"%string
  else "#22c55e"%string.

(** The colours of the four bands. *)
Definition critical_band : string := "#ef4444".
Definition high_band : string := "#f97316".
Definition elevated_band : string := "#eab308".
Definition normal_band : string := "#22c55e".

End ScoringPanel.

(* ================================================================== *)
(** ** frontend/components/EsqlTab.tsx                                 *)
(* ================================================================== *)

Module EsqlTab.
Import Js.

Record EsqlState : Type := mkEsql {
  query : string;
  result : value;
  running : bool;
  error : value;
  active : nat;
  rawOpen : bool
}.

(** The body of the POST to [/api/esql/run]. *)
Record RunRequest : Type := mkRun {
  body_query : string;
  body_limit : Z
}.

(** [useState] initial values; [first_example] is [EXAMPLES[0].q]. *)
Definition initial (first_example : string) : EsqlState :=
  mkEsql first_example VNull false VNull 0 false.

Definition setResult (v : value) (st : EsqlState) : EsqlState :=
  mkEsql (query st) v (running st) (error st) (active st) (rawOpen st).
Definition setRunning (b : bool) (st : EsqlState) : EsqlState :=
  mkEsql (query st) (result st) b (error st) (active st) (rawOpen st).
Definition setError (v : value) (st : EsqlState) : EsqlState :=
  mkEsql (query st) (result st) (running st) v (active st) (rawOpen st).
Definition setRawOpen (b : bool) (st : EsqlState) : EsqlState :=
  mkEsql (query st) (result st) (running st) (error st) (active st) b.
Definition setQuery (q : string) (st : EsqlState) : EsqlState :=
  mkEsql q (result st) (running st) (error st) (active st) (rawOpen st).
Definition setActive (i : nat) (st : EsqlState) : EsqlState :=
  mkEsql (query st) (result st) (running st) (error st) i (rawOpen st).

(** [run] up to its [await]: the new state and the request that leaves,
    if one does. *)
Definition run_begin (st : EsqlState) : EsqlState * option RunRequest :=
  if blank (query st) || running st then (st, None)
  else (setRawOpen false (setResult VNull (setError VNull (setRunning true st))),
        Some (mkRun (query st) 100)).

(** The error thrown by reading property [k] of null or undefined. *)
Definition type_error (v : value) (k : string) : value :=
  VObj [("message",
         VStr ("Cannot read properties of "
               ++ (match v with VNull => "null" | _ => "undefined" end)
               ++ " (reading '" ++ k ++ "')"))].

(** The [catch] block:
    [setError(e.response?.data?.detail || e.message || 'Query failed')]. *)
Definition run_catch (e : value) (st : EsqlState) : EsqlState :=
  match get e "response", get e "message" with
  | Some resp, Some m =>
      setError (or_else (or_else (oget (oget resp "data") "detail") m) (VStr "Query failed")) st
  | _, _ => st
  end.

(** [run] from the moment the request has settled. *)
Definition run_settle (r : settled) (st : EsqlState) : EsqlState :=
  let st1 :=
    match r with
    | Fulfilled data =>
        match get data "status" with
        | Some s =>
            if is_str s "error" then setError (prop data "error") st
            else setResult data st
        | None => run_catch (type_error data "status") st
        end
    | Rejected e => run_catch e st
    end in
  setRunning false st1.

(** [pick(i)], with [q = EXAMPLES[i].q]. *)
Definition pick (i : nat) (q : string) (st : EsqlState) : EsqlState :=
  setRawOpen false (setError VNull (setResult VNull (setQuery q (setActive i st)))).

(** The console with the requests that have left and not settled. *)
Record Console : Type := mkConsole {
  ui : EsqlState;
  outstanding : list RunRequest
}.

Inductive event : Type :=
| Submit
| Settle (i : nat) (r : settled)
| Edit (q : string)
| Pick (i : nat) (q : string).

Definition step (c : Console) (e : event) : Console :=
  match e with
  | Submit =>
      let (st, req) := run_begin (ui c) in
      mkConsole st (outstanding c ++ match req with Some r => [r] | None => [] end)
  | Settle i r =>
      match nth_error (outstanding c) i with
      | Some _ => mkConsole (run_settle r (ui c)) (remove_nth i (outstanding c))
      | None => c
      end
  | Edit q => mkConsole (setQuery q (ui c)) (outstanding c)
  | Pick i q => mkConsole (pick i q (ui c)) (outstanding c)
  end.

Definition steps (c : Console) (es : list event) : Console := fold_left step es c.

Definition start (first_example : string) : Console :=
  mkConsole (initial first_example) [].

(** The running flag is up exactly while one request is out, and there is
    never a second one. *)
Definition one_at_a_time (c : Console) : Prop :=
  match outstanding c with
  | [] => running (ui c) = false
  | [_] => running (ui c) = true
  | _ :: _ :: _ => False
  end.

End EsqlTab.

(* ================================================================== *)
(** ** frontend/app/page.tsx: the shell around the tabs                *)
(* ================================================================== *)

Module Shell.
Import Js Page.

Inductive TabId : Type := dashboard | chat | esql | elastic | upload.

(** The state hooks of [App] beside those of [Page.AppState], with the
    requests of the polling layer that are in flight. *)
Record ShellState : Type := mkShell {
  runtime : Runtime;
  tab : TabId;
  showMenu : bool;
  customInput : string;
  refreshKey : Z
}.

Definition start (now : Z) : ShellState :=
  mkShell (Page.mount now) dashboard false EmptyString 0.

Definition with_app (f : AppState -> AppState) (rt : Runtime) : Runtime :=
  mkRuntime (f (app rt)) (pending rt).

(** [switchPatient]. *)
Definition switchPatient (id : string) (sh : ShellState) : ShellState :=
  mkShell (with_app (setPatientId id) (runtime sh)) (tab sh) false EmptyString
    (refreshKey sh + 1).

(** The refresh button of the header:
    [checkStatus(); loadPatients(); setRefreshKey(k => k + 1)]. *)
Definition refresh_all (now : Z) (sh : ShellState) : ShellState :=
  mkShell (poll now (runtime sh)) (tab sh) (showMenu sh) (customInput sh) (refreshKey sh + 1).

(** [handleUploadSuccess]: [loadPatients()] at once, and what its
    [setTimeout] callback does 800 ms later. *)
Definition handleUploadSuccess (sh : ShellState) : ShellState :=
  mkShell (loadPatients_call (runtime sh)) (tab sh) (showMenu sh) (customInput sh)
    (refreshKey sh).
Definition upload_timeout (sh : ShellState) : ShellState :=
  mkShell (runtime sh) dashboard (showMenu sh) (customInput sh) (refreshKey sh + 1).

(** [onPatientIdChange], which [UploadTab] calls with the id the backend
    answered just before it calls [onSuccess]: plain [setPatientId]. *)
Definition upload_patient (id : string) (sh : ShellState) : ShellState :=
  mkShell (with_app (setPatientId id) (runtime sh)) (tab sh) (showMenu sh)
    (customInput sh) (refreshKey sh).

(** The [X] of the alert banner: [setCriticalAlert(null)]. *)
Definition dismiss_alert (sh : ShellState) : ShellState :=
  mkShell (with_app (setCriticalAlert None) (runtime sh)) (tab sh) (showMenu sh)
    (customInput sh) (refreshKey sh).

(** The React key of the dashboard: [`dash-${patientId}-${refreshKey}`]. *)
Definition dash_key (id : string) (k : Z) : string :=
  "dash-" ++ id ++ "-" ++ show_int k.

Definition dashboard_key (sh : ShellState) : string :=
  dash_key (patientId (app (runtime sh))) (refreshKey sh).

(** What can happen to the shell. *)
Inductive event : Type :=
| Tick (now : Z)
| Settle (i : nat) (resp : response)
| RosterButton
| RefreshButton (now : Z)
| Switch (id : string)
| UploadPatient (id : string)
| UploadDone
| UploadTimeout
| Dismiss.

Definition step (sh : ShellState) (e : event) : ShellState :=
  match e with
  | Tick now =>
      mkShell (interval_tick now (runtime sh)) (tab sh) (showMenu sh) (customInput sh)
        (refreshKey sh)
  | Settle i resp =>
      mkShell (settle i resp (runtime sh)) (tab sh) (showMenu sh) (customInput sh)
        (refreshKey sh)
  | RosterButton =>
      mkShell (loadPatients_call (runtime sh)) (tab sh) (showMenu sh) (customInput sh)
        (refreshKey sh)
  | RefreshButton now => refresh_all now sh
  | Switch id => switchPatient id sh
  | UploadPatient id => upload_patient id sh
  | UploadDone => handleUploadSuccess sh
  | UploadTimeout => upload_timeout sh
  | Dismiss => dismiss_alert sh
  end.

Definition run (sh : ShellState) (es : list event) : ShellState := fold_left step es sh.

(** The character that separates the parts of the key. *)
Definition dash : ascii := "-"%char.

Fixpoint has_char (c : ascii) (s : string) : bool :=
  match s with
  | EmptyString => false
  | String a rest => Ascii.eqb a c || has_char c rest
  end.

End Shell.

(* ================================================================== *)
(** ** frontend/components/DashboardTab.tsx: what is rendered, and the
       component over time                                             *)
(* ================================================================== *)

Module DashboardView.
Import Js DashboardTab.

(** The three returns of [DashboardTab]. *)
Inductive screen : Type := Spinner | NoLabData | Board.

(** [summary.total_tests === 0]. *)
Definition total_tests_is_zero (s : value) : bool :=
  match prop s "total_tests" with
  | VNum q => Qeq_bool q 0%Q
  | _ => false
  end.

(** [if (loading && !summary) ...; if (!summary || summary.total_tests === 0) ...]. *)
Definition screen_of (st : DashState) : screen :=
  if loading st && negb (truthy (summary st)) then Spinner
  else if negb (truthy (summary st)) || total_tests_is_zero (summary st) then NoLabData
  else Board.

Definition newline : ascii := ascii_of_nat 10.

(** The text of a [QueryLogPill] before its ellipsis:
    [q.query.split('\n')[0].slice(0, 60)]. *)
Definition pill_text (q : QueryLog) : string :=
  slice0 60 (before newline (query q)).

(** What can happen to a mounted dashboard: the one-second interval fires,
    a cycle in flight settles, or a button calls [load]. *)
Inductive event : Type :=
| Second (now : Z)
| Settled (i : nat) (now : Z) (clock : string) (rs : Settled4)
| Button (now : Z).

Definition step (pid : string) (rt : Runtime) (e : event) : Runtime :=
  match e with
  | Second now => second_tick pid now rt
  | Settled i now clock rs => settle i now clock rs rt
  | Button now => load_call pid now rt
  end.

Definition run (pid : string) (rt : Runtime) (es : list event) : Runtime :=
  fold_left (step pid) es rt.

(** How many of the four calls were fulfilled. *)
Definition count_fulfilled (rs : Settled4) : nat :=
  List.length (filter fulfilled [sumR rs; bioR rs; riskR rs; alertR rs]).

End DashboardView.

(* ================================================================== *)
(** ** frontend/components/ScoringPanel.tsx: labels, loading, counter  *)
(* ================================================================== *)

Module ScoringView.
Import Js.

(** The caption under the gauge, on binary64 numbers. *)
Definition RiskGauge_label (percentile : float) : string :=
  if (95 <=? percentile)%float then "🔴 Top 5% Most Critical"
  else if (90 <=? percentile)%float then "🔴 Top 10% Critical"
  else if (75 <=? percentile)%float then "🟠 Top 25% High Risk"
  else if (50 <=? percentile)%float then "🟡 Above Average Risk"
  else "🟢 Below Average Risk".

Record PanelState : Type := mkPanel {
  percentile : value;
  similar : value;
  panels : value;
  popStats : value;
  loading : bool;
  showPop : bool;
  error : value
}.

(** [useState] initial values. *)
Definition initial : PanelState :=
  mkPanel VNull (VArr []) (VArr []) VNull true false (VStr EmptyString).

Definition setPercentile (v : value) (st : PanelState) : PanelState :=
  mkPanel v (similar st) (panels st) (popStats st) (loading st) (showPop st) (error st).
Definition setSimilar (v : value) (st : PanelState) : PanelState :=
  mkPanel (percentile st) v (panels st) (popStats st) (loading st) (showPop st) (error st).
Definition setPanels (v : value) (st : PanelState) : PanelState :=
  mkPanel (percentile st) (similar st) v (popStats st) (loading st) (showPop st) (error st).
Definition setPopStats (v : value) (st : PanelState) : PanelState :=
  mkPanel (percentile st) (similar st) (panels st) v (loading st) (showPop st) (error st).
Definition setLoading (b : bool) (st : PanelState) : PanelState :=
  mkPanel (percentile st) (similar st) (panels st) (popStats st) b (showPop st) (error st).
Definition setError (v : value) (st : PanelState) : PanelState :=
  mkPanel (percentile st) (similar st) (panels st) (popStats st) (loading st) (showPop st) v.

(** What [await res.json()] gives: the parsed body, or a rejection. *)
Inductive parsed : Type :=
| Json (v : value)
| Unparsable (e : value).

(** A [Response] of [fetch]. *)
Record Response : Type := mkResponse {
  ok : bool;
  json : parsed
}.

(** What [await Promise.all([...four fetches])] gives: four responses, or
    the reason of the first fetch that rejected. *)
Inductive fanout : Type :=
| Responses (pctRes simRes panRes popRes : Response)
| Rejection (e : value).

(** A statement of the [try] block: the state it leaves, and the exception
    it threw, if it did. *)
Definition Stmt : Type := PanelState -> PanelState * option value.

Definition then_ (a b : Stmt) : Stmt :=
  fun st =>
    match a st with
    | (st1, None) => b st1
    | (st1, Some e) => (st1, Some e)
    end.

(** [if (res.ok) set(await res.json())]. *)
Definition take_body (set : value -> PanelState -> PanelState) (res : Response) : Stmt :=
  fun st =>
    if ok res
    then match json res with
         | Json v => (set v st, None)
         | Unparsable e => (st, Some e)
         end
    else (st, None).

(** [if (res.ok) set((await res.json()).field || [])]. *)
Definition take_field (set : value -> PanelState -> PanelState) (field : string)
           (res : Response) : Stmt :=
  fun st =>
    if ok res
    then match json res with
         | Json v =>
             match get v field with
             | Some x => (set (or_else x (VArr [])) st, None)
             | None => (st, Some (EsqlTab.type_error v field))
             end
         | Unparsable e => (st, Some e)
         end
    else (st, None).

(** [load] before its first await. *)
Definition load_begin (st : PanelState) : PanelState :=
  setError (VStr EmptyString) (setLoading true st).

(** The body of the [try] from the moment [Promise.all] has settled. *)
Definition load_try (f : fanout) : Stmt :=
  match f with
  | Responses pctRes simRes panRes popRes =>
      then_ (take_body setPercentile pctRes)
        (then_ (take_field setSimilar "similar" simRes)
           (then_ (take_field setPanels "panels" panRes)
              (take_body setPopStats popRes)))
  | Rejection e => fun st => (st, Some e)
  end.

(** [catch (e) { setError(e.message) }]: reading [message] of a null or
    undefined [e] throws in turn. *)
Definition load_catch (thrown : option value) (st : PanelState) : PanelState :=
  match thrown with
  | Some e =>
      match get e "message" with
      | Some m => setError m st
      | None => st
      end
  | None => st
  end.

(** [load] from the moment [Promise.all] has settled, [finally] included. *)
Definition load_settle (f : fanout) (st : PanelState) : PanelState :=
  let (st1, thrown) := load_try f st in
  setLoading false (load_catch thrown st1).

(** One whole [load]. *)
Definition load (f : fanout) (st : PanelState) : PanelState :=
  load_settle f (load_begin st).

(** The three returns of [ScoringPanel]. *)
Inductive screen : Type := Spinner | ErrorLine (message : value) | Sections.

Definition screen_of (st : PanelState) : screen :=
  if loading st then Spinner
  else if truthy (error st) then ErrorLine (error st)
  else Sections.

(** *** [AnimatedNumber] *)

Local Open Scope float_scope.

(** The effect's local [start], whether its interval is still set, and the
    [display] state. *)
Record Counter : Type := mkCounter {
  start : float;
  ticking : bool;
  display : float
}.

(** [(value - start) / (900 / 16)] with [start = 0]. *)
Definition increment (value : float) : float := (value - 0) / (900 / 16).

(** The effect runs for a new [value]; [shown] is what is displayed then. *)
Definition restart (shown : float) : Counter := mkCounter 0 true shown.

(** The interval callback. *)
Definition tick (value : float) (c : Counter) : Counter :=
  if ticking c
  then let s := start c + increment value in
       if value <=? s then mkCounter s false value else mkCounter s true s
  else c.

Fixpoint ticks (n : nat) (value : float) (c : Counter) : Counter :=
  match n with
  | O => c
  | S n' => ticks n' value (tick value c)
  end.

Local Close Scope float_scope.

End ScoringView.

(* ================================================================== *)
(** ** frontend/components/EsqlTab.tsx: the result table               *)
(* ================================================================== *)

Module EsqlView.
Import Js.

Record Col : Type := mkCol {
  name : string;
  type : string
}.

(** [typeof val === 'number' && val > 0]. *)
Definition positive_number (val : value) : bool :=
  match val with
  | VNum q => negb (Qle_bool q 0%Q)
  | _ => false
  end.

Definition red : string := "text-red-400 font-bold".
Definition amber : string := "text-amber-400 font-semibold".

(** [cellClass]. *)
Definition cellClass (col : Col) (val : value) : string :=
  if String.eqb (name col) "patient_id" then "text-emerald-300 font-semibold"
  else if includes (name col) "critical" && positive_number val then red
  else if includes (name col) "abnormal" && positive_number val then amber
  else
    match (if String.eqb (name col) "risk_score" then val else VUndefined) with
    | VNum q =>
        if Qle_bool 10 q then red
        else if Qle_bool 4 q then amber
        else "text-emerald-400"
    | _ =>
        if String.eqb (type col) "long" || String.eqb (type col) "double"
        then "text-sky-300 tabular-nums"
        else if includes (name col) "date" then "text-blue-400/80"
        else "text-gray-300"
    end.

(** The column chips of the table header: [columns.slice(0, 5)], and the
    number behind the [+] when there are more. *)
Definition shown_columns (columns : list Col) : list Col := firstn 5 columns.
Definition hidden_columns (columns : list Col) : option nat :=
  if (5 <? List.length columns)%nat then Some (List.length columns - 5)%nat else None.

End EsqlView.

(* ================================================================== *)
(** ** Inputs of the scenarios                                         *)
(* ================================================================== *)

(** A cycle in which all four calls are fulfilled, the biomarkers endpoint
    with the body [null]. *)
Definition cycle_null_biomarkers : DashboardTab.Settled4 :=
  DashboardTab.mkSettled4
    (Js.Fulfilled (Js.VObj [("total_tests", Js.VNum 3%Q)]))
    (Js.Fulfilled Js.VNull)
    (Js.Fulfilled (Js.VObj [("score", Js.VNum 42%Q)]))
    (Js.Fulfilled (Js.VObj [("alerts", Js.VArr [])])).

(** The roster of the scenario: one patient, PAT001, with two critical panels. *)
Definition roster_PAT001 : list Page.RosterRow :=
  [Page.mkRow "PAT001" (Some 5%Z) (Some 3%Z) (Some 2%Z) (Some "2024-03-01T00:00:00Z")
     (Some "2023-11-20T00:00:00Z")].

(** The application with the stale active id PAT002. *)
Definition app_PAT002 : Page.AppState :=
  Page.loadPatients_begin (Page.setPatientId "PAT002" Page.initial).

(** An executor in the middle of a run. *)
Definition console_running : EsqlTab.EsqlState :=
  EsqlTab.mkEsql "FROM lab-results | LIMIT 10" Js.VNull true Js.VNull 0 false.

(* ================================================================== *)
(** ** IEEE 754 binary64: values, order and rounding                   *)
(* ================================================================== *)

(** JavaScript numbers are binary64 numbers, here the primitive floats,
    whose operations are specified by [SpecFloat]. This part relates them
    to the rational numbers: the value of a finite number, the order, and
    each operation as the rounding to nearest, ties to even, of the exact
    result. *)

Module Binary64.
Local Open Scope Z_scope.

(** *** Powers of two *)

Definition pow2 (e : Z) : Q := (2 ^ e)%Q.

Lemma two_neq_0 : ~ (2 == 0)%Q.
Proof. discriminate. Qed.

Lemma pow2_pos (e : Z) : (0 < pow2 e)%Q.
Proof. apply Qpower_0_lt. reflexivity. Qed.

Lemma pow2_add (a b : Z) : (pow2 (a + b) == pow2 a * pow2 b)%Q.
Proof. apply Qpower_plus, two_neq_0. Qed.

Lemma pow2_0 : (pow2 0 == 1)%Q.
Proof. reflexivity. Qed.

Lemma pow2_1 : (pow2 1 == 2)%Q.
Proof. reflexivity. Qed.

Lemma pow2_succ (e : Z) : (pow2 (e + 1) == 2 * pow2 e)%Q.
Proof. rewrite pow2_add, pow2_1. ring. Qed.

Lemma pow2_pred (e : Z) : (pow2 (e - 1) == pow2 e / 2)%Q.
Proof.
  replace e with ((e - 1) + 1) at 2 by lia. rewrite pow2_succ. field.
Qed.

Lemma pow2_split (d e : Z) : (pow2 d == pow2 (d - e) * pow2 e)%Q.
Proof. rewrite <- pow2_add. now replace (d - e + e) with d by lia. Qed.

Lemma pow2_le (a b : Z) : a <= b -> (pow2 a <= pow2 b)%Q.
Proof. intros H. apply Qpower_le_compat_l; [exact H | discriminate]. Qed.

Lemma pow2_lt (a b : Z) : a < b -> (pow2 a < pow2 b)%Q.
Proof. intros H. apply Qpower_lt_compat_l; [exact H | reflexivity]. Qed.

Lemma pow2_le_inv (a b : Z) : (pow2 a <= pow2 b)%Q -> a <= b.
Proof. intros H. apply (Qpower_le_compat_l_inv 2); [exact H | reflexivity]. Qed.

Lemma pow2_lt_inv (a b : Z) : (pow2 a < pow2 b)%Q -> a < b.
Proof. intros H. apply (Qpower_lt_compat_l_inv 2); [exact H | reflexivity]. Qed.

Lemma pow2_Z (n : Z) : 0 <= n -> (pow2 n == inject_Z (2 ^ n))%Q.
Proof. intros H. unfold pow2. now rewrite Zpower_Qpower. Qed.

(** The value of mantissa [m] at exponent [e]. *)
Definition F2Q (m e : Z) : Q := (inject_Z m * pow2 e)%Q.

Lemma F2Q_shift (m e s : Z) : 0 <= s -> (F2Q (m * 2 ^ s) e == F2Q m (e + s))%Q.
Proof.
  intros Hs. unfold F2Q. rewrite inject_Z_mult, pow2_add, (pow2_Z s Hs). ring.
Qed.

Lemma F2Q_le (m n e : Z) : m <= n -> (F2Q m e <= F2Q n e)%Q.
Proof.
  intros H. unfold F2Q. apply Qmult_le_compat_r.
  - now rewrite <- Zle_Qle.
  - apply Qlt_le_weak, pow2_pos.
Qed.

Lemma F2Q_lt (m n e : Z) : m < n -> (F2Q m e < F2Q n e)%Q.
Proof.
  intros H. unfold F2Q. apply Qmult_lt_compat_r.
  - apply pow2_pos.
  - now rewrite <- Zlt_Qlt.
Qed.

Lemma F2Q_le_inv (m n e : Z) : (F2Q m e <= F2Q n e)%Q -> m <= n.
Proof.
  intros H. destruct (Z_le_gt_dec m n) as [Hle | Hgt]; [exact Hle |].
  exfalso. apply (Qlt_not_le _ _ (F2Q_lt n m e ltac:(lia))). exact H.
Qed.

Lemma F2Q_lt_inv (m n e : Z) : (F2Q m e < F2Q n e)%Q -> m < n.
Proof.
  intros H. destruct (Z_lt_ge_dec m n) as [Hlt | Hge]; [exact Hlt |].
  exfalso. apply (Qle_not_lt _ _ (F2Q_le n m e ltac:(lia))). exact H.
Qed.

Lemma Qlt_alt' (a b : Q) : (a < b)%Q -> (a ?= b)%Q = Lt.
Proof. apply Qlt_alt. Qed.

Lemma Qgt_alt' (a b : Q) : (b < a)%Q -> (a ?= b)%Q = Gt.
Proof. apply Qgt_alt. Qed.

Lemma Qeq_alt' (a b : Q) : (a == b)%Q -> (a ?= b)%Q = Eq.
Proof. apply Qeq_alt. Qed.

(** *** The number of binary digits *)

Lemma digits2_pos_bounds (p : positive) :
  2 ^ (Z.pos (digits2_pos p) - 1) <= Z.pos p < 2 ^ Z.pos (digits2_pos p).
Proof.
  induction p as [p IH | p IH |]; cbn [digits2_pos].
  - rewrite Pos2Z.inj_succ. replace (Z.succ (Z.pos (digits2_pos p)) - 1)
      with (Z.succ (Z.pos (digits2_pos p) - 1)) by lia.
    rewrite !Z.pow_succ_r by lia. lia.
  - rewrite Pos2Z.inj_succ. replace (Z.succ (Z.pos (digits2_pos p)) - 1)
      with (Z.succ (Z.pos (digits2_pos p) - 1)) by lia.
    rewrite !Z.pow_succ_r by lia. lia.
  - cbn. lia.
Qed.

Lemma Zdigits2_nonneg (m : Z) : 0 <= Zdigits2 m.
Proof. destruct m; cbn; lia. Qed.

Lemma Zdigits2_bounds (m : Z) :
  0 < m -> 2 ^ (Zdigits2 m - 1) <= m < 2 ^ Zdigits2 m.
Proof. destruct m as [| p | p]; try lia. intros _. apply digits2_pos_bounds. Qed.

Lemma Zdigits2_unique (m d : Z) :
  2 ^ (d - 1) <= m < 2 ^ d -> 0 < m -> Zdigits2 m = d.
Proof.
  intros [Hlo Hhi] Hm. pose proof (Zdigits2_bounds m Hm) as [Hlo' Hhi'].
  pose proof (Zdigits2_nonneg m) as Hd.
  assert (Hd0 : 0 <= d).
  { destruct (Z_lt_ge_dec d 0) as [Hneg | Hok]; [| lia].
    rewrite (Z.pow_neg_r 2 d Hneg) in Hhi. lia. }
  assert (H1 : Zdigits2 m - 1 < d).
  { apply (Z.pow_lt_mono_r_iff 2); lia. }
  assert (H2 : d - 1 < Zdigits2 m).
  { apply (Z.pow_lt_mono_r_iff 2); lia. }
  lia.
Qed.

(** *** Shifting a mantissa to the right *)

(** Where [x] lies between the integer [m] and its successor. *)
Definition loc_at (m : Z) (l : location) (x : Q) : Prop :=
  match l with
  | loc_Exact => (x == inject_Z m)%Q
  | loc_Inexact Lt => (inject_Z m < x /\ x < inject_Z m + (1 # 2))%Q
  | loc_Inexact Eq => (x == inject_Z m + (1 # 2))%Q
  | loc_Inexact Gt => (inject_Z m + (1 # 2) < x /\ x < inject_Z m + 1)%Q
  end.

Lemma loc_at_bounds (m : Z) (l : location) (x : Q) :
  loc_at m l x -> (inject_Z m <= x /\ x < inject_Z m + 1)%Q.
Proof. destruct l as [| []]; cbn; intros H; lra. Qed.

Lemma loc_at_compat (m : Z) (l : location) (x y : Q) :
  (x == y)%Q -> loc_at m l x -> loc_at m l y.
Proof. intros Heq. destruct l as [| []]; cbn; rewrite Heq; auto. Qed.

(** The record [mrs] at exponent [e] locates [r]. *)
Definition inside (mrs : shr_record) (e : Z) (r : Q) : Prop :=
  0 <= shr_m mrs /\ loc_at (shr_m mrs) (loc_of_shr_record mrs) (r / pow2 e)%Q.

Lemma shr_1_eq (m : Z) (r s : bool) :
  0 <= m ->
  shr_1 (Build_shr_record m r s) = Build_shr_record (Z.div2 m) (Z.odd m) (r || s).
Proof. destruct m as [| [p | p |] | p]; try lia; reflexivity. Qed.

Lemma inject_Z_div2 (m : Z) :
  (inject_Z m == 2 * inject_Z (Z.div2 m) + (if Z.odd m then 1 else 0))%Q.
Proof.
  rewrite (Z.div2_odd m) at 1. rewrite inject_Z_plus, inject_Z_mult.
  destruct (Z.odd m); cbn [Z.b2z]; reflexivity.
Qed.

Lemma shr_1_inside (mrs : shr_record) (e : Z) (r : Q) :
  inside mrs e r -> inside (shr_1 mrs) (e + 1) r.
Proof.
  destruct mrs as [m rb sb]. unfold inside. cbn [shr_m]. intros [Hm Hloc].
  rewrite shr_1_eq by exact Hm. cbn [shr_m]. split; [apply Z.div2_nonneg; exact Hm |].
  assert (Hx : (r / pow2 (e + 1) == (r / pow2 e) * (1 # 2))%Q).
  { rewrite pow2_succ. field. pose proof (pow2_pos e). lra. }
  apply (loc_at_compat _ _ _ _ (Qeq_sym _ _ Hx)).
  set (x := (r / pow2 e)%Q) in *. clearbody x.
  pose proof (inject_Z_div2 m) as Hdiv.
  destruct (Z.odd m), rb, sb;
    cbn [loc_at loc_of_shr_record shr_m orb] in Hloc |- *; lra.
Qed.

Lemma iter_pos_inside (p : positive) :
  forall (mrs : shr_record) (e : Z) (r : Q),
    inside mrs e r -> inside (iter_pos shr_1 p mrs) (e + Z.pos p) r.
Proof.
  induction p as [p IH | p IH |]; intros mrs e r H; cbn [iter_pos].
  - replace (e + Z.pos p~1) with (e + 1 + Z.pos p + Z.pos p) by lia.
    apply IH, IH, shr_1_inside, H.
  - replace (e + Z.pos p~0) with (e + Z.pos p + Z.pos p) by lia.
    apply IH, IH, H.
  - apply shr_1_inside, H.
Qed.

Lemma shr_inside (mrs : shr_record) (e n : Z) (r : Q) :
  inside mrs e r ->
  inside (fst (shr mrs e n)) (snd (shr mrs e n)) r /\
  snd (shr mrs e n) = e + Z.max n 0.
Proof.
  intros H. destruct n as [| p | p]; cbn [shr fst snd].
  - split; [exact H | lia].
  - split; [apply iter_pos_inside, H | lia].
  - split; [exact H | lia].
Qed.

Lemma loc_of_record_of_loc (m : Z) (l : location) :
  loc_of_shr_record (shr_record_of_loc m l) = l /\ shr_m (shr_record_of_loc m l) = m.
Proof. destruct l as [| []]; split; reflexivity. Qed.

(** *** Rounding to nearest, ties to even *)

Lemma fexp_eq (d : Z) : fexp prec emax d = Z.max (d - 53) (-1074).
Proof. reflexivity. Qed.

Lemma fexp_mono (a b : Z) : a <= b -> fexp prec emax a <= fexp prec emax b.
Proof. rewrite !fexp_eq. lia. Qed.

Lemma rne_range (m : Z) (l : location) :
  m <= round_nearest_even m l <= m + 1.
Proof. destruct l as [| []]; cbn; try lia. destruct (Z.even m); lia. Qed.

Lemma rne_near (m : Z) (l : location) (x : Q) :
  loc_at m l x ->
  (x - (1 # 2) <= inject_Z (round_nearest_even m l) /\
   inject_Z (round_nearest_even m l) <= x + (1 # 2))%Q.
Proof.
  destruct l as [| []]; cbn [loc_at round_nearest_even]; intros H;
    try destruct (Z.even m); try rewrite inject_Z_plus;
    change (inject_Z 1) with 1%Q; lra.
Qed.

Lemma rne_mono (m1 m2 : Z) (l1 l2 : location) (x1 x2 : Q) :
  loc_at m1 l1 x1 -> loc_at m2 l2 x2 -> (x1 <= x2)%Q ->
  round_nearest_even m1 l1 <= round_nearest_even m2 l2.
Proof.
  intros H1 H2 Hx.
  pose proof (loc_at_bounds _ _ _ H1) as [Hlo1 Hhi1].
  pose proof (loc_at_bounds _ _ _ H2) as [Hlo2 Hhi2].
  assert (Hm : m1 < m2 + 1).
  { rewrite Zlt_Qlt, inject_Z_plus. change (inject_Z 1) with 1%Q. lra. }
  destruct (Z.eq_dec m1 m2) as [-> | Hne].
  - destruct l1 as [| []], l2 as [| []]; cbn [loc_at round_nearest_even] in *;
      try destruct (Z.even m2); try lia; exfalso; lra.
  - pose proof (rne_range m1 l1). pose proof (rne_range m2 l2). lia.
Qed.

(** The second half of [binary_round_aux]: the rounded mantissa is put back
    in canonical form, and the result overflows to infinity when its
    exponent is out of range. *)
Definition finish (s : bool) (M e : Z) : spec_float :=
  let '(mrs, e') := shr_fexp prec emax M e loc_Exact in
  match shr_m mrs with
  | Z0 => S754_zero s
  | Zpos m => if e' <=? emax - prec then S754_finite s m e' else S754_infinity s
  | Zneg _ => S754_nan
  end.

Lemma binary_round_aux_finish (s : bool) (mx ex : Z) (lx : location) :
  binary_round_aux prec emax s mx ex lx
  = finish s (round_nearest_even (shr_m (fst (shr_fexp prec emax mx ex lx)))
                (loc_of_shr_record (fst (shr_fexp prec emax mx ex lx))))
      (snd (shr_fexp prec emax mx ex lx)).
Proof.
  unfold binary_round_aux, finish.
  destruct (shr_fexp prec emax mx ex lx) as [mrs e']. reflexivity.
Qed.

(** [f] is the float of sign [s] and magnitude [M * 2 ^ e]. *)
Definition packs (s : bool) (M e : Z) (f : spec_float) : Prop :=
  (M = 0 /\ f = S754_zero s) \/
  (0 < M /\
   exists (m' : positive) (e' : Z),
     canonical_mantissa prec emax m' e' = true /\
     (F2Q (Z.pos m') e' == F2Q M e)%Q /\
     f = if e' <=? emax - prec then S754_finite s m' e' else S754_infinity s).

Lemma canonical_iff (m : positive) (e : Z) :
  canonical_mantissa prec emax m e = true <-> fexp prec emax (Z.pos (digits2_pos m) + e) = e.
Proof. unfold canonical_mantissa. apply Z.eqb_eq. Qed.

Lemma finish_packs (s : bool) (M d : Z) :
  0 <= M ->
  (inject_Z M <= pow2 (d - fexp prec emax d))%Q ->
  (-1074 < fexp prec emax d -> 2 ^ 52 <= M) ->
  packs s M (fexp prec emax d) (finish s M (fexp prec emax d)).
Proof.
  intros HM Hup Hlow. set (e := fexp prec emax d) in *.
  assert (He : e = Z.max (d - 53) (-1074)) by apply fexp_eq.
  destruct (Z.eq_dec M 0) as [-> | Hnz].
  - left. split; [reflexivity |]. unfold finish, shr_fexp.
    cbn [Zdigits2 shr_record_of_loc].
    pose proof (shr_inside (Build_shr_record 0 false false) e
                  (fexp prec emax (0 + e) - e) 0) as [Hin _].
    { split; [cbn; lia |]. cbn. unfold Qdiv. rewrite Qmult_0_l. reflexivity. }
    destruct (shr (Build_shr_record 0 false false) e (fexp prec emax (0 + e) - e))
      as [mrs e'] eqn:Hshr.
    cbn [fst snd] in Hin. destruct Hin as [Hnn Hloc].
    apply loc_at_bounds in Hloc. unfold Qdiv in Hloc. rewrite Qmult_0_l in Hloc.
    assert (Hz : shr_m mrs = 0).
    { destruct Hloc as [Hl _]. change 0%Q with (inject_Z 0) in Hl.
      rewrite <- Zle_Qle in Hl. lia. }
    now rewrite Hz.
  - right. split; [lia |].
    assert (Hde : 0 <= d - e).
    { destruct (Z_lt_ge_dec (d - e) 0) as [Hneg | Hok]; [| lia]. exfalso.
      assert (Hlt : (pow2 (d - e) < pow2 0)%Q) by (apply pow2_lt; lia).
      rewrite pow2_0 in Hlt.
      assert (HM1 : (inject_Z M < inject_Z 1)%Q) by (change (inject_Z 1) with 1%Q; lra).
      rewrite <- Zlt_Qlt in HM1. lia. }
    assert (HMz : M <= 2 ^ (d - e)).
    { rewrite (pow2_Z _ Hde) in Hup. now rewrite <- Zle_Qle in Hup. }
    assert (Hpos : 0 < M) by lia.
    pose proof (Zdigits2_bounds M Hpos) as [Hdlo Hdhi].
    pose proof (Zdigits2_nonneg M) as Hdnn.
    destruct (Z.eq_dec M (2 ^ 53)) as [HM53 | HM53].
    + (* the rounding carried into a new binade *)
      assert (Hd53 : d - e = 53).
      { assert (2 ^ 53 <= 2 ^ (d - e)) by lia.
        assert (53 <= d - e) by (apply (Z.pow_le_mono_r_iff 2); lia). lia. }
      assert (He' : e = d - 53) by lia.
      subst M. exists (2 ^ 52)%positive, (e + 1).
      split; [| split].
      * apply canonical_iff. rewrite fexp_eq.
        change (Z.pos (digits2_pos (2 ^ 52))) with 53. lia.
      * unfold F2Q. rewrite pow2_succ.
        change (inject_Z (Z.pos (2 ^ 52))) with (4503599627370496 # 1)%Q.
        change (inject_Z (2 ^ 53)) with (9007199254740992 # 1)%Q.
        set (pe := pow2 e). ring_simplify. reflexivity.
      * unfold finish, shr_fexp. change (Zdigits2 (2 ^ 53)) with 54.
        rewrite fexp_eq. replace (Z.max (54 + e - 53) (-1074) - e) with 1 by lia.
        reflexivity.
    + assert (Hdig : fexp prec emax (Zdigits2 M + e) = e).
      { rewrite fexp_eq.
        destruct (Z.eq_dec M (2 ^ (d - e))) as [Htop | Hnt].
        - assert (d - e < 53).
          { destruct (Z.eq_dec (d - e) 53) as [H53 | H53]; [| lia].
            rewrite H53 in Htop. contradiction. }
          assert (Zdigits2 M = d - e + 1).
          { apply Zdigits2_unique; [| lia]. rewrite Htop.
            replace (d - e + 1 - 1) with (d - e) by lia.
            split; [lia |]. apply Z.pow_lt_mono_r; lia. }
          lia.
        - assert (Zdigits2 M - 1 < d - e).
          { apply (Z.pow_lt_mono_r_iff 2); lia. }
          destruct (Z_lt_ge_dec (-1074) e) as [Hnorm | Hsub]; [| lia].
          specialize (Hlow Hnorm).
          assert (52 < Zdigits2 M) by (apply (Z.pow_lt_mono_r_iff 2); lia).
          lia. }
      destruct M as [| p | p]; try lia.
      exists p, e. split; [| split].
      * apply canonical_iff. exact Hdig.
      * reflexivity.
      * unfold finish, shr_fexp. rewrite Hdig, Z.sub_diag. reflexivity.
Qed.

(** An input of [binary_round_aux]: the mantissa [mx] at exponent [ex] with
    the location [lx] stands for the magnitude [r], and has no fewer digits
    than the format keeps. *)
Definition located (mx ex : Z) (lx : location) (r : Q) : Prop :=
  0 <= mx /\ loc_at mx lx (r / pow2 ex)%Q /\ ex <= fexp prec emax (Zdigits2 mx + ex).

Lemma scaled_back (r : Q) (e : Z) : (r == (r / pow2 e) * pow2 e)%Q.
Proof. field. pose proof (pow2_pos e). lra. Qed.

Lemma scaled_le (r1 r2 : Q) (e : Z) : (r1 <= r2 -> r1 / pow2 e <= r2 / pow2 e)%Q.
Proof.
  intros H. unfold Qdiv. apply Qmult_le_compat_r; [exact H |].
  apply Qlt_le_weak, Qinv_lt_0_compat, pow2_pos.
Qed.

Lemma scaled_pow2 (a e : Z) : (pow2 a / pow2 e == pow2 (a - e))%Q.
Proof.
  replace a with ((a - e) + e) at 1 by lia. rewrite pow2_add. field.
  pose proof (pow2_pos e). lra.
Qed.

Lemma located_nonneg (mx ex : Z) (lx : location) (r : Q) :
  located mx ex lx r -> (0 <= r)%Q.
Proof.
  intros [Hm [Hloc _]]. apply loc_at_bounds in Hloc. destruct Hloc as [Hlo _].
  rewrite (scaled_back r ex). apply Qmult_le_0_compat.
  - assert ((0 <= inject_Z mx)%Q) by (change 0%Q with (inject_Z 0); now rewrite <- Zle_Qle).
    lra.
  - apply Qlt_le_weak, pow2_pos.
Qed.

Lemma located_upper (mx ex : Z) (lx : location) (r : Q) :
  located mx ex lx r -> (r < pow2 (Zdigits2 mx + ex))%Q.
Proof.
  intros [Hm [Hloc _]]. apply loc_at_bounds in Hloc. destruct Hloc as [_ Hhi].
  assert (Hz : mx + 1 <= 2 ^ Zdigits2 mx).
  { destruct (Z.eq_dec mx 0) as [-> | Hnz]; [cbn; lia |].
    pose proof (Zdigits2_bounds mx ltac:(lia)). lia. }
  assert (Hq : (inject_Z mx + 1 <= pow2 (Zdigits2 mx))%Q).
  { rewrite (pow2_Z _ (Zdigits2_nonneg mx)). change 1%Q with (inject_Z 1).
    rewrite <- inject_Z_plus, <- Zle_Qle. exact Hz. }
  rewrite (scaled_back r ex), pow2_add.
  apply Qmult_lt_compat_r; [apply pow2_pos | lra].
Qed.

Lemma located_lower (mx ex : Z) (lx : location) (r : Q) :
  located mx ex lx r -> 0 < mx -> (pow2 (Zdigits2 mx + ex - 1) <= r)%Q.
Proof.
  intros [Hm [Hloc _]] Hpos. apply loc_at_bounds in Hloc. destruct Hloc as [Hlo _].
  pose proof (Zdigits2_bounds mx Hpos) as [Hd _].
  assert (Hd1 : 0 <= Zdigits2 mx - 1).
  { destruct mx as [| p | p]; try lia. cbn [Zdigits2]. lia. }
  assert (Hq : (pow2 (Zdigits2 mx - 1) <= inject_Z mx)%Q).
  { rewrite (pow2_Z _ Hd1), <- Zle_Qle. exact Hd. }
  rewrite (scaled_back r ex).
  replace (Zdigits2 mx + ex - 1) with ((Zdigits2 mx - 1) + ex) by lia.
  rewrite pow2_add. apply Qmult_le_compat_r; [lra |].
  apply Qlt_le_weak, pow2_pos.
Qed.

(** [M] is the integer nearest to [r / 2 ^ e], the even one on a tie. *)
Definition rounded_at (e : Z) (r : Q) (M : Z) : Prop :=
  exists (m : Z) (l : location),
    0 <= m /\ loc_at m l (r / pow2 e)%Q /\ M = round_nearest_even m l.

Lemma rounded_at_mono (e : Z) (r1 r2 : Q) (M1 M2 : Z) :
  rounded_at e r1 M1 -> rounded_at e r2 M2 -> (r1 <= r2)%Q -> M1 <= M2.
Proof.
  intros [m1 [l1 [_ [H1 ->]]]] [m2 [l2 [_ [H2 ->]]]] Hr.
  apply (rne_mono _ _ _ _ _ _ H1 H2). now apply scaled_le.
Qed.

Lemma rounded_at_near (e : Z) (r : Q) (M : Z) :
  rounded_at e r M ->
  (r / pow2 e - (1 # 2) <= inject_Z M /\ inject_Z M <= r / pow2 e + (1 # 2))%Q.
Proof. intros [m [l [_ [H ->]]]]. now apply rne_near. Qed.

Lemma rounded_at_nonneg (e : Z) (r : Q) (M : Z) : rounded_at e r M -> 0 <= M.
Proof. intros [m [l [Hm [_ ->]]]]. pose proof (rne_range m l). lia. Qed.

(** [f] is what rounding the magnitude [a] gives, with sign [s]: the
    mantissa nearest to [a] at the canonical exponent of [a], ties to even,
    packed as a float. *)
Definition Rounded_mag (s : bool) (a : Q) (f : spec_float) : Prop :=
  exists M d : Z,
    rounded_at (fexp prec emax d) a M /\
    (inject_Z M <= pow2 (d - fexp prec emax d))%Q /\
    (-1074 < fexp prec emax d -> 2 ^ 52 <= M) /\
    (0 <= a)%Q /\ (a < pow2 d)%Q /\
    (-1074 < fexp prec emax d -> (pow2 (d - 1) <= a)%Q) /\
    packs s M (fexp prec emax d) f.

(** [f] is the binary64 number the real number [r] rounds to. *)
Definition Rounded (r : Q) (f : spec_float) : Prop :=
  ((0 <= r)%Q /\ Rounded_mag false r f) \/ ((r <= 0)%Q /\ Rounded_mag true (- r) f).

(** [binary_round_aux] rounds at the canonical exponent of its input. *)
Lemma binary_round_aux_rounded (s : bool) (mx ex : Z) (lx : location) (r : Q) :
  located mx ex lx r ->
  Rounded_mag s r (binary_round_aux prec emax s mx ex lx).
Proof.
  intros Hloc. pose proof Hloc as [Hm [Hat Hp]].
  set (d := Zdigits2 mx + ex) in *. set (e := fexp prec emax d) in *.
  rewrite binary_round_aux_finish. unfold shr_fexp. fold d. fold e.
  destruct (loc_of_record_of_loc mx lx) as [Hl Hmm].
  assert (Hinit : inside (shr_record_of_loc mx lx) ex r).
  { split; [rewrite Hmm; exact Hm | rewrite Hl, Hmm; exact Hat]. }
  destruct (shr_inside _ _ (e - ex) _ Hinit) as [Hin He].
  destruct (shr (shr_record_of_loc mx lx) ex (e - ex)) as [mrs e'] eqn:Hshr.
  cbn [fst snd] in *. assert (He' : e' = e) by lia. clear He. rewrite He' in *.
  destruct Hin as [Hnn Hin].
  set (M := round_nearest_even (shr_m mrs) (loc_of_shr_record mrs)).
  assert (HM : rounded_at e r M).
  { exists (shr_m mrs), (loc_of_shr_record mrs).
    split; [exact Hnn | split; [exact Hin | reflexivity]]. }
  pose proof (rounded_at_near _ _ _ HM) as [Hnlo Hnhi].
  pose proof (located_upper _ _ _ _ Hloc) as Hup. fold d in Hup.
  assert (Hxup : (r / pow2 e < pow2 (d - e))%Q).
  { rewrite <- scaled_pow2. unfold Qdiv. apply Qmult_lt_compat_r; [| exact Hup].
    apply Qinv_lt_0_compat, pow2_pos. }
  assert (Hpos : -1074 < e -> 0 < mx).
  { intros Hnorm. destruct (Z.eq_dec mx 0) as [Hz | Hnz]; [| lia]. exfalso.
    subst mx. unfold e, d in Hnorm, Hp. cbn [Zdigits2] in Hnorm, Hp.
    rewrite fexp_eq in Hnorm, Hp. lia. }
  assert (HMup : (inject_Z M <= pow2 (d - e))%Q).
  { destruct (Z_lt_ge_dec (d - e) 0) as [Hneg | Hok].
    + assert (Hhalf : (pow2 (d - e) <= 1 # 2)%Q).
      { assert (Hle : (pow2 (d - e) <= pow2 (-1))%Q) by (apply pow2_le; lia).
        exact Hle. }
      assert (HM1 : (inject_Z M < inject_Z 1)%Q) by (change (inject_Z 1) with 1%Q; lra).
      rewrite <- Zlt_Qlt in HM1.
      assert (HM0 : M = 0) by (pose proof (rounded_at_nonneg _ _ _ HM); lia).
      rewrite HM0. apply Qlt_le_weak, pow2_pos.
    + assert (Hok' : 0 <= d - e) by lia.
      rewrite (pow2_Z _ Hok') in Hxup. rewrite (pow2_Z _ Hok'), <- Zle_Qle.
      assert (HMlt : (inject_Z M < inject_Z (2 ^ (d - e) + 1))%Q).
      { rewrite inject_Z_plus. change (inject_Z 1) with 1%Q. lra. }
      rewrite <- Zlt_Qlt in HMlt. lia. }
  assert (HMlow : -1074 < e -> 2 ^ 52 <= M).
  { intros Hnorm.
    pose proof (located_lower _ _ _ _ Hloc (Hpos Hnorm)) as Hlo. fold d in Hlo.
    assert (He53 : e = d - 53) by (unfold e in *; rewrite fexp_eq in *; lia).
    assert (Hxlo : (pow2 52 <= r / pow2 e)%Q).
    { replace 52 with (d - 1 - e) by lia. rewrite <- scaled_pow2. now apply scaled_le. }
    rewrite (pow2_Z 52) in Hxlo by lia.
    assert (HMgt : (inject_Z (2 ^ 52 - 1) < inject_Z M)%Q).
    { unfold Z.sub. rewrite inject_Z_plus. change (inject_Z (- (1))) with (-1)%Q. lra. }
    rewrite <- Zlt_Qlt in HMgt. lia. }
  exists M, d. fold e.
  split; [exact HM |]. split; [exact HMup |]. split; [exact HMlow |].
  split; [apply (located_nonneg _ _ _ _ Hloc) |]. split; [exact Hup |].
  split; [intros Hnorm; apply (located_lower _ _ _ _ Hloc (Hpos Hnorm)) |].
  apply finish_packs; [apply (rounded_at_nonneg _ _ _ HM) | exact HMup | exact HMlow].
Qed.

(** *** The order of binary64 numbers and the order of their values *)

Lemma canonical_digits (m : positive) (e : Z) :
  canonical_mantissa prec emax m e = true ->
  Z.pos (digits2_pos m) <= 53 /\ -1074 <= e /\
  (-1074 < e -> Z.pos (digits2_pos m) = 53).
Proof. rewrite canonical_iff, fexp_eq. lia. Qed.

Lemma canonical_below (m : positive) (e : Z) :
  canonical_mantissa prec emax m e = true -> (F2Q (Z.pos m) e < pow2 (53 + e))%Q.
Proof.
  intros Hc. destruct (canonical_digits _ _ Hc) as [Hd _].
  pose proof (digits2_pos_bounds m) as [_ Hhi].
  assert (Hm : Z.pos m < 2 ^ 53).
  { eapply Z.lt_le_trans; [exact Hhi |]. apply Z.pow_le_mono_r; lia. }
  unfold F2Q. rewrite pow2_add. apply Qmult_lt_compat_r; [apply pow2_pos |].
  rewrite (pow2_Z 53) by lia. now rewrite <- Zlt_Qlt.
Qed.

Lemma canonical_above (m : positive) (e : Z) :
  canonical_mantissa prec emax m e = true -> -1074 < e ->
  (pow2 (52 + e) <= F2Q (Z.pos m) e)%Q.
Proof.
  intros Hc Hn. destruct (canonical_digits _ _ Hc) as [_ [_ Hd]]. specialize (Hd Hn).
  pose proof (digits2_pos_bounds m) as [Hlo _]. rewrite Hd in Hlo.
  unfold F2Q. rewrite pow2_add. apply Qmult_le_compat_r; [| apply Qlt_le_weak, pow2_pos].
  rewrite (pow2_Z 52) by lia. now rewrite <- Zle_Qle.
Qed.

Lemma canonical_lt (m1 m2 : positive) (e1 e2 : Z) :
  canonical_mantissa prec emax m1 e1 = true ->
  canonical_mantissa prec emax m2 e2 = true ->
  e1 < e2 -> (F2Q (Z.pos m1) e1 < F2Q (Z.pos m2) e2)%Q.
Proof.
  intros H1 H2 He. destruct (canonical_digits _ _ H1) as [_ [Hmin _]].
  eapply Qlt_le_trans; [apply (canonical_below _ _ H1) |].
  eapply Qle_trans; [| apply (canonical_above _ _ H2); lia].
  apply pow2_le. lia.
Qed.

Lemma canonical_compare (m1 m2 : positive) (e1 e2 : Z) :
  canonical_mantissa prec emax m1 e1 = true ->
  canonical_mantissa prec emax m2 e2 = true ->
  SFcompare (S754_finite false m1 e1) (S754_finite false m2 e2)
  = Some (F2Q (Z.pos m1) e1 ?= F2Q (Z.pos m2) e2)%Q.
Proof.
  intros H1 H2. cbn [SFcompare]. f_equal. symmetry.
  destruct (Z.compare_spec e1 e2) as [-> | Hlt | Hgt].
  - change (Pos.compare_cont Eq m1 m2) with (Pos.compare m1 m2).
    destruct (Pos.compare_spec m1 m2) as [-> | Hm | Hm].
    + apply Qeq_alt'. reflexivity.
    + apply Qlt_alt', F2Q_lt. lia.
    + apply Qgt_alt', F2Q_lt. lia.
  - apply Qlt_alt', canonical_lt; assumption.
  - apply Qgt_alt', canonical_lt; assumption || lia.
Qed.

(** The value of a finite binary64 number; 0 for the others. *)
Definition SF2Q (x : spec_float) : Q :=
  match x with
  | S754_finite s m e => F2Q (cond_Zopp s (Z.pos m)) e
  | _ => 0%Q
  end.

Definition SFfinite (x : spec_float) : bool :=
  match x with
  | S754_zero _ | S754_finite _ _ _ => true
  | _ => false
  end.

Lemma F2Q_pos (m : positive) (e : Z) : (0 < F2Q (Z.pos m) e)%Q.
Proof.
  unfold F2Q. apply Qmult_lt_0_compat; [| apply pow2_pos].
  change 0%Q with (inject_Z 0). now rewrite <- Zlt_Qlt.
Qed.

Lemma F2Q_neg (m : positive) (e : Z) : (F2Q (Z.neg m) e == - F2Q (Z.pos m) e)%Q.
Proof.
  unfold F2Q. change (Z.neg m) with (- Z.pos m). rewrite inject_Z_opp. ring.
Qed.

Lemma F2Q_0 (e : Z) : (F2Q 0 e == 0)%Q.
Proof. unfold F2Q. change (inject_Z 0) with 0%Q. ring. Qed.

Lemma Qcompare_opp (a b : Q) : (- a ?= - b)%Q = (b ?= a)%Q.
Proof.
  unfold Qcompare. cbn [Qnum Qden Qopp]. rewrite !Z.mul_opp_l. apply Z.compare_opp.
Qed.

Lemma SFcompare_neg (m1 m2 : positive) (e1 e2 : Z) :
  SFcompare (S754_finite true m1 e1) (S754_finite true m2 e2)
  = SFcompare (S754_finite false m2 e2) (S754_finite false m1 e1).
Proof.
  cbn [SFcompare]. f_equal. rewrite (Z.compare_antisym e1 e2).
  change (Pos.compare_cont Eq m1 m2) with (Pos.compare m1 m2).
  change (Pos.compare_cont Eq m2 m1) with (Pos.compare m2 m1).
  rewrite (Pos.compare_antisym m1 m2).
  destruct (e1 ?= e2); reflexivity.
Qed.

(** On finite numbers the comparison of the format is the comparison of
    the values. *)
Lemma SFcompare_value (x y : spec_float) :
  valid_binary x = true -> valid_binary y = true ->
  SFfinite x = true -> SFfinite y = true ->
  SFcompare x y = Some (SF2Q x ?= SF2Q y)%Q.
Proof.
  destruct x as [sx | sx | | sx mx ex], y as [sy | sy | | sy my ey];
    try discriminate; intros Hx Hy _ _; unfold valid_binary, bounded in Hx, Hy;
    try (apply andb_prop in Hx; destruct Hx as [Hx _]);
    try (apply andb_prop in Hy; destruct Hy as [Hy _]).
  - reflexivity.
  - cbn [SFcompare SF2Q]. f_equal. symmetry. destruct sy; cbn [cond_Zopp Z.opp].
    + apply Qgt_alt'. rewrite F2Q_neg. pose proof (F2Q_pos my ey). lra.
    + apply Qlt_alt', F2Q_pos.
  - cbn [SFcompare SF2Q]. f_equal. symmetry. destruct sx; cbn [cond_Zopp Z.opp].
    + apply Qlt_alt'. rewrite F2Q_neg. pose proof (F2Q_pos mx ex). lra.
    + apply Qgt_alt', F2Q_pos.
  - destruct sx, sy; cbn [SF2Q cond_Zopp Z.opp].
    + rewrite SFcompare_neg, (canonical_compare _ _ _ _ Hy Hx). f_equal.
      change (Z.neg mx) with (- Z.pos mx). change (Z.neg my) with (- Z.pos my).
      rewrite <- Qcompare_opp. apply Qcompare_comp; symmetry; apply F2Q_neg.
    + cbn [SFcompare]. f_equal. symmetry. apply Qlt_alt'. rewrite F2Q_neg.
      pose proof (F2Q_pos mx ex). pose proof (F2Q_pos my ey). lra.
    + cbn [SFcompare]. f_equal. symmetry. apply Qgt_alt'. rewrite F2Q_neg.
      pose proof (F2Q_pos mx ex). pose proof (F2Q_pos my ey). lra.
    + now apply canonical_compare.
Qed.

Lemma SFleb_value (x y : spec_float) :
  valid_binary x = true -> valid_binary y = true ->
  SFfinite x = true -> SFfinite y = true ->
  (SFleb x y = true <-> (SF2Q x <= SF2Q y)%Q).
Proof.
  intros Hx Hy Fx Fy. unfold SFleb. rewrite (SFcompare_value x y Hx Hy Fx Fy).
  rewrite Qle_alt. destruct (SF2Q x ?= SF2Q y)%Q; split; congruence.
Qed.

Lemma SFltb_value (x y : spec_float) :
  valid_binary x = true -> valid_binary y = true ->
  SFfinite x = true -> SFfinite y = true ->
  (SFltb x y = true <-> (SF2Q x < SF2Q y)%Q).
Proof.
  intros Hx Hy Fx Fy. unfold SFltb. rewrite (SFcompare_value x y Hx Hy Fx Fy).
  rewrite Qlt_alt. destruct (SF2Q x ?= SF2Q y)%Q; split; congruence.
Qed.

Lemma SFeqb_value (x y : spec_float) :
  valid_binary x = true -> valid_binary y = true ->
  SFfinite x = true -> SFfinite y = true ->
  (SFeqb x y = true <-> (SF2Q x == SF2Q y)%Q).
Proof.
  intros Hx Hy Fx Fy. unfold SFeqb. rewrite (SFcompare_value x y Hx Hy Fx Fy).
  rewrite Qeq_alt. destruct (SF2Q x ?= SF2Q y)%Q; split; congruence.
Qed.

(** *** Rounding is monotone *)

Lemma SFcompare_opp (a b : spec_float) :
  SFcompare (SFopp a) (SFopp b) = SFcompare b a.
Proof.
  destruct a as [sa | sa | | sa ma ea], b as [sb | sb | | sb mb eb];
    try reflexivity; cbn [SFopp]; try (destruct sa, sb; reflexivity);
    try (destruct sa; reflexivity); try (destruct sb; reflexivity).
  destruct sa, sb; try reflexivity.
  - symmetry. apply SFcompare_neg.
  - apply SFcompare_neg.
Qed.

Lemma SFleb_opp (a b : spec_float) : SFleb (SFopp a) (SFopp b) = SFleb b a.
Proof. unfold SFleb. now rewrite SFcompare_opp. Qed.

Lemma packs_opp (s : bool) (M e : Z) (f : spec_float) :
  packs s M e f -> packs (negb s) M e (SFopp f).
Proof.
  intros [[HM ->] | [HM [m' [e' [Hc [Hv ->]]]]]].
  - left. split; [exact HM | reflexivity].
  - right. split; [exact HM |]. exists m', e'. split; [exact Hc |]. split; [exact Hv |].
    destruct (e' <=? emax - prec); reflexivity.
Qed.

Lemma packs_le (M1 e1 M2 e2 : Z) (f1 f2 : spec_float) :
  packs false M1 e1 f1 -> packs false M2 e2 f2 ->
  (F2Q M1 e1 <= F2Q M2 e2)%Q -> SFleb f1 f2 = true.
Proof.
  intros [[HM1 ->] | [HM1 [m1 [x1 [Hc1 [Hv1 ->]]]]]]
         [[HM2 ->] | [HM2 [m2 [x2 [Hc2 [Hv2 ->]]]]]] Hle.
  - reflexivity.
  - destruct (x2 <=? emax - prec); reflexivity.
  - exfalso. subst M2. rewrite F2Q_0 in Hle.
    assert ((0 < F2Q M1 e1)%Q); [| lra].
    rewrite <- Hv1. apply F2Q_pos.
  - rewrite <- Hv1, <- Hv2 in Hle.
    destruct (x1 <=? emax - prec) eqn:Hb1, (x2 <=? emax - prec) eqn:Hb2.
    + unfold SFleb. rewrite (canonical_compare _ _ _ _ Hc1 Hc2).
      pose proof (proj1 (Qle_alt _ _) Hle) as Hc.
      destruct (F2Q (Z.pos m1) x1 ?= F2Q (Z.pos m2) x2)%Q;
        [reflexivity | reflexivity | exfalso; apply Hc; reflexivity].
    + reflexivity.
    + exfalso. apply Z.leb_le in Hb2. apply Z.leb_gt in Hb1.
      assert (Hlt : (F2Q (Z.pos m2) x2 < F2Q (Z.pos m1) x1)%Q)
        by (apply canonical_lt; [assumption | assumption | lia]).
      lra.
    + reflexivity.
Qed.

Lemma packs_sign (s : bool) (M e : Z) (f : spec_float) :
  packs s M e f ->
  f = S754_zero s \/ f = S754_infinity s \/ exists m x, f = S754_finite s m x.
Proof.
  intros [[_ ->] | [_ [m' [e' [_ [_ ->]]]]]]; [now left |].
  destruct (e' <=? emax - prec); [right; right; eauto | right; left; reflexivity].
Qed.

Lemma rounded_at_zero (e : Z) (r : Q) (M : Z) :
  rounded_at e r M -> (r == 0)%Q -> M = 0.
Proof.
  intros HM Hr. pose proof (rounded_at_nonneg _ _ _ HM) as Hnn.
  pose proof (rounded_at_near _ _ _ HM) as [_ Hhi].
  assert (Hx : (r / pow2 e == 0)%Q) by (rewrite Hr; unfold Qdiv; ring).
  assert (HM1 : (inject_Z M < inject_Z 1)%Q) by (change (inject_Z 1) with 1%Q; lra).
  rewrite <- Zlt_Qlt in HM1. lia.
Qed.

Lemma Rounded_mag_le (a1 a2 : Q) (f1 f2 : spec_float) :
  Rounded_mag false a1 f1 -> Rounded_mag false a2 f2 -> (a1 <= a2)%Q ->
  SFleb f1 f2 = true.
Proof.
  intros [M1 [d1 [HM1 [Hup1 [Hlow1 [Ha1 [Hd1 [Hn1 Hp1]]]]]]]]
         [M2 [d2 [HM2 [Hup2 [Hlow2 [Ha2 [Hd2 [Hn2 Hp2]]]]]]]] Hle.
  apply (packs_le _ _ _ _ _ _ Hp1 Hp2).
  set (e1 := fexp prec emax d1) in *. set (e2 := fexp prec emax d2) in *.
  assert (He1 : e1 = Z.max (d1 - 53) (-1074)) by apply fexp_eq.
  assert (He2 : e2 = Z.max (d2 - 53) (-1074)) by apply fexp_eq.
  assert (He : e1 <= e2).
  { destruct (Z_lt_ge_dec (-1074) e1) as [Hnorm | Hsub]; [| lia].
    specialize (Hn1 Hnorm).
    assert (Hlt : (pow2 (d1 - 1) < pow2 d2)%Q) by lra.
    apply pow2_lt_inv in Hlt. lia. }
  destruct (Z.eq_dec e1 e2) as [Heq | Hne].
  - rewrite <- Heq in *. apply F2Q_le. apply (rounded_at_mono _ _ _ _ _ HM1 HM2 Hle).
  - assert (Hnorm2 : -1074 < e2) by lia.
    specialize (Hlow2 Hnorm2).
    assert (Hd12 : d1 + 1 <= d2) by lia.
    apply Qle_trans with (pow2 d1).
    + unfold F2Q. rewrite (pow2_split d1 e1).
      apply Qmult_le_compat_r; [exact Hup1 | apply Qlt_le_weak, pow2_pos].
    + apply Qle_trans with (pow2 (52 + e2)); [apply pow2_le; lia |].
      unfold F2Q. rewrite pow2_add. apply Qmult_le_compat_r;
        [| apply Qlt_le_weak, pow2_pos].
      rewrite (pow2_Z 52) by lia. now rewrite <- Zle_Qle.
Qed.

Lemma Rounded_mag_opp (s : bool) (a : Q) (f : spec_float) :
  Rounded_mag s a f -> Rounded_mag (negb s) a (SFopp f).
Proof.
  intros [M [d [HM [Hup [Hlow [Ha [Hd [Hn Hp]]]]]]]].
  exists M, d. repeat (split; [assumption |]). now apply packs_opp.
Qed.

Lemma SFopp_involutive (f : spec_float) : SFopp (SFopp f) = f.
Proof. destruct f as [s | s | | s m e]; cbn; now rewrite ?negb_involutive. Qed.

Lemma Rounded_mag_zero (s : bool) (a : Q) (f : spec_float) :
  Rounded_mag s a f -> (a == 0)%Q -> f = S754_zero s.
Proof.
  intros [M [d [HM [_ [_ [_ [_ [_ Hp]]]]]]]] Ha.
  pose proof (rounded_at_zero _ _ _ HM Ha) as HM0.
  destruct Hp as [[_ ->] | [Hpos _]]; [reflexivity | lia].
Qed.

(** Rounding is monotone: the order of two real numbers is the order of
    the binary64 numbers they round to. *)
Theorem Rounded_le (r1 r2 : Q) (f1 f2 : spec_float) :
  Rounded r1 f1 -> Rounded r2 f2 -> (r1 <= r2)%Q -> SFleb f1 f2 = true.
Proof.
  intros [[H1 R1] | [H1 R1]] [[H2 R2] | [H2 R2]] Hle.
  - apply (Rounded_mag_le _ _ _ _ R1 R2 Hle).
  - assert (Hz1 : (r1 == 0)%Q) by lra. assert (Hz2 : (- r2 == 0)%Q) by lra.
    rewrite (Rounded_mag_zero _ _ _ R1 Hz1), (Rounded_mag_zero _ _ _ R2 Hz2). reflexivity.
  - destruct R1 as [M1 [d1 [_ [_ [_ [_ [_ [_ Hp1]]]]]]]].
    destruct R2 as [M2 [d2 [_ [_ [_ [_ [_ [_ Hp2]]]]]]]].
    destruct (packs_sign _ _ _ _ Hp1) as [-> | [-> | [m1 [x1 ->]]]];
      destruct (packs_sign _ _ _ _ Hp2) as [-> | [-> | [m2 [x2 ->]]]]; reflexivity.
  - rewrite <- (SFopp_involutive f1), <- (SFopp_involutive f2), SFleb_opp.
    apply (Rounded_mag_le (- r2) (- r1)).
    + apply (Rounded_mag_opp true), R2.
    + apply (Rounded_mag_opp true), R1.
    + lra.
Qed.

(** *** What the operations round *)

Lemma rounded_at_compat (e : Z) (a b : Q) (M : Z) :
  (a == b)%Q -> rounded_at e a M -> rounded_at e b M.
Proof.
  intros Hab [m [l [Hm [Hloc HM]]]]. exists m, l. split; [exact Hm |].
  split; [| exact HM]. apply (loc_at_compat _ _ _ _ (Qdiv_comp _ _ Hab _ _ (Qeq_refl _))).
  exact Hloc.
Qed.

Lemma Rounded_mag_compat (s : bool) (a b : Q) (f : spec_float) :
  (a == b)%Q -> Rounded_mag s a f -> Rounded_mag s b f.
Proof.
  intros Hab [M [d [HM [Hup [Hlow [Ha [Hd [Hn Hp]]]]]]]].
  exists M, d. split; [apply (rounded_at_compat _ _ _ _ Hab HM) |].
  split; [exact Hup |]. split; [exact Hlow |].
  split; [now rewrite <- Hab |]. split; [now rewrite <- Hab |].
  split; [| exact Hp]. intros Hnorm. rewrite <- Hab. now apply Hn.
Qed.

Lemma Rounded_compat (r r' : Q) (f : spec_float) :
  (r == r')%Q -> Rounded r f -> Rounded r' f.
Proof.
  intros Heq [[H R] | [H R]].
  - left. split; [now rewrite <- Heq |]. apply (Rounded_mag_compat _ _ _ _ Heq R).
  - right. split; [now rewrite <- Heq |].
    apply (Rounded_mag_compat _ (- r)); [now rewrite Heq | exact R].
Qed.

Lemma Rounded_mag_0 (s : bool) : Rounded_mag s 0 (S754_zero s).
Proof.
  exists 0, (-1074). change (fexp prec emax (-1074)) with (-1074).
  split; [| split; [| split; [| split; [| split; [| split]]]]].
  - exists 0, loc_Exact. split; [lia |]. split; [| reflexivity].
    cbn [loc_at]. unfold Qdiv. rewrite Qmult_0_l. reflexivity.
  - apply Qlt_le_weak, pow2_pos.
  - lia.
  - lra.
  - apply pow2_pos.
  - lia.
  - left. split; reflexivity.
Qed.

Lemma Rounded_0 (s : bool) : Rounded 0 (S754_zero s).
Proof.
  destruct s.
  - right. split; [lra |]. apply (Rounded_mag_compat _ 0); [ring | apply Rounded_mag_0].
  - left. split; [lra | apply Rounded_mag_0].
Qed.

Lemma Rounded_mag_signed (s : bool) (a : Q) (f : spec_float) :
  Rounded_mag s a f -> Rounded (if s then - a else a)%Q f.
Proof.
  intros R. pose proof R as [M [d [_ [_ [_ [Ha _]]]]]]. destruct s.
  - right. split; [lra |]. apply (Rounded_mag_compat _ a); [ring | exact R].
  - left. split; [exact Ha | exact R].
Qed.

(** A finite binary64 number is what its own value rounds to. *)
Lemma Rounded_mag_finite (s : bool) (m : positive) (e : Z) :
  bounded prec emax m e = true ->
  Rounded_mag s (F2Q (Z.pos m) e) (S754_finite s m e).
Proof.
  unfold bounded. intros Hb. apply andb_prop in Hb. destruct Hb as [Hc Hmax].
  pose proof Hc as Hfix. apply canonical_iff in Hfix.
  destruct (canonical_digits _ _ Hc) as [Hd53 [Hmin Hnormd]].
  pose proof (digits2_pos_bounds m) as [Hlo Hhi].
  assert (Hdig : 0 <= Z.pos (digits2_pos m) - 1) by lia.
  exists (Z.pos m), (Z.pos (digits2_pos m) + e). rewrite Hfix.
  split; [| split; [| split; [| split; [| split; [| split]]]]].
  - exists (Z.pos m), loc_Exact. split; [lia |]. split; [| reflexivity].
    cbn [loc_at]. unfold F2Q. field. pose proof (pow2_pos e). lra.
  - replace (Z.pos (digits2_pos m) + e - e) with (Z.pos (digits2_pos m)) by lia.
    rewrite pow2_Z by lia. rewrite <- Zle_Qle. lia.
  - intros Hn. rewrite (Hnormd Hn) in Hlo. exact Hlo.
  - apply Qlt_le_weak, F2Q_pos.
  - unfold F2Q. rewrite pow2_add. apply Qmult_lt_compat_r; [apply pow2_pos |].
    rewrite pow2_Z by lia. now rewrite <- Zlt_Qlt.
  - intros _. unfold F2Q.
    replace (Z.pos (digits2_pos m) + e - 1) with ((Z.pos (digits2_pos m) - 1) + e) by lia.
    rewrite pow2_add. apply Qmult_le_compat_r; [| apply Qlt_le_weak, pow2_pos].
    rewrite pow2_Z by lia. now rewrite <- Zle_Qle.
  - right. split; [lia |]. exists m, e. split; [exact Hc |]. split; [reflexivity |].
    now rewrite Hmax.
Qed.

Theorem Rounded_value (x : spec_float) :
  valid_binary x = true -> SFfinite x = true -> Rounded (SF2Q x) x.
Proof.
  destruct x as [s | s | | s m e]; try discriminate; intros Hv _.
  - apply Rounded_0.
  - cbn [SF2Q]. pose proof (Rounded_mag_signed s _ _ (Rounded_mag_finite s m e Hv)) as R.
    destruct s; cbn [cond_Zopp Z.opp]; [| exact R].
    apply (Rounded_compat _ _ _ (Qeq_sym _ _ (F2Q_neg m e)) R).
Qed.

(** Rounding a magnitude given by a mantissa, an exponent and a location. *)
Lemma binary_round_aux_Rounded (s : bool) (mx ex : Z) (lx : location) (a : Q) :
  located mx ex lx a ->
  Rounded (if s then - a else a)%Q (binary_round_aux prec emax s mx ex lx).
Proof. intros H. apply Rounded_mag_signed, binary_round_aux_rounded, H. Qed.

Lemma iter_xO (d : positive) (m : positive) :
  Z.pos (Pos.iter xO m d) = Z.pos m * 2 ^ Z.pos d.
Proof.
  induction d as [| d IH] using Pos.peano_ind.
  - cbn. lia.
  - rewrite Pos.iter_succ, Pos2Z.inj_xO, IH, Pos2Z.inj_succ, Z.pow_succ_r by lia. ring.
Qed.

Lemma Zdigits2_shift (m k : Z) : 0 < m -> 0 <= k -> Zdigits2 (m * 2 ^ k) = Zdigits2 m + k.
Proof.
  intros Hm Hk. pose proof (Zdigits2_bounds m Hm) as [Hlo Hhi].
  assert (Hd : 0 <= Zdigits2 m - 1) by (destruct m; cbn [Zdigits2] in *; lia).
  assert (Hp : 0 < 2 ^ k) by (apply Z.pow_pos_nonneg; lia).
  apply Zdigits2_unique; [| nia].
  replace (Zdigits2 m + k - 1) with ((Zdigits2 m - 1) + k) by lia.
  rewrite !Z.pow_add_r by lia. nia.
Qed.

Lemma shl_align_spec (mx : positive) (ex ex' : Z) :
  let (m', e') := shl_align mx ex ex' in
  Z.pos m' = Z.pos mx * 2 ^ (ex - e') /\ e' = Z.min ex ex'.
Proof.
  unfold shl_align. destruct (ex' - ex) as [| d | d] eqn:Hd.
  - replace (ex - ex) with 0 by lia. split; lia.
  - replace (ex - ex) with 0 by lia. split; lia.
  - rewrite iter_xO. replace (ex - ex') with (Z.pos d) by lia. split; lia.
Qed.

Lemma binary_round_Rounded (s : bool) (m : positive) (e : Z) :
  Rounded (F2Q (cond_Zopp s (Z.pos m)) e) (binary_round prec emax s m e).
Proof.
  unfold binary_round.
  pose proof (shl_align_spec m e (fexp prec emax (Z.pos (digits2_pos m) + e))) as Hal.
  destruct (shl_align m e (fexp prec emax (Z.pos (digits2_pos m) + e))) as [mz ez].
  destruct Hal as [Hmz Hez].
  assert (Hk : 0 <= e - ez) by lia.
  assert (Hval : (F2Q (Z.pos mz) ez == F2Q (Z.pos m) e)%Q).
  { rewrite Hmz, (F2Q_shift _ _ _ Hk). now replace (ez + (e - ez)) with e by lia. }
  assert (Hloc : located (Z.pos mz) ez loc_Exact (F2Q (Z.pos m) e)).
  { split; [lia |]. split.
    - cbn [loc_at]. rewrite <- Hval. unfold F2Q. field. pose proof (pow2_pos ez). lra.
    - rewrite Hmz, Zdigits2_shift by lia. cbn [Zdigits2].
      replace (Z.pos (digits2_pos m) + (e - ez) + ez) with (Z.pos (digits2_pos m) + e) by lia.
      lia. }
  pose proof (binary_round_aux_Rounded s _ _ _ _ Hloc) as R.
  destruct s; cbn [cond_Zopp Z.opp]; [| exact R].
  apply (Rounded_compat _ _ _ (Qeq_sym _ _ (F2Q_neg m e)) R).
Qed.

Lemma binary_normalize_Rounded (M e : Z) (szero : bool) :
  Rounded (F2Q M e) (binary_normalize prec emax M e szero).
Proof.
  destruct M as [| p | p]; cbn [binary_normalize].
  - apply (Rounded_compat 0); [symmetry; apply F2Q_0 | apply Rounded_0].
  - apply (binary_round_Rounded false).
  - apply (binary_round_Rounded true).
Qed.

Lemma F2Q_plus (m n e : Z) : (F2Q (m + n) e == F2Q m e + F2Q n e)%Q.
Proof. unfold F2Q. rewrite inject_Z_plus. ring. Qed.

Lemma F2Q_minus (m n e : Z) : (F2Q (m - n) e == F2Q m e - F2Q n e)%Q.
Proof. unfold F2Q, Z.sub. rewrite inject_Z_plus, inject_Z_opp. ring. Qed.

Lemma F2Q_cond_Zopp (s : bool) (m e : Z) :
  (F2Q (cond_Zopp s m) e == if s then - F2Q m e else F2Q m e)%Q.
Proof.
  destruct s; cbn [cond_Zopp]; [| reflexivity].
  unfold F2Q. rewrite inject_Z_opp. ring.
Qed.

Lemma F2Q_align (s : bool) (mx : positive) (ex ez : Z) :
  ez <= ex ->
  (F2Q (cond_Zopp s (Z.pos (fst (shl_align mx ex ez)))) ez
   == F2Q (cond_Zopp s (Z.pos mx)) ex)%Q.
Proof.
  intros Hle. pose proof (shl_align_spec mx ex ez) as Hal.
  destruct (shl_align mx ex ez) as [m' e']. cbn [fst]. destruct Hal as [Hm He].
  assert (He' : e' = ez) by lia. clear He. subst e'.
  rewrite !F2Q_cond_Zopp.
  assert (Hv : (F2Q (Z.pos m') ez == F2Q (Z.pos mx) ex)%Q).
  { rewrite Hm. rewrite F2Q_shift by lia. now replace (ez + (ex - ez)) with ex by lia. }
  destruct s; now rewrite Hv.
Qed.

Theorem SFsub_Rounded (x y : spec_float) :
  valid_binary x = true -> valid_binary y = true ->
  SFfinite x = true -> SFfinite y = true ->
  Rounded (SF2Q x - SF2Q y) (SFsub prec emax x y).
Proof.
  destruct x as [sx | sx | | sx mx ex], y as [sy | sy | | sy my ey];
    try discriminate; intros Hx Hy _ _.
  - cbn [SF2Q]. apply (Rounded_compat 0); [ring |].
    destruct sx, sy; apply Rounded_0.
  - cbn [SFsub]. apply (Rounded_compat (SF2Q (S754_finite (negb sy) my ey))).
    + cbn [SF2Q]. rewrite !F2Q_cond_Zopp. destruct sy; cbn [negb]; ring.
    + apply Rounded_value; [exact Hy | reflexivity].
  - cbn [SFsub]. apply (Rounded_compat (SF2Q (S754_finite sx mx ex))).
    + cbn [SF2Q]. ring.
    + apply Rounded_value; [exact Hx | reflexivity].
  - cbn [SFsub SF2Q].
    eapply Rounded_compat; [| apply binary_normalize_Rounded].
    rewrite F2Q_minus, !F2Q_align by lia. reflexivity.
Qed.

Theorem SFadd_Rounded (x y : spec_float) :
  valid_binary x = true -> valid_binary y = true ->
  SFfinite x = true -> SFfinite y = true ->
  Rounded (SF2Q x + SF2Q y) (SFadd prec emax x y).
Proof.
  destruct x as [sx | sx | | sx mx ex], y as [sy | sy | | sy my ey];
    try discriminate; intros Hx Hy _ _.
  - cbn [SF2Q]. apply (Rounded_compat 0); [ring |].
    destruct sx, sy; apply Rounded_0.
  - cbn [SFadd]. apply (Rounded_compat (SF2Q (S754_finite sy my ey))).
    + cbn [SF2Q]. ring.
    + apply Rounded_value; [exact Hy | reflexivity].
  - cbn [SFadd]. apply (Rounded_compat (SF2Q (S754_finite sx mx ex))).
    + cbn [SF2Q]. ring.
    + apply Rounded_value; [exact Hx | reflexivity].
  - cbn [SFadd SF2Q].
    eapply Rounded_compat; [| apply binary_normalize_Rounded].
    rewrite F2Q_plus, !F2Q_align by lia. reflexivity.
Qed.

Lemma Zdigits2_mul (a b : Z) :
  0 < a -> 0 < b -> Zdigits2 a + Zdigits2 b - 1 <= Zdigits2 (a * b).
Proof.
  intros Ha Hb.
  pose proof (Zdigits2_bounds a Ha) as [Hal _].
  pose proof (Zdigits2_bounds b Hb) as [Hbl _].
  pose proof (Zdigits2_bounds (a * b) ltac:(nia)) as [_ Hh].
  assert (Hda : 0 <= Zdigits2 a - 1) by (destruct a; cbn [Zdigits2] in *; lia).
  assert (Hdb : 0 <= Zdigits2 b - 1) by (destruct b; cbn [Zdigits2] in *; lia).
  assert (Hprod : 2 ^ ((Zdigits2 a - 1) + (Zdigits2 b - 1)) <= a * b).
  { rewrite Z.pow_add_r by lia.
    assert (0 < 2 ^ (Zdigits2 a - 1)) by (apply Z.pow_pos_nonneg; lia).
    assert (0 < 2 ^ (Zdigits2 b - 1)) by (apply Z.pow_pos_nonneg; lia). nia. }
  assert (Hlt : (Zdigits2 a - 1) + (Zdigits2 b - 1) < Zdigits2 (a * b)).
  { apply (Z.pow_lt_mono_r_iff 2); [lia | apply Zdigits2_nonneg | lia]. }
  lia.
Qed.

Theorem SFmul_Rounded (x y : spec_float) :
  valid_binary x = true -> valid_binary y = true ->
  SFfinite x = true -> SFfinite y = true ->
  Rounded (SF2Q x * SF2Q y) (SFmul prec emax x y).
Proof.
  destruct x as [sx | sx | | sx mx ex], y as [sy | sy | | sy my ey];
    try discriminate; intros Hx Hy _ _;
    try (cbn [SF2Q SFmul]; apply (Rounded_compat 0); [ring | apply Rounded_0]).
  cbn [SFmul SF2Q]. unfold valid_binary, bounded in Hx, Hy.
  apply andb_prop in Hx. destruct Hx as [Hx _].
  apply andb_prop in Hy. destruct Hy as [Hy _].
  destruct (canonical_digits _ _ Hx) as [Hdx [Hminx Hnx]].
  destruct (canonical_digits _ _ Hy) as [Hdy [Hminy Hny]].
  assert (Hloc : located (Z.pos (mx * my)) (ex + ey) loc_Exact
                   (F2Q (Z.pos mx) ex * F2Q (Z.pos my) ey)%Q).
  { split; [lia |]. split.
    - cbn [loc_at]. unfold F2Q. rewrite Pos2Z.inj_mul, inject_Z_mult, pow2_add.
      field. pose proof (pow2_pos ex). pose proof (pow2_pos ey). split; lra.
    - rewrite Pos2Z.inj_mul.
      pose proof (Zdigits2_mul (Z.pos mx) (Z.pos my) ltac:(lia) ltac:(lia)) as Hd.
      cbn [Zdigits2] in Hd |- *. rewrite <- Pos2Z.inj_mul in *.
      rewrite fexp_eq.
      assert (1 <= Z.pos (digits2_pos mx)) by lia.
      assert (1 <= Z.pos (digits2_pos my)) by lia.
      destruct (Z_lt_ge_dec (-1074) ex) as [Ha | Ha];
        destruct (Z_lt_ge_dec (-1074) ey) as [Hb | Hb];
        try specialize (Hnx Ha); try specialize (Hny Hb); lia. }
  eapply Rounded_compat; [| apply (binary_round_aux_Rounded (xorb sx sy) _ _ _ _ Hloc)].
  rewrite !F2Q_cond_Zopp. destruct sx, sy; cbn [xorb]; ring.
Qed.

Lemma new_location_loc (my r q : Z) :
  0 < my -> 0 <= r < my ->
  loc_at q (new_location my r) (inject_Z q + inject_Z r / inject_Z my)%Q.
Proof.
  intros Hmy [Hr0 Hr1].
  assert (Hy : (0 < inject_Z my)%Q) by (change 0%Q with (inject_Z 0); now rewrite <- Zlt_Qlt).
  assert (Hr : (0 <= inject_Z r)%Q) by (change 0%Q with (inject_Z 0); now rewrite <- Zle_Qle).
  assert (Hlt1 : (inject_Z r / inject_Z my < 1)%Q).
  { apply Qlt_shift_div_r; [exact Hy |]. rewrite Qmult_1_l. now rewrite <- Zlt_Qlt. }
  assert (Hhalf : forall c : comparison,
             (2 * r ?= my) = c -> r <> 0 ->
             loc_at q (loc_Inexact c) (inject_Z q + inject_Z r / inject_Z my)%Q).
  { intros c Hc Hnz.
    assert (Hrpos : (0 < inject_Z r)%Q).
    { change 0%Q with (inject_Z 0). rewrite <- Zlt_Qlt. lia. }
    assert (Hpos : (0 < inject_Z r / inject_Z my)%Q).
    { apply Qlt_shift_div_l; [exact Hy |]. now rewrite Qmult_0_l. }
    destruct c; cbn [loc_at].
    - apply Z.compare_eq in Hc.
      assert (Heq : (inject_Z r / inject_Z my == 1 # 2)%Q).
      { rewrite <- Hc, inject_Z_mult. change (inject_Z 2) with 2%Q. field. lra. }
      rewrite Heq. reflexivity.
    - rewrite Z.compare_lt_iff in Hc.
      assert (Hl : (inject_Z r / inject_Z my < 1 # 2)%Q).
      { apply Qlt_shift_div_r; [exact Hy |].
        assert (Hq : (inject_Z (2 * r) < inject_Z my)%Q) by now rewrite <- Zlt_Qlt.
        rewrite inject_Z_mult in Hq. change (inject_Z 2) with 2%Q in Hq. lra. }
      lra.
    - rewrite Z.compare_gt_iff in Hc.
      assert (Hl : ((1 # 2) < inject_Z r / inject_Z my)%Q).
      { apply Qlt_shift_div_l; [exact Hy |].
        assert (Hq : (inject_Z my < inject_Z (2 * r))%Q) by now rewrite <- Zlt_Qlt.
        rewrite inject_Z_mult in Hq. change (inject_Z 2) with 2%Q in Hq. lra. }
      lra. }
  unfold new_location, new_location_even, new_location_odd.
  destruct (Z.eq_dec r 0) as [-> | Hnz].
  - destruct (Z.even my); cbn [loc_at Z.eqb]; change (inject_Z 0) with 0%Q; field; lra.
  - destruct (Z.even my) eqn:Hev; cbv beta; rewrite (proj2 (Z.eqb_neq r 0) Hnz).
    + now apply Hhalf.
    + destruct (Z.compare_spec (2 * r + 1) my) as [Heq | Hlt | Hgt].
      * apply Hhalf; [apply Z.compare_lt_iff; lia | exact Hnz].
      * apply Hhalf; [apply Z.compare_lt_iff; lia | exact Hnz].
      * apply Hhalf; [| exact Hnz]. apply Z.compare_gt_iff.
        assert (Hne : 2 * r <> my).
        { intros Hx. rewrite <- Hx, Z.even_mul in Hev. discriminate. }
        lia.
Qed.

Lemma Zdigits2_div (a b : Z) :
  0 < a -> 0 < b -> Zdigits2 a - Zdigits2 b <= Zdigits2 (a / b).
Proof.
  intros Ha Hb.
  pose proof (Zdigits2_bounds a Ha) as [Hal _].
  pose proof (Zdigits2_bounds b Hb) as [_ Hbh].
  pose proof (Zdigits2_nonneg (a / b)) as Hnn.
  destruct (Z_lt_ge_dec (Zdigits2 a - 1 - Zdigits2 b) 0) as [Hneg | Hok]; [lia |].
  assert (Hdb : 0 <= Zdigits2 b) by apply Zdigits2_nonneg.
  set (k := Zdigits2 a - 1 - Zdigits2 b) in *.
  assert (Hk : 2 ^ k <= a / b).
  { apply Z.div_le_lower_bound; [exact Hb |].
    assert (Hsplit : 2 ^ (Zdigits2 a - 1) = 2 ^ Zdigits2 b * 2 ^ k).
    { rewrite <- Z.pow_add_r by lia. f_equal. unfold k. lia. }
    assert (0 < 2 ^ k) by (apply Z.pow_pos_nonneg; lia). nia. }
  assert (Hq : 0 < a / b).
  { assert (0 < 2 ^ k) by (apply Z.pow_pos_nonneg; lia). lia. }
  pose proof (Zdigits2_bounds (a / b) Hq) as [_ Hqh].
  assert (k < Zdigits2 (a / b)); [| unfold k in *; lia].
  apply (Z.pow_lt_mono_r_iff 2); lia.
Qed.

Lemma SFdiv_core_located (mx my : positive) (ex ey : Z) :
  let '(q, e', l) := SFdiv_core_binary prec emax (Z.pos mx) ex (Z.pos my) ey in
  located q e' l (F2Q (Z.pos mx) ex / F2Q (Z.pos my) ey)%Q.
Proof.
  unfold SFdiv_core_binary.
  set (d1 := Zdigits2 (Z.pos mx)). set (d2 := Zdigits2 (Z.pos my)).
  set (e' := Z.min (fexp prec emax (d1 + ex - (d2 + ey))) (ex - ey)).
  set (sh := ex - ey - e').
  assert (Hsh : 0 <= sh) by (unfold sh, e'; lia).
  set (m' := match sh with Z.pos _ => Z.shiftl (Z.pos mx) sh | 0 => Z.pos mx | Z.neg _ => 0 end).
  assert (Hm' : m' = Z.pos mx * 2 ^ sh).
  { unfold m'. clearbody sh. destruct sh as [| p | p]; try lia.
    apply Z.shiftl_mul_pow2. lia. }
  pose proof (Z_div_mod m' (Z.pos my) ltac:(lia)) as Hdm.
  pose proof (Zdigits2_div m' (Z.pos my)) as Hdd.
  unfold Z.div in Hdd.
  destruct (Z.div_eucl m' (Z.pos my)) as [q r]. destruct Hdm as [Hdiv Hrem].
  cbn [fst] in Hdd.
  assert (Hp2 : 0 < 2 ^ sh) by (apply Z.pow_pos_nonneg; lia).
  assert (Hq : 0 <= q) by nia.
  split; [exact Hq |]. split.
  - eapply loc_at_compat; [| apply (new_location_loc (Z.pos my) r q); lia].
    assert (Hy : (0 < inject_Z (Z.pos my))%Q)
      by (change 0%Q with (inject_Z 0); now rewrite <- Zlt_Qlt).
    assert (Hnum : (inject_Z (Z.pos mx) * pow2 sh
                    == inject_Z (Z.pos my) * inject_Z q + inject_Z r)%Q).
    { rewrite (pow2_Z _ Hsh), <- inject_Z_mult, <- Hm', Hdiv, inject_Z_plus, inject_Z_mult.
      reflexivity. }
    unfold F2Q. rewrite (pow2_split ex (ey + e')).
    replace (ex - (ey + e')) with sh by (unfold sh; lia). rewrite (pow2_add ey e').
    pose proof (pow2_pos ey). pose proof (pow2_pos e').
    setoid_replace (inject_Z q + inject_Z r / inject_Z (Z.pos my))%Q
      with ((inject_Z (Z.pos my) * inject_Z q + inject_Z r) / inject_Z (Z.pos my))%Q
      by (field; lra).
    rewrite <- Hnum. field. repeat split; lra.
  - assert (Hdm' : Zdigits2 m' = d1 + sh).
    { rewrite Hm'. apply Zdigits2_shift; lia. }
    specialize (Hdd ltac:(lia) ltac:(lia)). rewrite Hdm' in Hdd. fold d2 in Hdd.
    eapply Z.le_trans; [apply Z.le_min_l |].
    apply fexp_mono. unfold sh in Hdd. lia.
Qed.

Theorem SFdiv_Rounded (x y : spec_float) :
  valid_binary x = true -> valid_binary y = true ->
  SFfinite x = true -> SFfinite y = true -> ~ (SF2Q y == 0)%Q ->
  Rounded (SF2Q x / SF2Q y) (SFdiv prec emax x y).
Proof.
  destruct x as [sx | sx | | sx mx ex], y as [sy | sy | | sy my ey];
    try discriminate; intros Hx Hy _ _ Hnz;
    try (exfalso; apply Hnz; reflexivity).
  - cbn [SF2Q SFdiv]. apply (Rounded_compat 0); [unfold Qdiv; ring | apply Rounded_0].
  - cbn [SFdiv SF2Q].
    pose proof (SFdiv_core_located mx my ex ey) as Hloc.
    destruct (SFdiv_core_binary prec emax (Z.pos mx) ex (Z.pos my) ey) as [[q e'] l].
    eapply Rounded_compat; [| apply (binary_round_aux_Rounded (xorb sx sy) _ _ _ _ Hloc)].
    rewrite !F2Q_cond_Zopp. pose proof (F2Q_pos my ey).
    destruct sx, sy; cbn [xorb]; field; lra.
Qed.

(** How far the rounded number is from the real one: half a unit in the
    last place of a number below [2 ^ k]. *)
Lemma Rounded_mag_error (s : bool) (a : Q) (f : spec_float) (k : Z) :
  Rounded_mag s a f -> SFfinite f = true -> (a < pow2 k)%Q ->
  exists v : Q,
    (SF2Q f == if s then - v else v)%Q /\
    (a - pow2 (Z.max (k - 53) (-1074) - 1) <= v)%Q /\
    (v <= a + pow2 (Z.max (k - 53) (-1074) - 1))%Q.
Proof.
  intros [M [d [HM [Hup [Hlow [Ha [Hd [Hn Hp]]]]]]]] Hfin Hk.
  set (e := fexp prec emax d) in *.
  assert (He : e = Z.max (d - 53) (-1074)) by apply fexp_eq.
  assert (Hek : e <= Z.max (k - 53) (-1074)).
  { destruct (Z_lt_ge_dec (-1074) e) as [Hnorm | Hsub]; [| lia].
    specialize (Hn Hnorm).
    assert (Hlt : (pow2 (d - 1) < pow2 k)%Q) by lra.
    apply pow2_lt_inv in Hlt. lia. }
  pose proof (rounded_at_near _ _ _ HM) as [Hnlo Hnhi].
  pose proof (pow2_pos e) as Hpe.
  assert (Herr : (pow2 (e - 1) <= pow2 (Z.max (k - 53) (-1074) - 1))%Q)
    by (apply pow2_le; lia).
  rewrite pow2_pred in Herr.
  assert (Hscale : (a == (a / pow2 e) * pow2 e)%Q) by apply scaled_back.
  set (x := (a / pow2 e)%Q) in *.
  assert (Hv1 : (a - pow2 e * (1 # 2) <= F2Q M e)%Q).
  { unfold F2Q. rewrite Hscale.
    setoid_replace (x * pow2 e - pow2 e * (1 # 2))%Q with ((x - (1 # 2)) * pow2 e)%Q by ring.
    apply Qmult_le_compat_r; lra. }
  assert (Hv2 : (F2Q M e <= a + pow2 e * (1 # 2))%Q).
  { unfold F2Q. rewrite Hscale.
    setoid_replace (x * pow2 e + pow2 e * (1 # 2))%Q with ((x + (1 # 2)) * pow2 e)%Q by ring.
    apply Qmult_le_compat_r; lra. }
  assert (Hhalf : (pow2 e / 2 == pow2 e * (1 # 2))%Q) by (field).
  rewrite Hhalf in Herr.
  exists (F2Q M e). split; [| split; lra].
  destruct Hp as [[HM0 ->] | [HMpos [m' [e' [Hc [Hv ->]]]]]].
  - subst M. cbn [SF2Q]. destruct s; rewrite F2Q_0; ring.
  - destruct (e' <=? emax - prec); [| discriminate].
    destruct s; cbn [SF2Q cond_Zopp Z.opp]; [rewrite F2Q_neg |]; rewrite Hv; reflexivity.
Qed.

Theorem Rounded_error (r : Q) (f : spec_float) (k : Z) :
  Rounded r f -> SFfinite f = true -> (- pow2 k < r)%Q -> (r < pow2 k)%Q ->
  (r - pow2 (Z.max (k - 53) (-1074) - 1) <= SF2Q f)%Q /\
  (SF2Q f <= r + pow2 (Z.max (k - 53) (-1074) - 1))%Q.
Proof.
  intros [[H R] | [H R]] Hfin Hlo Hhi.
  - destruct (Rounded_mag_error _ _ _ k R Hfin Hhi) as [v [Hv [H1 H2]]].
    rewrite Hv. split; lra.
  - destruct (Rounded_mag_error _ _ _ k R Hfin ltac:(lra)) as [v [Hv [H1 H2]]].
    rewrite Hv. split; lra.
Qed.

(** *** The primitive operations *)

Definition B2Q (x : float) : Q := SF2Q (Prim2SF x).

Definition finite (x : float) : Prop := SFfinite (Prim2SF x) = true.

Lemma leb_B2Q (x y : float) :
  finite x -> finite y -> ((x <=? y)%float = true <-> (B2Q x <= B2Q y)%Q).
Proof.
  intros Hx Hy. rewrite leb_spec.
  apply SFleb_value; auto using Prim2SF_valid.
Qed.

Lemma ltb_B2Q (x y : float) :
  finite x -> finite y -> ((x <? y)%float = true <-> (B2Q x < B2Q y)%Q).
Proof.
  intros Hx Hy. rewrite ltb_spec.
  apply SFltb_value; auto using Prim2SF_valid.
Qed.

Lemma eqb_B2Q (x y : float) :
  finite x -> finite y -> ((x =? y)%float = true <-> (B2Q x == B2Q y)%Q).
Proof.
  intros Hx Hy. rewrite eqb_spec.
  apply SFeqb_value; auto using Prim2SF_valid.
Qed.

Lemma Rounded_B2Q (x : float) : finite x -> Rounded (B2Q x) (Prim2SF x).
Proof. intros Hx. apply Rounded_value; [apply Prim2SF_valid | exact Hx]. Qed.

Lemma sub_Rounded (x y : float) :
  finite x -> finite y -> Rounded (B2Q x - B2Q y) (Prim2SF (x - y)).
Proof.
  intros Hx Hy. rewrite sub_spec. apply SFsub_Rounded; auto using Prim2SF_valid.
Qed.

Lemma add_Rounded (x y : float) :
  finite x -> finite y -> Rounded (B2Q x + B2Q y) (Prim2SF (x + y)).
Proof.
  intros Hx Hy. rewrite add_spec. apply SFadd_Rounded; auto using Prim2SF_valid.
Qed.

Lemma mul_Rounded (x y : float) :
  finite x -> finite y -> Rounded (B2Q x * B2Q y) (Prim2SF (x * y)).
Proof.
  intros Hx Hy. rewrite mul_spec. apply SFmul_Rounded; auto using Prim2SF_valid.
Qed.

Lemma div_Rounded (x y : float) :
  finite x -> finite y -> ~ (B2Q y == 0)%Q ->
  Rounded (B2Q x / B2Q y) (Prim2SF (x / y)).
Proof.
  intros Hx Hy Hnz. rewrite div_spec. apply SFdiv_Rounded; auto using Prim2SF_valid.
Qed.

(** The same with the values of the operands given up to equality. *)
Lemma sub_rounds (x y : float) (rx ry : Q) :
  finite x -> finite y -> (B2Q x == rx)%Q -> (B2Q y == ry)%Q ->
  Rounded (rx - ry) (Prim2SF (x - y)).
Proof.
  intros Hx Hy Ex Ey. apply (Rounded_compat (B2Q x - B2Q y)); [now rewrite Ex, Ey |].
  now apply sub_Rounded.
Qed.

Lemma add_rounds (x y : float) (rx ry : Q) :
  finite x -> finite y -> (B2Q x == rx)%Q -> (B2Q y == ry)%Q ->
  Rounded (rx + ry) (Prim2SF (x + y)).
Proof.
  intros Hx Hy Ex Ey. apply (Rounded_compat (B2Q x + B2Q y)); [now rewrite Ex, Ey |].
  now apply add_Rounded.
Qed.

Lemma mul_rounds (x y : float) (rx ry : Q) :
  finite x -> finite y -> (B2Q x == rx)%Q -> (B2Q y == ry)%Q ->
  Rounded (rx * ry) (Prim2SF (x * y)).
Proof.
  intros Hx Hy Ex Ey. apply (Rounded_compat (B2Q x * B2Q y)); [now rewrite Ex, Ey |].
  now apply mul_Rounded.
Qed.

Lemma div_rounds (x y : float) (rx ry : Q) :
  finite x -> finite y -> (B2Q x == rx)%Q -> (B2Q y == ry)%Q -> ~ (ry == 0)%Q ->
  Rounded (rx / ry) (Prim2SF (x / y)).
Proof.
  intros Hx Hy Ex Ey Hnz. apply (Rounded_compat (B2Q x / B2Q y)); [now rewrite Ex, Ey |].
  apply div_Rounded; try assumption. now rewrite Ey.
Qed.

Lemma of_uint63_Rounded (n : PrimInt63.int) :
  Rounded (inject_Z (Uint63.to_Z n)) (Prim2SF (of_uint63 n)).
Proof.
  rewrite of_uint63_spec.
  eapply Rounded_compat; [| apply binary_normalize_Rounded].
  unfold F2Q. rewrite pow2_0. ring.
Qed.

Lemma Rounded_leb (r1 r2 : Q) (z1 z2 : float) :
  Rounded r1 (Prim2SF z1) -> Rounded r2 (Prim2SF z2) -> (r1 <= r2)%Q ->
  (z1 <=? z2)%float = true.
Proof. intros R1 R2 Hle. rewrite leb_spec. apply (Rounded_le _ _ _ _ R1 R2 Hle). Qed.

Lemma between_finite (a z b : float) :
  finite a -> finite b -> (a <=? z)%float = true -> (z <=? b)%float = true -> finite z.
Proof.
  unfold finite. rewrite !leb_spec. unfold SFleb.
  destruct (Prim2SF a) as [sa | sa | | sa ma ea]; try discriminate;
    destruct (Prim2SF b) as [sb | sb | | sb mb eb]; try discriminate;
    destruct (Prim2SF z) as [sz | [|] | | sz mz ez]; intros _ _; cbn;
    try reflexivity; try discriminate; try (destruct sa; discriminate);
    try (destruct sb; discriminate).
Qed.

(** A result that a real number between the values of two finite numbers
    rounds to is finite and lies between them. *)
Theorem Rounded_between (r : Q) (a z b : float) :
  Rounded r (Prim2SF z) -> finite a -> finite b ->
  (B2Q a <= r)%Q -> (r <= B2Q b)%Q ->
  finite z /\ (B2Q a <= B2Q z)%Q /\ (B2Q z <= B2Q b)%Q.
Proof.
  intros R Ha Hb Hlo Hhi.
  pose proof (Rounded_leb _ _ _ _ (Rounded_B2Q a Ha) R Hlo) as H1.
  pose proof (Rounded_leb _ _ _ _ R (Rounded_B2Q b Hb) Hhi) as H2.
  pose proof (between_finite _ _ _ Ha Hb H1 H2) as Hz.
  split; [exact Hz |]. split; [now apply leb_B2Q | now apply leb_B2Q].
Qed.

Lemma Rounded_within (r lo hi : Q) (a z b : float) :
  Rounded r (Prim2SF z) -> finite a -> finite b ->
  (B2Q a == lo)%Q -> (B2Q b == hi)%Q -> (lo <= r)%Q -> (r <= hi)%Q ->
  finite z /\ (lo <= B2Q z)%Q /\ (B2Q z <= hi)%Q.
Proof.
  intros R Ha Hb Ea Eb Hlo Hhi. rewrite <- Ea, <- Eb.
  apply (Rounded_between r); try assumption; [now rewrite Ea | now rewrite Eb].
Qed.

(** A real number that is the value of a finite number rounds to it. *)
Theorem Rounded_exact (r : Q) (z g : float) :
  Rounded r (Prim2SF z) -> finite g -> (r == B2Q g)%Q ->
  finite z /\ (B2Q z == B2Q g)%Q.
Proof.
  intros R Hg Heq.
  destruct (Rounded_between r g z g R Hg Hg) as [Hz [H1 H2]]; try lra.
  split; [exact Hz | lra].
Qed.

End Binary64.

(* ================================================================== *)
(** ** Properties                                                      *)
(* ================================================================== *)

(** *** StatusMonitor *)

Section StatusMonitor.
Import Js Page.

Lemma setStatus_status (f : option SysStatus -> option SysStatus) (st : AppState) :
  status (setStatus f st) = f (status st).
Proof. reflexivity. Qed.

(** A fulfilled probe whose body cannot be read ends in the same [catch]. *)
Lemma checkStatus_bodyless (t0 now : Z) (clock : string) (data : value) (st : AppState) :
  nullish data = true ->
  checkStatus_settle t0 now clock (Fulfilled data) st = setStatus degrade st.
Proof.
  intros Hn. unfold checkStatus_settle, status_of_health, get.
  now rewrite Hn.
Qed.

(** C4. When the health probe fails, a status that already exists keeps its
    document count, feature flag, latency and last-checked time and only has
    its connectivity flag set to false; a status that does not exist yet
    stays null. Nothing else of the application state changes. *)
Theorem C4_failed_probe_keeps_last_known_status :
  forall (t0 now : Z) (clock : string) (reason : value) (st : AppState),
    let st' := checkStatus_settle t0 now clock (Rejected reason) st in
    (forall s, status st = Some s ->
       status st' = Some (mkSysStatus false (doc_count s) (mcp_enabled s)
                            (latency_ms s) (last_checked s))) /\
    (status st = None -> status st' = None) /\
    patientId st' = patientId st /\ patients st' = patients st /\
    esqlFeed st' = esqlFeed st /\ criticalAlert st' = criticalAlert st.
Proof.
  intros t0 now clock reason st st'. subst st'. cbn [checkStatus_settle].
  rewrite setStatus_status.
  repeat split; try reflexivity.
  - intros s Hs. now rewrite Hs.
  - intros Hs. now rewrite Hs.
Qed.

End StatusMonitor.

(** *** Folding a transition over a trace *)

Section Traces.
Context {S E : Type} (P : S -> Prop) (f : S -> E -> S).
Hypothesis step_ok : forall s e, P s -> P (f s e).

Lemma fold_left_preserves : forall (es : list E) (s : S), P s -> P (fold_left f es s).
Proof.
  induction es as [| e es IH]; intros s Hs; cbn.
  - exact Hs.
  - apply IH, step_ok, Hs.
Qed.
End Traces.

(** *** NetworkTelemetryTap *)

Section Telemetry.
Import Js Page.

Lemma firstn_cons_S {A : Type} (n : nat) (a : A) (l : list A) :
  firstn (S n) (a :: l) = a :: firstn n l.
Proof. reflexivity. Qed.

Lemma push_placeholder_eq (url : string) (prev : list FeedEntry) :
  push_placeholder url prev = mkFeedEntry url (VNum 0%Q) (VNum 0%Q) :: firstn 5 prev.
Proof. reflexivity. Qed.

Lemma push_placeholder_length (url : string) (prev : list FeedEntry) :
  List.length (push_placeholder url prev) <= feed_capacity.
Proof. unfold push_placeholder. apply firstn_le_length. Qed.

Lemma attribute_length (url : string) (m r : value) (prev : list FeedEntry) :
  List.length (attribute url m r prev) = List.length prev.
Proof.
  destruct prev as [| head rest]; cbn; [reflexivity |].
  now destruct (String.eqb (label head) url).
Qed.

Lemma tap_feed_bounded (api : string) (st : AppState) (e : tap_event) :
  List.length (esqlFeed st) <= feed_capacity ->
  List.length (esqlFeed (tap api st e)) <= feed_capacity.
Proof.
  intros Hb. destruct e as [u | u d]; cbn [tap]; unfold on_request, on_response.
  - destruct (tapped (normalized_url api u)); [apply push_placeholder_length | exact Hb].
  - destruct (tapped (normalized_url api u)); [| exact Hb].
    cbn. now rewrite attribute_length.
Qed.

Lemma Forall_firstn_of {A : Type} (Q : A -> Prop) (n : nat) (l : list A) :
  Forall Q l -> Forall Q (firstn n l).
Proof.
  revert l. induction n as [| n IH]; intros l Hl; cbn; [constructor |].
  destruct Hl as [| a l Ha Hl]; constructor; auto.
Qed.

Lemma tap_labels_tapped (api : string) (st : AppState) (e : tap_event) :
  labels_tapped st -> labels_tapped (tap api st e).
Proof.
  unfold labels_tapped. intros Hl.
  destruct e as [u | u d]; cbn [tap]; unfold on_request, on_response;
    destruct (tapped (normalized_url api u)) eqn:Ht; try exact Hl;
    cbn [esqlFeed setEsqlFeed].
  - unfold push_placeholder. apply Forall_firstn_of. constructor; [exact Ht | exact Hl].
  - unfold attribute. destruct (esqlFeed st) as [| head rest]; [constructor |].
    destruct (String.eqb (label head) (normalized_url api u)); [| exact Hl].
    inversion Hl; subst. constructor; [exact Ht | assumption].
Qed.

Lemma reachable_labels_tapped (api : string) (es : list tap_event) :
  labels_tapped (tap_all api es initial).
Proof.
  unfold tap_all. apply fold_left_preserves.
  - intros s e. apply tap_labels_tapped.
  - constructor.
Qed.

Lemma reachable_feed_bounded (api : string) (es : list tap_event) :
  List.length (esqlFeed (tap_all api es initial)) <= feed_capacity.
Proof.
  unfold tap_all.
  apply (fold_left_preserves (fun s => List.length (esqlFeed s) <= feed_capacity)).
  - intros s e. apply tap_feed_bounded.
  - cbn. lia.
Qed.

End Telemetry.

(** *** The dashboard's query log *)

Section QueryLog.
Import Js DashboardTab.

Lemma push_query_eq (q : string) (r : value) (m : Z) (clock : string) (prev : list QueryLog) :
  push_query q r m clock prev = mkQueryLog q r m clock :: firstn 9 prev.
Proof. reflexivity. Qed.

Lemma push_query_length (q : string) (r : value) (m : Z) (clock : string) (prev : list QueryLog) :
  List.length (push_query q r m clock prev) <= log_capacity.
Proof. unfold push_query. apply firstn_le_length. Qed.

Lemma apply_log_safe (st : DashState) (a : setter) :
  log_safe a ->
  List.length (queryLog st) <= log_capacity ->
  List.length (queryLog (apply st a)) <= log_capacity.
Proof. destruct a; cbn; auto. Qed.

Lemma apply_all_log_safe (calls : list setter) :
  Forall log_safe calls ->
  forall st, List.length (queryLog st) <= log_capacity ->
             List.length (queryLog (apply_all st calls)) <= log_capacity.
Proof.
  unfold apply_all. induction 1 as [| a calls Ha _ IH]; intros st Hst; cbn.
  - exact Hst.
  - apply IH, apply_log_safe; assumption.
Qed.

Lemma bind_calls_safe {A B : Type} (m : Eff A) (k : A -> Eff B) :
  Forall log_safe (fst m) ->
  (forall a, Forall log_safe (fst (k a))) ->
  Forall log_safe (fst (bind m k)).
Proof.
  intros Hm Hk. destruct m as [w [a |]]; cbn in *; [| exact Hm].
  specialize (Hk a). destruct (k a) as [w' r]; cbn in *.
  apply Forall_app; split; assumption.
Qed.

Lemma logQuery_safe (clock q : string) (r : value) (m : Z) :
  Forall log_safe (fst (logQuery clock q r m)).
Proof.
  unfold logQuery, call. cbn [fst].
  apply Forall_cons; [| apply Forall_nil].
  intros prev. apply push_query_length.
Qed.

Lemma call_safe (a : setter) : log_safe a -> Forall log_safe (fst (call a)).
Proof. intros Ha. apply Forall_cons; [exact Ha | apply Forall_nil]. Qed.

Lemma eval_safe (o : option value) : Forall log_safe (fst (eval o)).
Proof. constructor. Qed.

Lemma ret_safe {A : Type} (a : A) : Forall log_safe (fst (ret a)).
Proof. constructor. Qed.

Create HintDb log_safe.
#[local] Hint Resolve logQuery_safe call_safe eval_safe ret_safe : log_safe.

Ltac safe_block :=
  repeat (apply bind_calls_safe; [| intros ?]); auto with log_safe;
  try (apply call_safe; exact I).

Lemma load_try_safe (pid : string) (t0 now : Z) (clock : string) (rs : Settled4) :
  Forall log_safe (fst (load_try pid t0 now clock rs)).
Proof.
  unfold load_try, on_summary, on_biomarkers, on_risk, on_alerts.
  destruct rs as [[ds | es] [db | eb] [dr | er] [da | ea]]; cbn [sumR bioR riskR alertR];
    safe_block.
Qed.

Lemma load_safe (pid : string) (t0 now : Z) (clock : string) (rs : Settled4) :
  Forall log_safe (fst (load pid t0 now clock rs)).
Proof.
  unfold load, load_settle, try_finally, load_begin. cbn [fst].
  apply Forall_app; split; [repeat constructor |].
  apply Forall_app; split; [apply load_try_safe | repeat constructor].
Qed.

Lemma refresh_log_bounded (st : DashState) (r : Refresh) :
  List.length (queryLog st) <= log_capacity ->
  List.length (queryLog (refresh st r)) <= log_capacity.
Proof. intros Hst. unfold refresh, after_load. apply apply_all_log_safe; [apply load_safe | exact Hst]. Qed.

End QueryLog.

Section FeedOrder.
Import Js Page DashboardTab.

Lemma firstn_cons_firstn {A : Type} (n : nat) (a : A) (l : list A) :
  firstn (S n) (a :: firstn (S n) l) = firstn (S n) (a :: l).
Proof.
  rewrite !firstn_cons, firstn_firstn. do 2 f_equal. lia.
Qed.

Lemma attribute_keeps_labels (url : string) (m r : value) (prev : list FeedEntry) :
  map label (attribute url m r prev) = map label prev.
Proof.
  destruct prev as [| head rest]; cbn; [reflexivity |].
  destruct (String.eqb (label head) url) eqn:He; [| reflexivity].
  apply String.eqb_eq in He. cbn. now rewrite He.
Qed.

(** The labels of the feed are the newest six of the recorded requests. *)
Lemma tap_all_labels (api : string) (es : list tap_event) :
  forall (st : AppState) (older : list string),
    map label (esqlFeed st) = firstn feed_capacity older ->
    map label (esqlFeed (tap_all api es st))
    = firstn feed_capacity (rev (requested api es) ++ older).
Proof.
  unfold tap_all. induction es as [| e es IH]; intros st older Hst; [exact Hst |].
  cbn [fold_left]. destruct e as [u | u d]; cbn [tap requested].
  - unfold on_request. destruct (tapped (normalized_url api u)) eqn:Ht.
    + cbn [rev]. rewrite <- app_assoc. apply IH.
      cbn [esqlFeed setEsqlFeed]. unfold push_placeholder.
      rewrite <- firstn_map. cbn [map label]. rewrite Hst.
      apply (firstn_cons_firstn 5).
    + apply IH, Hst.
  - unfold on_response. destruct (tapped (normalized_url api u)).
    + apply IH. cbn [esqlFeed setEsqlFeed]. now rewrite attribute_keeps_labels.
    + apply IH, Hst.
Qed.

(** A setter call that, if it writes the log, puts one line at its head
    and keeps the newest ten. *)
Definition prepends (a : setter) : Prop :=
  match a with
  | SetQueryLog f => exists e, forall l, f l = firstn log_capacity (e :: l)
  | _ => True
  end.

Lemma apply_all_prepends (calls : list setter) :
  Forall prepends calls ->
  forall (st : DashState) (older : list QueryLog),
    queryLog st = firstn log_capacity older ->
    queryLog (apply_all st calls)
    = firstn log_capacity (rev (flat_map line_of calls) ++ older).
Proof.
  unfold apply_all. induction 1 as [| a calls Ha _ IH]; intros st older Hst; [exact Hst |].
  cbn [fold_left flat_map]. rewrite rev_app_distr, <- app_assoc. apply IH.
  destruct a; cbn [apply queryLog line_of rev List.app]; try exact Hst.
  destruct Ha as [e He]. rewrite !He, Hst. unfold log_capacity.
  rewrite (firstn_cons 9 e []), firstn_nil. cbn [rev List.app].
  apply (firstn_cons_firstn 9).
Qed.

Lemma load_prepends (pid : string) (t0 now : Z) (clock : string) (rs : Settled4) :
  Forall prepends (fst (load pid t0 now clock rs)).
Proof.
  destruct rs as [[ds | es] [db | eb] [dr | er] [da | ea]];
    unfold load, load_settle, try_finally, load_try, load_begin,
      on_summary, on_biomarkers, on_risk, on_alerts, logQuery, get;
    cbn [sumR bioR riskR alertR];
    try destruct (nullish db); try destruct (nullish da);
    cbn -[push_query];
    repeat (apply Forall_cons;
            [first [exact I | eexists; intros l; reflexivity] |]);
    apply Forall_nil.
Qed.

Lemma refreshes_log (rs : list Refresh) :
  forall (st : DashState) (older : list QueryLog),
    queryLog st = firstn log_capacity older ->
    queryLog (refreshes st rs)
    = firstn log_capacity (rev (flat_map lines rs) ++ older).
Proof.
  unfold refreshes. induction rs as [| r rs IH]; intros st older Hst; [exact Hst |].
  cbn [fold_left flat_map]. rewrite rev_app_distr, <- app_assoc. apply IH.
  unfold refresh, after_load, lines. apply apply_all_prepends; [apply load_prepends | exact Hst].
Qed.

Lemma lines_count (pid : string) (t0 now : Z) (clock : string) (rs : Settled4) :
  snd (load pid t0 now clock rs) = Some tt ->
  List.length (lines (mkRefresh pid t0 now clock rs))
  = List.length (filter fulfilled [sumR rs; bioR rs; riskR rs; alertR rs]).
Proof.
  unfold lines. cbn [rf_patient rf_t0 rf_now rf_clock rf_results].
  destruct rs as [[ds | es] [db | eb] [dr | er] [da | ea]];
    unfold load, load_settle, try_finally, load_try, load_begin,
      on_summary, on_biomarkers, on_risk, on_alerts, logQuery, get;
    cbn [sumR bioR riskR alertR];
    try destruct (nullish db); try destruct (nullish da);
    cbn; intros Hend; try discriminate; reflexivity.
Qed.

End FeedOrder.

(** C5. Whatever requests and responses pass the interceptors, the header
    feed holds at most 6 entries, and whatever refresh cycles run, the
    dashboard query log holds at most 10. The request interceptor puts the
    placeholder of a recorded request at the head of the feed, followed by
    the newest 5 of the entries that were there, and leaves the feed alone
    for any other request; so the labels of the feed are, newest first, the
    last six recorded requests of the run, whatever responses came in
    between. [logQuery] puts its line at the head of the log, followed by
    the newest 9 of the lines that were there; so the log is, newest first,
    the last ten lines the cycles of the run have logged, and a cycle that
    runs to its end logs one line for each fulfilled call. *)
Theorem C5_feeds_bounded_newest_first :
  forall (api : string) (es : list Page.tap_event) (rs : list DashboardTab.Refresh),
    ((List.length (Page.esqlFeed (Page.tap_all api es Page.initial)) <= 6)%nat /\
     (List.length (DashboardTab.queryLog (DashboardTab.refreshes DashboardTab.initial rs))
      <= 10)%nat) /\
    ((forall (u : option string) (st : Page.AppState),
        let url := Page.normalized_url api u in
        Page.esqlFeed (Page.on_request api u st)
        = if Page.tapped url
          then Page.mkFeedEntry url (Js.VNum 0%Q) (Js.VNum 0%Q)
               :: firstn 5 (Page.esqlFeed st)
          else Page.esqlFeed st) /\
     map Page.label (Page.esqlFeed (Page.tap_all api es Page.initial))
     = firstn 6 (rev (Page.requested api es))) /\
    ((forall (clock q : string) (r : Js.value) (m : Z) (st : DashboardTab.DashState),
        DashboardTab.queryLog
          (DashboardTab.apply_all st (fst (DashboardTab.logQuery clock q r m)))
        = DashboardTab.mkQueryLog q r m clock :: firstn 9 (DashboardTab.queryLog st)) /\
     DashboardTab.queryLog (DashboardTab.refreshes DashboardTab.initial rs)
     = firstn 10 (rev (flat_map DashboardTab.lines rs)) /\
     (forall (pid : string) (t0 now : Z) (clock : string) (r4 : DashboardTab.Settled4),
        snd (DashboardTab.load pid t0 now clock r4) = Some tt ->
        List.length (DashboardTab.lines (DashboardTab.mkRefresh pid t0 now clock r4))
        = List.length
            (filter DashboardTab.fulfilled
               [DashboardTab.sumR r4; DashboardTab.bioR r4;
                DashboardTab.riskR r4; DashboardTab.alertR r4]))).
Proof.
  intros api es rs. split; [split | split; [split | split; [| split]]].
  - apply reachable_feed_bounded.
  - unfold DashboardTab.refreshes.
    apply (fold_left_preserves
             (fun s => List.length (DashboardTab.queryLog s) <= DashboardTab.log_capacity)%nat).
    + intros s r. apply refresh_log_bounded.
    + cbn. lia.
  - intros u st url. subst url. unfold Page.on_request.
    destruct (Page.tapped (Page.normalized_url api u)); reflexivity.
  - rewrite (tap_all_labels api es Page.initial []) by reflexivity.
    now rewrite app_nil_r.
  - intros clock q r m st. reflexivity.
  - rewrite (refreshes_log rs DashboardTab.initial []) by reflexivity.
    now rewrite app_nil_r.
  - intros pid t0 now clock r4. apply lines_count.
Qed.

(** C6. In any state the tap can reach, a response whose normalized path
    equals the label at the head of the feed rewrites that head entry, with
    the latency and cardinality extracted from the body, and leaves the rest
    of the feed as it was; with an empty feed or a different head label the
    feed comes back unchanged. No other part of the state is touched. *)
Theorem C6_response_updates_matching_head_only :
  forall (api : string) (es : list Page.tap_event) (u : option string) (data : Js.value),
    let st := Page.tap_all api es Page.initial in
    let url := Page.normalized_url api u in
    let st' := Page.on_response api u data st in
    (forall head rest,
        Page.esqlFeed st = head :: rest -> Page.label head = url ->
        Page.esqlFeed st'
        = Page.mkFeedEntry url (Page.extract_ms data) (Page.extract_rows data) :: rest) /\
    (forall head rest,
        Page.esqlFeed st = head :: rest -> Page.label head <> url ->
        Page.esqlFeed st' = Page.esqlFeed st) /\
    (Page.esqlFeed st = [] -> Page.esqlFeed st' = []) /\
    Page.patientId st' = Page.patientId st /\ Page.patients st' = Page.patients st /\
    Page.status st' = Page.status st /\ Page.criticalAlert st' = Page.criticalAlert st /\
    Page.patientsLoading st' = Page.patientsLoading st.
Proof.
  intros api es u data st url st'.
  pose proof (reachable_labels_tapped api es) as Hinv.
  fold st in Hinv. unfold Page.labels_tapped in Hinv.
  subst st'. unfold Page.on_response. fold url.
  destruct (Page.tapped url) eqn:Ht.
  - cbn [Page.setEsqlFeed Page.esqlFeed Page.patientId Page.patients Page.status
           Page.criticalAlert Page.patientsLoading].
    repeat split.
    + intros head rest Hfeed Hlab. rewrite Hfeed. cbn [Page.attribute].
      rewrite Hlab, String.eqb_refl. reflexivity.
    + intros head rest Hfeed Hlab. rewrite Hfeed. cbn [Page.attribute].
      apply String.eqb_neq in Hlab. now rewrite Hlab.
    + intros Hfeed. now rewrite Hfeed.
  - repeat split.
    + intros head rest Hfeed Hlab. exfalso.
      rewrite Hfeed in Hinv. inversion Hinv as [| ? ? Hhead _]; subst.
      rewrite Hlab in Hhead. congruence.
    + intros Hfeed. exact Hfeed.
Qed.

(** *** DashboardAggregator *)

Section Aggregator.
Import Js DashboardTab.

(** Splits a cycle into its cases: how each of the four calls settled, and
    whether the bodies that [load] reads a field of are there. *)
Ltac settle_cases rs :=
  destruct rs as [[ds | es] [db | eb] [dr | er] [da | ea]];
  unfold after_load, load, load_settle, try_finally, load_try, load_begin,
    on_summary, on_biomarkers, on_risk, on_alerts, get, bodyless, fulfilled;
  cbn [sumR bioR riskR alertR];
  try destruct (nullish db) eqn:Hdb; try destruct (nullish da) eqn:Hda.

Lemma load_clears_once (pid : string) (t0 now : Z) (clock : string) (rs : Settled4) :
  clears (fst (load pid t0 now clock rs)) = 1.
Proof. settle_cases rs; reflexivity. Qed.

Lemma load_ends_not_loading (pid : string) (t0 now : Z) (clock : string) (rs : Settled4)
      (st : DashState) :
  loading (after_load pid t0 now clock rs st) = false.
Proof. settle_cases rs; reflexivity. Qed.

Lemma load_throws_iff (pid : string) (t0 now : Z) (clock : string) (rs : Settled4) :
  snd (load pid t0 now clock rs) = None <->
  bodyless (bioR rs) = true \/ bodyless (alertR rs) = true.
Proof.
  settle_cases rs; cbn; split; intros Hx;
    try discriminate; try reflexivity; try (destruct Hx; discriminate); auto.
Qed.

Lemma failed_slices_kept (pid : string) (t0 now : Z) (clock : string) (rs : Settled4)
      (st : DashState) :
  let st' := after_load pid t0 now clock rs st in
  (fulfilled (sumR rs) = false -> summary st' = summary st) /\
  (fulfilled (bioR rs) = false -> biomarkers st' = biomarkers st) /\
  (fulfilled (riskR rs) = false -> risk st' = risk st) /\
  (fulfilled (alertR rs) = false -> alerts st' = alerts st).
Proof.
  settle_cases rs; cbn; repeat split; intros Hx; try discriminate; reflexivity.
Qed.

Lemma fulfilled_slices_replaced (pid : string) (t0 now : Z) (clock : string) (rs : Settled4)
      (st : DashState) :
  let st' := after_load pid t0 now clock rs st in
  (forall d, sumR rs = Fulfilled d -> summary st' = summary_of d) /\
  (forall d, bioR rs = Fulfilled d -> nullish d = false -> biomarkers st' = biomarkers_of d) /\
  (forall d, riskR rs = Fulfilled d -> bodyless (bioR rs) = false -> risk st' = risk_of d) /\
  (forall d, alertR rs = Fulfilled d -> bodyless (bioR rs) = false -> nullish d = false ->
             alerts st' = alerts_of d).
Proof.
  settle_cases rs; cbn; repeat split; intros d Hd;
    try discriminate; injection Hd as <-; intros; try congruence; reflexivity.
Qed.

Lemma aborted_slices_kept (pid : string) (t0 now : Z) (clock : string) (rs : Settled4)
      (st : DashState) :
  let st' := after_load pid t0 now clock rs st in
  (bodyless (bioR rs) = true ->
     biomarkers st' = biomarkers st /\ risk st' = risk st /\ alerts st' = alerts st) /\
  (bodyless (alertR rs) = true -> alerts st' = alerts st).
Proof.
  settle_cases rs; cbn; repeat split; intros; try discriminate; try congruence; reflexivity.
Qed.

End Aggregator.

(** C1, as stated, fails: all four calls of this cycle succeed, yet the risk
    slice is not replaced by the risk response. Reading [biomarkers] of the
    null body throws before [setRisk] is reached; the slice keeps its
    previous value, and [load] ends by throwing. *)
Lemma C1_fulfilled_risk_not_applied_after_throw :
  let st := DashboardTab.initial in
  let st' := DashboardTab.after_load "PAT001" 0 40 "10:00:00" cycle_null_biomarkers st in
  DashboardTab.fulfilled (DashboardTab.riskR cycle_null_biomarkers) = true /\
  DashboardTab.riskR cycle_null_biomarkers = Js.Fulfilled (Js.VObj [("score", Js.VNum 42%Q)]) /\
  DashboardTab.risk st' = Js.VNull /\
  DashboardTab.risk st' <> Js.VObj [("score", Js.VNum 42%Q)] /\
  DashboardTab.summary st' = Js.VObj [("total_tests", Js.VNum 3%Q)] /\
  snd (DashboardTab.load "PAT001" 0 40 "10:00:00" cycle_null_biomarkers) = None.
Proof. cbn. repeat split; try reflexivity. discriminate. Qed.

(** C1 (amended). In every refresh cycle [setLoading(false)] is called
    exactly once and the cycle ends with the flag cleared, whether the cycle
    succeeded, partially failed or threw. Each slice whose call failed
    keeps its previous value. A fulfilled summary response always replaces
    the summary. A fulfilled biomarkers response replaces the biomarkers
    unless its body is null or undefined; reading [biomarkers] of such a
    body throws, and then the biomarkers, the risk and the alerts all keep
    their previous values, whatever their calls returned. Otherwise a
    fulfilled risk response replaces the risk, and a fulfilled alerts
    response replaces the alerts unless its own body is null or undefined,
    in which case the alerts keep their previous value. [load] throws in
    exactly these two cases. *)
Theorem C1_refresh_cycle_slices_and_loading :
  forall (pid : string) (t0 now : Z) (clock : string)
         (rs : DashboardTab.Settled4) (st : DashboardTab.DashState),
    let st' := DashboardTab.after_load pid t0 now clock rs st in
    let outcome := DashboardTab.load pid t0 now clock rs in
    (DashboardTab.clears (fst outcome) = 1%nat /\ DashboardTab.loading st' = false) /\
    ((DashboardTab.fulfilled (DashboardTab.sumR rs) = false ->
        DashboardTab.summary st' = DashboardTab.summary st) /\
     (DashboardTab.fulfilled (DashboardTab.bioR rs) = false ->
        DashboardTab.biomarkers st' = DashboardTab.biomarkers st) /\
     (DashboardTab.fulfilled (DashboardTab.riskR rs) = false ->
        DashboardTab.risk st' = DashboardTab.risk st) /\
     (DashboardTab.fulfilled (DashboardTab.alertR rs) = false ->
        DashboardTab.alerts st' = DashboardTab.alerts st)) /\
    ((forall d, DashboardTab.sumR rs = Js.Fulfilled d ->
        DashboardTab.summary st' = DashboardTab.summary_of d) /\
     (forall d, DashboardTab.bioR rs = Js.Fulfilled d -> Js.nullish d = false ->
        DashboardTab.biomarkers st' = DashboardTab.biomarkers_of d) /\
     (forall d, DashboardTab.riskR rs = Js.Fulfilled d ->
        DashboardTab.bodyless (DashboardTab.bioR rs) = false ->
        DashboardTab.risk st' = DashboardTab.risk_of d) /\
     (forall d, DashboardTab.alertR rs = Js.Fulfilled d ->
        DashboardTab.bodyless (DashboardTab.bioR rs) = false -> Js.nullish d = false ->
        DashboardTab.alerts st' = DashboardTab.alerts_of d)) /\
    ((DashboardTab.bodyless (DashboardTab.bioR rs) = true ->
        DashboardTab.biomarkers st' = DashboardTab.biomarkers st /\
        DashboardTab.risk st' = DashboardTab.risk st /\
        DashboardTab.alerts st' = DashboardTab.alerts st) /\
     (DashboardTab.bodyless (DashboardTab.alertR rs) = true ->
        DashboardTab.alerts st' = DashboardTab.alerts st)) /\
    (snd outcome = None <->
     DashboardTab.bodyless (DashboardTab.bioR rs) = true \/
     DashboardTab.bodyless (DashboardTab.alertR rs) = true) /\
    (snd outcome = None \/ snd outcome = Some tt).
Proof.
  intros pid t0 now clock rs st st' outcome. subst st' outcome.
  split; [split |].
  - apply load_clears_once.
  - apply load_ends_not_loading.
  - split; [apply failed_slices_kept |].
    split; [apply fulfilled_slices_replaced |].
    split; [apply aborted_slices_kept |].
    split; [apply load_throws_iff |].
    destruct (snd (DashboardTab.load pid t0 now clock rs)) as [[] |]; auto.
Qed.

(** *** PatientRegistry *)

Section Registry.
Import Js Page.

Lemma find_patient_some (id : string) (rows : list Patient) (p : Patient) :
  find_patient id rows = Some p -> In p rows /\ patient_id p = id.
Proof.
  unfold find_patient. intros Hf. apply find_some in Hf.
  destruct Hf as [Hin Heq]. split; [exact Hin | now apply String.eqb_eq].
Qed.

Lemma find_patient_none (id : string) (rows : list Patient) :
  find_patient id rows = None <-> ~ In id (map patient_id rows).
Proof.
  unfold find_patient. induction rows as [| p rows IH]; cbn.
  - tauto.
  - destruct (String.eqb (patient_id p) id) eqn:He.
    + apply String.eqb_eq in He. split; [discriminate | intros Hn; exfalso; auto].
    + apply String.eqb_neq in He. rewrite IH. tauto.
Qed.

(** Fail-over: a non-empty roster without the active id moves the active id
    to the first row. *)
Lemma failover_to_first_row (id : string) (first : RosterRow) (rest : list RosterRow)
      (st : AppState) :
  ~ In id (map r_patient_id (first :: rest)) ->
  patientId (loadPatients_settle id (RosterOk (Some (first :: rest))) st) = r_patient_id first.
Proof.
  intros Hn. unfold loadPatients_settle.
  assert (Hf : find_patient id (map to_patient (first :: rest)) = None).
  { apply find_patient_none. rewrite map_map. exact Hn. }
  cbn [map] in Hf |- *. rewrite Hf. reflexivity.
Qed.

(** In that same load the alert is looked up under the id the callback
    closed over, which the roster does not hold: the alert is cleared. *)
Lemma failover_clears_alert (id : string) (first : RosterRow) (rest : list RosterRow)
      (st : AppState) :
  ~ In id (map r_patient_id (first :: rest)) ->
  criticalAlert (loadPatients_settle id (RosterOk (Some (first :: rest))) st) = None.
Proof.
  intros Hn. unfold loadPatients_settle.
  assert (Hf : find_patient id (map to_patient (first :: rest)) = None).
  { apply find_patient_none. rewrite map_map. exact Hn. }
  cbn [map] in Hf |- *. rewrite Hf. reflexivity.
Qed.

(** The alert only ever comes from the rows of the load that sets it. *)
Lemma alert_from_fresh_rows (id : string) (rows : option (list RosterRow)) (st : AppState)
      (msg : string) :
  criticalAlert (loadPatients_settle id (RosterOk rows) st) = Some msg ->
  exists r, In r (match rows with Some l => l | None => [] end) /\
            r_patient_id r = id /\ (0 < or_zero (r_critical r))%Z /\
            msg = alert_text id (or_zero (r_critical r)).
Proof.
  unfold loadPatients_settle.
  set (l := match rows with Some l => l | None => [] end).
  destruct (find_patient id (map to_patient l)) as [c |] eqn:Hf.
  - apply find_patient_some in Hf. destruct Hf as [Hin Hid].
    apply in_map_iff in Hin. destruct Hin as [r [Hr Hin]]. subst c.
    assert (Hget : forall s, criticalAlert
              (setPatientsLoading false
                 (setCriticalAlert
                    (if (0 <? critical (to_patient r))%Z
                     then Some (alert_text id (critical (to_patient r))) else None) s))
            = (if (0 <? critical (to_patient r))%Z
               then Some (alert_text id (critical (to_patient r))) else None))
      by reflexivity.
    rewrite Hget. destruct (0 <? critical (to_patient r))%Z eqn:Hc; [| discriminate].
    intros [= <-]. exists r. repeat split; try assumption.
    now apply Z.ltb_lt in Hc.
  - cbn. destruct (map to_patient l); discriminate.
Qed.

End Registry.

(** C2. What the code does in the scenario of the claim: the load moves the
    active id from PAT002 to PAT001, but it leaves the critical alert null.
    [loadPatients] looks the alert up under the [patientId] it closed over,
    still PAT002 after [setPatientId], and the fresh roster has no such row. *)
Theorem C2_failover_load_leaves_alert_null :
  let st' := Page.loadPatients_settle "PAT002" (Page.RosterOk (Some roster_PAT001)) app_PAT002 in
  Page.patientId st' = "PAT001" /\
  Page.criticalAlert st' = None /\
  Page.criticalAlert st' <> Some (Page.alert_text "PAT001" 2) /\
  map Page.critical (Page.patients st') = [2%Z].
Proof. cbn. repeat split; try reflexivity. discriminate. Qed.

(** The alert of the scenario is raised one load later, by the callback that
    was created with the new active id. *)
Example second_load_raises_alert :
  let st1 := Page.loadPatients_settle "PAT002" (Page.RosterOk (Some roster_PAT001)) app_PAT002 in
  let st2 := Page.loadPatients_settle (Page.patientId st1) (Page.RosterOk (Some roster_PAT001))
               (Page.loadPatients_begin st1) in
  Page.criticalAlert st2
  = Some "Patient PAT001 has 2 critical lab panels — immediate review needed".
Proof. reflexivity. Qed.

(** *** PollingScheduler *)

Section Scheduler.
Import Js.

Lemma filter_length_snoc {A : Type} (f : A -> bool) (l : list A) (a : A) :
  List.length (filter f (l ++ [a])) = List.length (filter f l) + (if f a then 1 else 0).
Proof.
  rewrite filter_app, length_app. cbn. now destruct (f a).
Qed.

Lemma poll_starts_both (now : Z) (rt : Page.Runtime) :
  Page.health_in_flight (Page.poll now rt) = S (Page.health_in_flight rt) /\
  Page.roster_in_flight (Page.poll now rt) = S (Page.roster_in_flight rt).
Proof.
  unfold Page.health_in_flight, Page.roster_in_flight, Page.poll,
    Page.loadPatients_call, Page.checkStatus_begin.
  cbn [Page.pending Page.app]. rewrite !filter_length_snoc. cbn. lia.
Qed.

Lemma load_call_starts_cycle (pid : string) (now : Z) (rt : DashboardTab.Runtime) :
  DashboardTab.cycles_in_flight (DashboardTab.load_call pid now rt)
  = S (DashboardTab.cycles_in_flight rt).
Proof.
  unfold DashboardTab.cycles_in_flight, DashboardTab.load_call.
  cbn [DashboardTab.in_flight]. rewrite length_app. cbn. lia.
Qed.

Lemma second_tick_in_flight (pid : string) (now : Z) (rt : DashboardTab.Runtime) :
  DashboardTab.cycles_in_flight (DashboardTab.second_tick pid now rt)
  = if (DashboardTab.countdown (DashboardTab.view rt) <=? 1)%Z
    then S (DashboardTab.cycles_in_flight rt)
    else DashboardTab.cycles_in_flight rt.
Proof.
  unfold DashboardTab.second_tick.
  destruct (DashboardTab.countdown (DashboardTab.view rt) <=? 1)%Z.
  - rewrite <- (load_call_starts_cycle pid now rt). reflexivity.
  - reflexivity.
Qed.

Lemma remove_nth_length {A : Type} (l : list A) :
  forall (i : nat) (a : A),
    nth_error l i = Some a -> S (List.length (remove_nth i l)) = List.length l.
Proof.
  induction l as [| b l IH]; intros [| i] a Hi; cbn in *; try discriminate.
  - reflexivity.
  - now rewrite (IH i a Hi).
Qed.

(** A cycle that settles is no longer in flight. *)
Lemma settle_lands_cycle (i : nat) (now : Z) (clock : string) (rs : DashboardTab.Settled4)
      (rt : DashboardTab.Runtime) (c : DashboardTab.Cycle) :
  nth_error (DashboardTab.in_flight rt) i = Some c ->
  S (DashboardTab.cycles_in_flight (DashboardTab.settle i now clock rs rt))
  = DashboardTab.cycles_in_flight rt.
Proof.
  intros Hi. unfold DashboardTab.cycles_in_flight, DashboardTab.settle.
  rewrite Hi. cbn [DashboardTab.in_flight]. now apply remove_nth_length with (a := c).
Qed.

(** A refresh that settles before the next expiry of the countdown leaves
    that expiry with a single cycle in flight. *)
Lemma settled_then_tick_one_cycle (pid : string) (t1 t2 : Z) (clock : string)
      (rs : DashboardTab.Settled4) (rt : DashboardTab.Runtime) (c : DashboardTab.Cycle) :
  DashboardTab.in_flight rt = [c] ->
  DashboardTab.cycles_in_flight
    (DashboardTab.load_call pid t2 (DashboardTab.settle 0 t1 clock rs rt)) = 1.
Proof.
  intros Hone. rewrite load_call_starts_cycle. f_equal.
  unfold DashboardTab.cycles_in_flight, DashboardTab.settle. now rewrite Hone.
Qed.

End Scheduler.

(** C3, as stated, fails on both cadences. Fast cadence: the mount starts a
    health probe and a roster load; the first interval tick arrives with
    both still outstanding and starts a second probe and a second load.
    Slow cadence: the mount starts a refresh cycle; thirty one-second ticks
    later, with that cycle still outstanding, a second cycle starts. *)
Lemma C3_tick_starts_second_refresh :
  let fast0 := Page.mount 0 in
  let fast1 := Page.interval_tick Page.fast_period_ms fast0 in
  let slow0 := DashboardTab.mount "PAT001" 0 in
  let slow1 := DashboardTab.seconds 30 "PAT001" 0 slow0 in
  (Page.roster_in_flight fast0 = 1 /\ Page.health_in_flight fast0 = 1)%nat /\
  (Page.roster_in_flight fast1 = 2 /\ Page.health_in_flight fast1 = 2)%nat /\
  Page.pending fast1
  = [Page.GetHealth 0; Page.GetPatients "PAT001";
     Page.GetHealth 20000; Page.GetPatients "PAT001"] /\
  DashboardTab.cycles_in_flight slow0 = 1%nat /\
  DashboardTab.cycles_in_flight slow1 = 2%nat /\
  DashboardTab.in_flight slow1
  = [DashboardTab.mkCycle "PAT001" 0; DashboardTab.mkCycle "PAT001" 30000].
Proof. vm_compute. repeat split; reflexivity. Qed.

(** C3 (amended). Neither cadence has an in-flight guard. Every tick of the
    fast cadence starts one more health probe and one more roster load,
    whatever is still outstanding; every one-second tick of the dashboard
    that finds the countdown at 1 or below starts one more refresh cycle,
    whatever is still outstanding, and any other tick starts none. A tick
    is never dropped and never queued: the request is in flight as soon as
    the tick has run. *)
Theorem C3_every_tick_starts_a_refresh :
  forall (now : Z) (rt : Page.Runtime) (pid : string) (drt : DashboardTab.Runtime),
    Page.health_in_flight (Page.interval_tick now rt) = S (Page.health_in_flight rt) /\
    Page.roster_in_flight (Page.interval_tick now rt) = S (Page.roster_in_flight rt) /\
    DashboardTab.cycles_in_flight (DashboardTab.second_tick pid now drt)
    = (if (DashboardTab.countdown (DashboardTab.view drt) <=? 1)%Z
       then S (DashboardTab.cycles_in_flight drt)
       else DashboardTab.cycles_in_flight drt).
Proof.
  intros now rt pid drt.
  destruct (poll_starts_both now rt) as [Hh Hr].
  split; [exact Hh | split; [exact Hr |]].
  apply second_tick_in_flight.
Qed.

(** *** Sparkline *)

Section Representable.
Import Binary64.
Local Open Scope Z_scope.

(** Every natural number below 2^53 is a binary64 number. *)
Lemma representable (n : Z) :
  0 <= n < 2 ^ 53 -> exists g : float, finite g /\ (B2Q g == inject_Z n)%Q.
Proof.
  intros [H0 H53]. destruct (Z.eq_dec n 0) as [-> | Hnz].
  - exists 0%float. split; [reflexivity | vm_compute; reflexivity].
  - assert (Hpos : 0 < n) by lia.
    pose proof (Zdigits2_bounds n Hpos) as [Hlo Hhi].
    pose proof (Zdigits2_nonneg n) as Hnn.
    assert (Hd : Zdigits2 n <= 53).
    { destruct (Z_le_gt_dec (Zdigits2 n) 53) as [Hle | Hgt]; [exact Hle | exfalso].
      assert (2 ^ 53 <= 2 ^ (Zdigits2 n - 1)) by (apply Z.pow_le_mono_r; lia). lia. }
    assert (Hd1 : 1 <= Zdigits2 n) by (destruct n; cbn [Zdigits2] in *; lia).
    set (k := 53 - Zdigits2 n).
    assert (Hk : 0 <= k) by (unfold k; lia).
    assert (Hmpos : 0 < n * 2 ^ k).
    { assert (0 < 2 ^ k) by (apply Z.pow_pos_nonneg; lia). nia. }
    destruct (n * 2 ^ k) as [| m | m] eqn:Hm; try lia.
    assert (Hdig : Z.pos (digits2_pos m) = 53).
    { change (Z.pos (digits2_pos m)) with (Zdigits2 (Z.pos m)).
      rewrite <- Hm, Zdigits2_shift by lia. unfold k. lia. }
    assert (Hvalid : valid_binary (S754_finite false m (- k)) = true).
    { unfold valid_binary, bounded. apply andb_true_intro. split.
      - apply canonical_iff. rewrite Hdig, fexp_eq. unfold k. lia.
      - apply Z.leb_le. change (emax - prec) with 971. lia. }
    exists (SF2Prim (S754_finite false m (- k))).
    unfold finite, B2Q. rewrite (Prim2SF_SF2Prim _ Hvalid).
    split; [reflexivity |]. cbn [SF2Q cond_Zopp].
    rewrite <- Hm, F2Q_shift by lia. replace (- k + k) with 0 by lia.
    unfold F2Q. rewrite pow2_0. ring.
Qed.

Lemma of_index_exact (i : nat) :
  Z.of_nat i < 2 ^ 53 ->
  finite (DashboardTab.of_index i) /\
  (B2Q (DashboardTab.of_index i) == inject_Z (Z.of_nat i))%Q.
Proof.
  intros Hi. unfold DashboardTab.of_index.
  pose proof (of_uint63_Rounded (Uint63.of_Z (Z.of_nat i))) as R.
  rewrite Uint63.of_Z_spec, Z.mod_small in R.
  - destruct (representable (Z.of_nat i) ltac:(lia)) as [g [Hg Hv]].
    destruct (Rounded_exact _ _ g R Hg) as [Hf He]; [now rewrite Hv |].
    split; [exact Hf | now rewrite He].
  - split; [lia |]. eapply Z.lt_trans; [exact Hi | reflexivity].
Qed.

End Representable.


Section SparklineFacts.
Import Binary64 DashboardTab.

Lemma finite_not_nan (a : float) : finite a -> is_nan a = false.
Proof.
  intros Ha. unfold is_nan. rewrite (proj2 (eqb_B2Q a a Ha Ha)); [reflexivity |].
  reflexivity.
Qed.

Lemma ltb_false_B2Q (a b : float) :
  finite a -> finite b -> (a <? b)%float = false -> (B2Q b <= B2Q a)%Q.
Proof.
  intros Ha Hb Hlt. destruct (Qlt_le_dec (B2Q a) (B2Q b)) as [Hc | Hc]; [| exact Hc].
  apply (ltb_B2Q a b Ha Hb) in Hc. congruence.
Qed.

Lemma min2_spec (a b : float) :
  finite a -> finite b ->
  (min2 a b = a \/ min2 a b = b) /\
  (B2Q (min2 a b) <= B2Q a)%Q /\ (B2Q (min2 a b) <= B2Q b)%Q.
Proof.
  intros Ha Hb. unfold min2.
  rewrite (finite_not_nan a Ha), (finite_not_nan b Hb). cbn [orb].
  destruct (a <? b)%float eqn:Hab.
  - apply (ltb_B2Q a b Ha Hb) in Hab. split; [now left |]. split; lra.
  - apply (ltb_false_B2Q a b Ha Hb) in Hab.
    destruct (b <? a)%float eqn:Hba.
    + apply (ltb_B2Q b a Hb Ha) in Hba. split; [now right |]. split; lra.
    + apply (ltb_false_B2Q b a Hb Ha) in Hba.
      destruct (get_sign a); (split; [auto |]); split; lra.
Qed.

Lemma max2_spec (a b : float) :
  finite a -> finite b ->
  (max2 a b = a \/ max2 a b = b) /\
  (B2Q a <= B2Q (max2 a b))%Q /\ (B2Q b <= B2Q (max2 a b))%Q.
Proof.
  intros Ha Hb. unfold max2.
  rewrite (finite_not_nan a Ha), (finite_not_nan b Hb). cbn [orb].
  destruct (a <? b)%float eqn:Hab.
  - apply (ltb_B2Q a b Ha Hb) in Hab. split; [now right |]. split; lra.
  - apply (ltb_false_B2Q a b Ha Hb) in Hab.
    destruct (b <? a)%float eqn:Hba.
    + apply (ltb_B2Q b a Hb Ha) in Hba. split; [now left |]. split; lra.
    + apply (ltb_false_B2Q b a Hb Ha) in Hba.
      destruct (get_sign a); (split; [auto |]); split; lra.
Qed.

Lemma min2_infinity (v : float) : finite v -> min2 infinity v = v.
Proof.
  intros Hv. unfold min2. rewrite (finite_not_nan v Hv).
  change (is_nan infinity) with false. cbn [orb].
  rewrite !ltb_spec. change (Prim2SF infinity) with (S754_infinity false).
  unfold finite in Hv. destruct (Prim2SF v) as [s | s | | s m e]; try discriminate; reflexivity.
Qed.

Lemma max2_neg_infinity (v : float) : finite v -> max2 neg_infinity v = v.
Proof.
  intros Hv. unfold max2. rewrite (finite_not_nan v Hv).
  change (is_nan neg_infinity) with false. cbn [orb].
  rewrite !ltb_spec. change (Prim2SF neg_infinity) with (S754_infinity true).
  unfold finite in Hv. destruct (Prim2SF v) as [s | s | | s m e]; try discriminate; reflexivity.
Qed.

Lemma fold_min2_spec (rest : list float) :
  forall acc : float,
    finite acc -> Forall finite rest ->
    finite (fold_left min2 rest acc) /\
    (B2Q (fold_left min2 rest acc) <= B2Q acc)%Q /\
    Forall (fun v => (B2Q (fold_left min2 rest acc) <= B2Q v)%Q) rest.
Proof.
  induction rest as [| b rest IH]; intros acc Hacc Hrest; cbn [fold_left].
  - split; [exact Hacc |]. split; [lra | constructor].
  - inversion Hrest as [| ? ? Hb Hr]; subst.
    destruct (min2_spec acc b Hacc Hb) as [Hsel [H1 H2]].
    assert (Hm : finite (min2 acc b)) by (destruct Hsel as [-> | ->]; assumption).
    destruct (IH _ Hm Hr) as [Hf [Hle Hall]].
    split; [exact Hf |]. split; [lra |]. constructor; [lra | exact Hall].
Qed.

Lemma fold_max2_spec (rest : list float) :
  forall acc : float,
    finite acc -> Forall finite rest ->
    finite (fold_left max2 rest acc) /\
    (B2Q acc <= B2Q (fold_left max2 rest acc))%Q /\
    Forall (fun v => (B2Q v <= B2Q (fold_left max2 rest acc))%Q) rest.
Proof.
  induction rest as [| b rest IH]; intros acc Hacc Hrest; cbn [fold_left].
  - split; [exact Hacc |]. split; [lra | constructor].
  - inversion Hrest as [| ? ? Hb Hr]; subst.
    destruct (max2_spec acc b Hacc Hb) as [Hsel [H1 H2]].
    assert (Hm : finite (max2 acc b)) by (destruct Hsel as [-> | ->]; assumption).
    destruct (IH _ Hm Hr) as [Hf [Hle Hall]].
    split; [exact Hf |]. split; [lra |]. constructor; [lra | exact Hall].
Qed.

(** The least and the greatest value of a series of finite numbers. *)
Lemma extremes_spec (values : list float) :
  values <> [] -> Forall finite values ->
  let lo := minimum values in
  let hi := maximum values in
  finite lo /\ finite hi /\
  Forall (fun v => (B2Q lo <= B2Q v)%Q /\ (B2Q v <= B2Q hi)%Q) values.
Proof.
  destruct values as [| v0 rest]; [congruence |]. intros _ Hall lo hi.
  inversion Hall as [| ? ? H0 Hr]; subst. subst lo hi. unfold minimum, maximum. cbn [fold_left].
  rewrite (min2_infinity v0 H0), (max2_neg_infinity v0 H0).
  destruct (fold_min2_spec rest v0 H0 Hr) as [Hfl [Hl0 Hlall]].
  destruct (fold_max2_spec rest v0 H0 Hr) as [Hfh [Hh0 Hhall]].
  split; [exact Hfl |]. split; [exact Hfh |].
  constructor; [split; assumption |].
  rewrite Forall_forall in *. intros v Hv. split; auto.
Qed.

Ltac closed := vm_compute; reflexivity.

(** Between the padding and the far edge less the padding. *)
Lemma scaled_in_box (t : float) (lo hi : float) (span : float) (S L Hh : Q) :
  finite t -> (0 <= B2Q t)%Q -> (B2Q t <= 1)%Q ->
  finite span -> (B2Q span == S)%Q -> (0 <= S)%Q ->
  finite lo -> (B2Q lo == L)%Q -> finite hi -> (B2Q hi == Hh)%Q ->
  (L + S == Hh)%Q ->
  (lo <=? lo + t * span)%float = true /\ (lo + t * span <=? hi)%float = true.
Proof.
  intros Ft Ht0 Ht1 Fs Es Hs Fl El Fh Eh Hsum.
  assert (F0 : finite 0%float) by reflexivity.
  assert (E0 : (B2Q 0 == 0)%Q) by closed.
  assert (Rw : Rounded (B2Q t * S) (Prim2SF (t * span)))
    by (apply mul_rounds; [assumption | assumption | reflexivity | exact Es]).
  destruct (Rounded_within _ 0 S 0%float (t * span)%float span Rw F0 Fs E0 Es)
    as [Fw [Hw0 Hw1]].
  { apply Qmult_le_0_compat; assumption. }
  { rewrite <- (Qmult_1_l S) at 2. apply Qmult_le_compat_r; assumption. }
  assert (Ry : Rounded (L + B2Q (t * span)) (Prim2SF (lo + t * span)))
    by (apply add_rounds; [assumption | assumption | exact El | reflexivity]).
  destruct (Rounded_within _ L Hh lo (lo + t * span)%float hi Ry Fl Fh El Eh)
    as [Fy [Hy0 Hy1]]; [lra | lra |].
  split; apply leb_B2Q; try assumption; lra.
Qed.

Lemma is_finite_iff (x : float) : is_finite x = true <-> finite x.
Proof.
  unfold is_finite, is_nan, is_infinity, finite.
  rewrite !FloatAxioms.eqb_spec, abs_spec.
  change (Prim2SF infinity) with (S754_infinity false).
  destruct (Prim2SF x) as [s | [|] | | s m e]; cbn; try (split; congruence);
    try (split; reflexivity).
  unfold SFeqb. cbn [SFcompare].
  rewrite Z.compare_refl. change (Pos.compare_cont Eq m m) with (Pos.compare m m).
  rewrite Pos.compare_refl. destruct s; cbn; split; reflexivity.
Qed.

Lemma inject_Z_pred (n : Z) : (inject_Z (n - 1) == inject_Z n - 1)%Q.
Proof. unfold Z.sub. rewrite inject_Z_plus. reflexivity. Qed.

(** The abscissa of the [i]-th of [n] points. *)
Lemma abscissa_in_box (n i : nat) :
  (2 <= n)%nat -> (Z.of_nat n < 2 ^ 53)%Z -> (i < n)%nat ->
  let x := (pad + (of_index i / (of_index n - 1)) * (W - pad * 2))%float in
  (pad <=? x)%float = true /\ (x <=? W - pad)%float = true.
Proof.
  intros Hn H53 Hi x. subst x.
  destruct (of_index_exact i ltac:(lia)) as [Fi Ei].
  destruct (of_index_exact n H53) as [Fn En].
  assert (F1 : finite 1%float) by reflexivity.
  assert (E1 : (B2Q 1 == 1)%Q) by closed.
  assert (F0 : finite 0%float) by reflexivity.
  assert (E0 : (B2Q 0 == 0)%Q) by closed.
  assert (Rd : Rounded (inject_Z (Z.of_nat n) - 1) (Prim2SF (of_index n - 1)))
    by (apply sub_rounds; assumption).
  destruct (representable (Z.of_nat n - 1) ltac:(lia)) as [g [Fg Eg]].
  destruct (Rounded_exact _ _ g Rd Fg) as [Fd Ed]; [now rewrite Eg, inject_Z_pred |].
  rewrite Eg, inject_Z_pred in Ed.
  assert (HI : (0 <= inject_Z (Z.of_nat i))%Q)
    by (change 0%Q with (inject_Z 0); rewrite <- Zle_Qle; lia).
  assert (HN : (inject_Z (Z.of_nat i) <= inject_Z (Z.of_nat n) - 1)%Q)
    by (rewrite <- inject_Z_pred, <- Zle_Qle; lia).
  assert (HN1 : (1 <= inject_Z (Z.of_nat n) - 1)%Q).
  { rewrite <- inject_Z_pred. change 1%Q with (inject_Z 1). rewrite <- Zle_Qle. lia. }
  assert (Rt : Rounded (inject_Z (Z.of_nat i) / (inject_Z (Z.of_nat n) - 1))
                 (Prim2SF (of_index i / (of_index n - 1))))
    by (apply div_rounds; try assumption; lra).
  destruct (Rounded_within _ 0 1 0%float _ 1%float Rt F0 F1 E0 E1) as [Ft [Ht0 Ht1]].
  { apply Qle_shift_div_l; lra. }
  { apply Qle_shift_div_r; lra. }
  apply (scaled_in_box _ pad (W - pad)%float (W - pad * 2)%float 76 2 78);
    try assumption; try reflexivity; try closed; lra.
Qed.

(** The ordinate of a value between the least and the greatest one. *)
Lemma ordinate_in_box (lo hi v : float) :
  finite lo -> finite hi -> finite v ->
  (B2Q lo <= B2Q v)%Q -> (B2Q v <= B2Q hi)%Q -> finite (hi - lo)%float ->
  let y := (pad + (1 - (v - lo) / or_1 (hi - lo)) * (H - pad * 2))%float in
  (pad <=? y)%float = true /\ (y <=? H - pad)%float = true.
Proof.
  intros Fl Fh Fv Hlo Hhi Fd y. subst y.
  assert (F1 : finite 1%float) by reflexivity.
  assert (E1 : (B2Q 1 == 1)%Q) by closed.
  assert (F0 : finite 0%float) by reflexivity.
  assert (E0 : (B2Q 0 == 0)%Q) by closed.
  assert (R0 : Rounded 0 (Prim2SF 0)).
  { apply (Rounded_compat (B2Q 0)); [exact E0 | now apply Rounded_B2Q]. }
  assert (Rd : Rounded (B2Q hi - B2Q lo) (Prim2SF (hi - lo))) by now apply sub_Rounded.
  assert (Ra : Rounded (B2Q v - B2Q lo) (Prim2SF (v - lo))) by now apply sub_Rounded.
  pose proof (Rounded_leb _ _ _ _ R0 Ra ltac:(lra)) as Ha0.
  pose proof (Rounded_leb _ _ _ _ Ra Rd ltac:(lra)) as Had.
  pose proof (between_finite _ _ _ F0 Fd Ha0 Had) as Fa.
  apply (leb_B2Q _ _ F0 Fa) in Ha0. apply (leb_B2Q _ _ Fa Fd) in Had.
  rewrite E0 in Ha0.
  set (a := (v - lo)%float) in *. set (d := (hi - lo)%float) in *.
  assert (Hrange : finite (or_1 d) /\ (0 < B2Q (or_1 d))%Q /\ (B2Q a <= B2Q (or_1 d))%Q).
  { unfold or_1. rewrite (finite_not_nan d Fd), orb_false_r.
    destruct (d =? 0)%float eqn:Hz.
    - apply (eqb_B2Q d 0 Fd F0) in Hz. rewrite E0 in Hz.
      split; [exact F1 |]. rewrite E1. split; lra.
    - split; [exact Fd |].
      assert (Hne : ~ (B2Q d == 0)%Q).
      { intros Hx. rewrite <- E0 in Hx. apply (eqb_B2Q d 0 Fd F0) in Hx. congruence. }
      split; lra. }
  destruct Hrange as [Fr [Hr0 Hra]]. set (rg := or_1 d) in *.
  assert (Rt : Rounded (B2Q a / B2Q rg) (Prim2SF (a / rg)))
    by (apply div_Rounded; try assumption; lra).
  destruct (Rounded_within _ 0 1 0%float _ 1%float Rt F0 F1 E0 E1) as [Ft [Ht0 Ht1]].
  { apply Qle_shift_div_l; lra. }
  { apply Qle_shift_div_r; lra. }
  assert (Ru : Rounded (1 - B2Q (a / rg)) (Prim2SF (1 - a / rg)))
    by (apply sub_rounds; [assumption | assumption | exact E1 | reflexivity]).
  destruct (Rounded_within _ 0 1 0%float _ 1%float Ru F0 F1 E0 E1) as [Fu [Hu0 Hu1]];
    [lra | lra |].
  apply (scaled_in_box _ pad (H - pad)%float (H - pad * 2)%float 20 2 22);
    try assumption; try reflexivity; try closed; lra.
Qed.

Lemma mapi_from_Forall {A B : Type} (P : B -> Prop) (Q : A -> Prop) (f : nat -> A -> B)
      (l : list A) (n : nat) :
  forall i : nat,
    (i + List.length l <= n)%nat -> Forall Q l ->
    (forall j a, (j < n)%nat -> Q a -> P (f j a)) ->
    Forall P (mapi_from i f l).
Proof.
  induction l as [| a l IH]; intros i Hlen Hall Hf; cbn [mapi_from]; [constructor |].
  inversion Hall; subst. cbn [List.length] in Hlen. constructor.
  - apply Hf; [lia | assumption].
  - apply IH; [lia | assumption | exact Hf].
Qed.

Lemma mapi_from_length {A B : Type} (f : nat -> A -> B) (l : list A) :
  forall i, List.length (mapi_from i f l) = List.length l.
Proof. induction l as [| a l IH]; intros i; cbn; [reflexivity | now rewrite IH]. Qed.

Lemma last_In {A : Type} (l : list A) (d : A) : l <> [] -> In (List.last l d) l.
Proof.
  induction l as [| a [| b l] IH]; intros Hne; [congruence | now left |].
  right. apply IH. discriminate.
Qed.

End SparklineFacts.

Section SparklineConverse.
Import Binary64 DashboardTab.

Ltac by_cases H :=
  revert H; cbn;
  repeat match goal with
         | s : bool |- _ => destruct s
         end;
  cbn; discriminate.

(** An operation with a finite result has finite operands (a finite
    dividend, for the division). *)
Lemma add_finite_inv (x y : float) : finite (x + y) -> finite x /\ finite y.
Proof.
  unfold finite. rewrite add_spec.
  destruct (Prim2SF x) as [sx | sx | | sx mx ex], (Prim2SF y) as [sy | sy | | sy my ey];
    intros Hf; split; first [reflexivity | exfalso; by_cases Hf].
Qed.

Lemma sub_finite_inv (x y : float) : finite (x - y) -> finite x /\ finite y.
Proof.
  unfold finite. rewrite sub_spec.
  destruct (Prim2SF x) as [sx | sx | | sx mx ex], (Prim2SF y) as [sy | sy | | sy my ey];
    intros Hf; split; first [reflexivity | exfalso; by_cases Hf].
Qed.

Lemma mul_finite_inv (x y : float) : finite (x * y) -> finite x /\ finite y.
Proof.
  unfold finite. rewrite mul_spec.
  destruct (Prim2SF x) as [sx | sx | | sx mx ex], (Prim2SF y) as [sy | sy | | sy my ey];
    intros Hf; split; first [reflexivity | exfalso; by_cases Hf].
Qed.

Lemma div_finite_inv (x y : float) : finite (x / y) -> finite x.
Proof.
  unfold finite. rewrite div_spec.
  destruct (Prim2SF x) as [sx | sx | | sx mx ex], (Prim2SF y) as [sy | sy | | sy my ey];
    intros Hf; first [reflexivity | exfalso; by_cases Hf].
Qed.


(** [d || 1] is never 0 and never NaN. *)
Lemma or_1_usable (d : float) :
  (or_1 d =? 0)%float = false /\ is_nan (or_1 d) = false.
Proof.
  unfold or_1. destruct ((d =? 0)%float || is_nan d) eqn:Hd.
  - split; reflexivity.
  - apply orb_false_elim in Hd. exact Hd.
Qed.

Lemma or_1_cases (d : float) :
  ((d =? 0)%float = true -> or_1 d = 1%float) /\
  (is_nan d = true -> or_1 d = 1%float) /\
  ((d =? 0)%float = false -> is_nan d = false -> or_1 d = d).
Proof.
  unfold or_1. repeat split.
  - intros Hz. now rewrite Hz.
  - intros Hn. rewrite Hn. now rewrite orb_true_r.
  - intros Hz Hn. now rewrite Hz, Hn.
Qed.

(** A point in the box has a finite ordinate, and so the difference it was
    computed from is finite. *)
Lemma in_box_finite_inv (n : nat) (lo range : float) (i : nat) (v : float) :
  in_box (point n lo range i v) = true -> finite (v - lo).
Proof.
  unfold in_box, point. cbn [fst snd]. intros Hb.
  apply andb_prop in Hb. destruct Hb as [Hb Hy2].
  apply andb_prop in Hb. destruct Hb as [_ Hy1].
  assert (Fy : finite (pad + (1 - (v - lo) / range) * (DashboardTab.H - pad * 2))%float).
  { apply (between_finite pad _ (DashboardTab.H - pad)%float);
      [reflexivity | reflexivity | exact Hy1 | exact Hy2]. }
  apply add_finite_inv in Fy. destruct Fy as [_ Ft].
  apply mul_finite_inv in Ft. destruct Ft as [Fu _].
  apply sub_finite_inv in Fu. destruct Fu as [_ Fw].
  now apply div_finite_inv in Fw.
Qed.

Lemma fold_max2_In (rest : list float) :
  forall acc, finite acc -> Forall finite rest ->
              In (fold_left max2 rest acc) (acc :: rest).
Proof.
  induction rest as [| v rest IH]; intros acc Fa Fr; [now left |].
  inversion Fr as [| ? ? Fv Fr']; subst. cbn [fold_left].
  destruct (max2_spec acc v Fa Fv) as [[Hc | Hc] _].
  - rewrite Hc. destruct (IH acc Fa Fr') as [Hi | Hi]; [now left | right; now right].
  - rewrite Hc. right. apply (IH v Fv Fr').
Qed.

Lemma maximum_In (values : list float) :
  values <> [] -> Forall finite values -> In (maximum values) values.
Proof.
  intros Hne Hall. destruct values as [| v0 rest]; [congruence |].
  inversion Hall as [| ? ? F0 Fr]; subst.
  unfold maximum. cbn [fold_left]. rewrite (max2_neg_infinity v0 F0).
  now apply fold_max2_In.
Qed.

Lemma mapi_from_Forall_inv {A B : Type} (P : B -> Prop) (f : nat -> A -> B) (l : list A) :
  forall i, Forall P (mapi_from i f l) -> Forall (fun a => exists j, P (f j a)) l.
Proof.
  induction l as [| a rest IH]; intros i Hall; [constructor |].
  cbn [mapi_from] in Hall. inversion Hall as [| ? ? Ha Hrest]; subst.
  constructor; [now exists i | apply (IH (S i) Hrest)].
Qed.

(** When every point is in the box, every value is finite and so is the
    difference of the extremes. *)
Lemma in_box_values_finite (n : nat) (values : list float) :
  values <> [] ->
  forallb in_box
    (mapi (point n (minimum values) (or_1 (maximum values - minimum values))) values) = true ->
  forallb is_finite values = true /\
  is_finite (maximum values - minimum values) = true.
Proof.
  intros Hne Hbox.
  assert (Hdiff : Forall (fun v => finite (v - minimum values)) values).
  { rewrite forallb_forall in Hbox. apply Forall_forall in Hbox.
    apply mapi_from_Forall_inv in Hbox. rewrite Forall_forall in *.
    intros v Hv. destruct (Hbox v Hv) as [j Hj]. now apply in_box_finite_inv in Hj. }
  assert (Hall : Forall finite values).
  { rewrite Forall_forall in *. intros v Hv.
    now destruct (sub_finite_inv _ _ (Hdiff v Hv)). }
  split.
  - apply forallb_forall. rewrite Forall_forall in Hall. intros v Hv.
    apply is_finite_iff. now apply Hall.
  - apply is_finite_iff. rewrite Forall_forall in Hdiff.
    apply Hdiff. now apply maximum_In.
Qed.

(** The divisor of the abscissa is positive. *)
Lemma abscissa_divisor_positive (n : nat) :
  (2 <= n)%nat -> (Z.of_nat n < 2 ^ 53)%Z -> (0 <? of_index n - 1)%float = true.
Proof.
  intros Hn H53.
  destruct (of_index_exact n H53) as [Fn En].
  assert (F1 : finite 1%float) by reflexivity.
  assert (E1 : (B2Q 1 == 1)%Q) by (vm_compute; reflexivity).
  assert (R : Rounded (inject_Z (Z.of_nat n) - 1) (Prim2SF (of_index n - 1)))
    by (apply sub_rounds; assumption).
  destruct (of_index_exact (n - 1)) as [Fp Ep]; [lia |].
  destruct (Rounded_exact _ _ _ R Fp) as [Fd Ed].
  { rewrite Ep, Nat2Z.inj_sub by lia. change (Z.of_nat 1) with 1%Z.
    unfold Z.sub. rewrite inject_Z_plus. reflexivity. }
  apply ltb_B2Q; [reflexivity | exact Fd |].
  rewrite Ed, Ep. change (B2Q 0) with (inject_Z 0). rewrite <- Zlt_Qlt. lia.
Qed.

End SparklineConverse.

(** C8. A series with fewer than two points, empty or a single value,
    renders the no-data state whatever the values are and however few
    arguments a call may take; nothing else is computed for it, so
    [Math.min] is not called and nothing is thrown. *)
Theorem C8_short_series_renders_no_data :
  forall (max_args : nat) (values : list float) (isAbnormal : bool),
    (List.length values < 2)%nat ->
    DashboardTab.Sparkline max_args values isAbnormal = DashboardTab.NoData.
Proof.
  intros max_args values isAbnormal Hlen. unfold DashboardTab.Sparkline.
  apply Nat.ltb_lt in Hlen. now rewrite Hlen.
Qed.

Lemma C8_witness_single_point :
  DashboardTab.Sparkline 0 [3.5%float] true = DashboardTab.NoData.
Proof. apply C8_short_series_renders_no_data. cbn. lia. Defined.

(** C10 as stated fails on binary64 numbers. For the series 1e308, -1e308
    of two finite values the difference max - min overflows to Infinity,
    the first ordinate is Infinity / Infinity = NaN, and the first point is
    not in the box. A series with more values than a call takes arguments
    makes [Math.min(...values)] throw a RangeError, so the computation is
    not total either. *)
Lemma C10_overflowing_spread_leaves_box :
  DashboardTab.Sparkline 100 [1e308; -1e308]%float false
  = DashboardTab.Chart [(2, nan); (78, 22)]%float "#34d399" 78 22 false /\
  forallb DashboardTab.in_box [(2, nan); (78, 22)]%float = false /\
  forallb is_finite [1e308; -1e308]%float = true /\
  (DashboardTab.maximum [1e308; -1e308] - DashboardTab.minimum [1e308; -1e308])%float
  = infinity /\
  DashboardTab.Sparkline 3 [1; 2; 3; 4]%float false = DashboardTab.RangeError.
Proof. vm_compute. repeat split; reflexivity. Qed.

(** C10 (amended). For a series of at least two values (an array holds
    fewer than 2^32). The divisor of the normalization is never 0 and never
    NaN: it is 1 when max - min is 0, and max - min when that is a number
    other than 0; the divisor of the abscissa is positive. A series with
    more values than a call takes arguments makes [Math.min(...values)]
    throw; any other series gives the chart, with one coordinate pair per
    value and the marker at the ordinate of the last value. When all values
    are finite and max - min does not overflow, every pair and the marker
    lie between 2 and 78 across and between 2 and 22 down, and the divisor
    is positive; and only then: when every pair lies in the box, all values
    are finite and so is max - min. All comparisons and operations are
    those of binary64. *)
Theorem C10_sparkline_points_inside_box :
  forall (max_args : nat) (values : list float) (isAbnormal : bool),
    (2 <= List.length values)%nat ->
    (Z.of_nat (List.length values) <= 4294967295)%Z ->
    let min := DashboardTab.minimum values in
    let max := DashboardTab.maximum values in
    let range := DashboardTab.or_1 (max - min) in
    let pts := DashboardTab.mapi (DashboardTab.point (List.length values) min range) values in
    let ly := snd (DashboardTab.point (List.length values) min range
                     (List.length values - 1) (List.last values nan)) in
    let color := if isAbnormal then "#f87171" else "#34d399" in
    ((max_args < List.length values)%nat ->
     DashboardTab.Sparkline max_args values isAbnormal = DashboardTab.RangeError) /\
    ((List.length values <= max_args)%nat ->
     DashboardTab.Sparkline max_args values isAbnormal
     = DashboardTab.Chart pts color 78%float ly isAbnormal /\
     (forallb is_finite values = true -> is_finite (max - min)%float = true ->
      forallb DashboardTab.in_box pts = true /\
      DashboardTab.in_box (78%float, ly) = true /\
      (0 <? range)%float = true)) /\
    (List.length pts = List.length values /\
     (forallb DashboardTab.in_box pts = true ->
      forallb is_finite values = true /\ is_finite (max - min)%float = true)) /\
    ((range =? 0)%float = false /\ is_nan range = false /\
     ((max - min =? 0)%float = true -> range = 1%float) /\
     ((max - min =? 0)%float = false -> is_nan (max - min)%float = false ->
      range = (max - min)%float) /\
     (0 <? DashboardTab.of_index (List.length values) - 1)%float = true).
Proof.
  intros max_args values isAbnormal Hlen Hmax lo hi range pts ly color.
  assert (Hne : values <> []) by (destruct values; [cbn in Hlen; lia | discriminate]).
  assert (H53 : (Z.of_nat (List.length values) < 2 ^ 53)%Z).
  { eapply Z.le_lt_trans; [exact Hmax | reflexivity]. }
  assert (Hshort : (List.length values <? 2)%nat = false) by now apply Nat.ltb_ge.
  split; [| split; [| split]].
  - intros Hargs. unfold DashboardTab.Sparkline, DashboardTab.Math_min.
    rewrite Hshort. now rewrite (proj2 (Nat.ltb_lt _ _) Hargs).
  - intros Hargs. split.
    { unfold DashboardTab.Sparkline, DashboardTab.Math_min, DashboardTab.Math_max.
      rewrite Hshort, (proj2 (Nat.ltb_ge max_args (List.length values)) Hargs).
      reflexivity. }
    intros Hfin Hspread.
    assert (Hall : Forall Binary64.finite values).
    { rewrite forallb_forall in Hfin. apply Forall_forall. intros v Hv.
      apply is_finite_iff. now apply Hfin. }
    apply is_finite_iff in Hspread.
    destruct (extremes_spec values Hne Hall) as [Flo [Fhi Hext]].
    fold lo hi in Flo, Fhi, Hext.
    assert (Hbox : forall (j : nat) (v : float),
               (j < List.length values)%nat ->
               Binary64.finite v /\ (Binary64.B2Q lo <= Binary64.B2Q v)%Q /\
               (Binary64.B2Q v <= Binary64.B2Q hi)%Q ->
               DashboardTab.in_box (DashboardTab.point (List.length values) lo range j v) = true).
    { intros j v Hj [Fv [Hv1 Hv2]]. unfold DashboardTab.in_box, DashboardTab.point.
      cbn [fst snd].
      destruct (abscissa_in_box (List.length values) j Hlen H53 Hj) as [Hx1 Hx2].
      destruct (ordinate_in_box lo hi v Flo Fhi Fv Hv1 Hv2 Hspread) as [Hy1 Hy2].
      fold range in Hy1, Hy2. now rewrite Hx1, Hx2, Hy1, Hy2. }
    assert (Hboth : Forall (fun v => Binary64.finite v /\
                                     (Binary64.B2Q lo <= Binary64.B2Q v)%Q /\
                                     (Binary64.B2Q v <= Binary64.B2Q hi)%Q) values).
    { rewrite Forall_forall in *. intros v Hv. split; [now apply Hall | now apply Hext]. }
    split; [| split].
    + apply forallb_forall. apply Forall_forall.
      apply (mapi_from_Forall (fun p => DashboardTab.in_box p = true)
               (fun v => Binary64.finite v /\
                         (Binary64.B2Q lo <= Binary64.B2Q v)%Q /\
                         (Binary64.B2Q v <= Binary64.B2Q hi)%Q)
               _ _ (List.length values) 0%nat); [lia | exact Hboth | exact Hbox].
    + assert (Hlast : In (List.last values nan) values) by now apply last_In.
      rewrite Forall_forall in Hboth. destruct (Hboth _ Hlast) as [Fv [Hv1 Hv2]].
      subst ly. unfold DashboardTab.in_box, DashboardTab.point. cbn [fst snd].
      destruct (ordinate_in_box lo hi _ Flo Fhi Fv Hv1 Hv2 Hspread) as [Hy1 Hy2].
      fold range in Hy1, Hy2. rewrite Hy1, Hy2.
      reflexivity.
    + assert (F0 : Binary64.finite 0%float) by reflexivity.
      assert (E0 : (Binary64.B2Q 0 == 0)%Q) by (vm_compute; reflexivity).
      assert (Rd : Binary64.Rounded (Binary64.B2Q hi - Binary64.B2Q lo) (Prim2SF (hi - lo)))
        by now apply Binary64.sub_Rounded.
      assert (Hd0 : (0 <= Binary64.B2Q (hi - lo))%Q).
      { rewrite <- E0. apply Binary64.leb_B2Q; [exact F0 | exact Hspread |].
        apply (Binary64.Rounded_leb 0 (Binary64.B2Q hi - Binary64.B2Q lo)); [| exact Rd |].
        - apply (Binary64.Rounded_compat (Binary64.B2Q 0)); [exact E0 |].
          now apply Binary64.Rounded_B2Q.
        - destruct values as [| v0 rest]; [congruence |].
          inversion Hext as [| ? ? [H1 H2] _]; subst. lra. }
      subst range. unfold DashboardTab.or_1.
      rewrite (finite_not_nan _ Hspread), orb_false_r.
      destruct (hi - lo =? 0)%float eqn:Hz; [reflexivity |].
      apply Binary64.ltb_B2Q; [exact F0 | exact Hspread |]. rewrite E0.
      assert (Hnz : ~ (Binary64.B2Q (hi - lo) == 0)%Q).
      { intros Hx. rewrite <- E0 in Hx.
        apply (Binary64.eqb_B2Q _ _ Hspread F0) in Hx. congruence. }
      lra.
  - split; [apply mapi_from_length |].
    intros Hbox. now apply (in_box_values_finite (List.length values) values Hne).
  - destruct (or_1_usable (hi - lo)) as [Hz Hn].
    destruct (or_1_cases (hi - lo)) as [H1 [_ H2]].
    split; [exact Hz |]. split; [exact Hn |]. split; [exact H1 |]. split; [exact H2 |].
    now apply abscissa_divisor_positive.
Qed.

Lemma C10_witness_constant_series :
  let max_args := 100%nat in
  let values := [5; 5]%float in
  let isAbnormal := true in
  let min := DashboardTab.minimum values in
  let max := DashboardTab.maximum values in
  let range := DashboardTab.or_1 (max - min) in
  let pts := DashboardTab.mapi (DashboardTab.point (List.length values) min range) values in
  let ly := snd (DashboardTab.point (List.length values) min range
                   (List.length values - 1) (List.last values nan)) in
  let color := if isAbnormal then "#f87171" else "#34d399" in
  ((max_args < List.length values)%nat ->
   DashboardTab.Sparkline max_args values isAbnormal = DashboardTab.RangeError) /\
  ((List.length values <= max_args)%nat ->
   DashboardTab.Sparkline max_args values isAbnormal
   = DashboardTab.Chart pts color 78%float ly isAbnormal /\
   (forallb is_finite values = true -> is_finite (max - min)%float = true ->
    forallb DashboardTab.in_box pts = true /\
    DashboardTab.in_box (78%float, ly) = true /\
    (0 <? range)%float = true)) /\
  (List.length pts = List.length values /\
   (forallb DashboardTab.in_box pts = true ->
    forallb is_finite values = true /\ is_finite (max - min)%float = true)) /\
  ((range =? 0)%float = false /\ is_nan range = false /\
   ((max - min =? 0)%float = true -> range = 1%float) /\
   ((max - min =? 0)%float = false -> is_nan (max - min)%float = false ->
    range = (max - min)%float) /\
   (0 <? DashboardTab.of_index (List.length values) - 1)%float = true).
Proof.
  apply (C10_sparkline_points_inside_box 100 [5; 5]%float true); [cbn; lia | cbn; lia].
Defined.

(** *** RiskVisualizationEngine *)

(** The order of binary64 numbers, from the specification of the primitive
    comparisons. *)
Section Binary64Order.

Ltac by_signs :=
  repeat match goal with
         | s : bool |- _ => destruct s
         end;
  solve [discriminate | reflexivity].

Lemma SFcompare_Lt_swap (a b : spec_float) :
  SFcompare a b = Some Lt -> SFcompare b a = Some Gt.
Proof.
  destruct a as [sa | sa | | sa ma ea], b as [sb | sb | | sb mb eb]; cbn;
    try discriminate; try by_signs.
  change (Pos.compare_cont Eq ma mb) with (Pos.compare ma mb).
  change (Pos.compare_cont Eq mb ma) with (Pos.compare mb ma).
  rewrite (Z.compare_antisym ea eb), (Pos.compare_antisym ma mb).
  destruct sa, sb; try discriminate; try reflexivity;
    destruct (ea ?= eb)%Z; cbn; try discriminate; try reflexivity;
    destruct (ma ?= mb)%positive; cbn; try discriminate; reflexivity.
Qed.

Lemma SFcompare_Lt_trans (a b c : spec_float) :
  SFcompare a b = Some Lt -> SFcompare b c = Some Lt -> SFcompare a c = Some Lt.
Proof.
  destruct a as [sa | sa | | sa ma ea], b as [sb | sb | | sb mb eb],
           c as [sc | sc | | sc mc ec]; cbn; try discriminate; try by_signs.
  change (Pos.compare_cont Eq ma mb) with (Pos.compare ma mb).
  change (Pos.compare_cont Eq mb mc) with (Pos.compare mb mc).
  change (Pos.compare_cont Eq ma mc) with (Pos.compare ma mc).
  destruct sa, sb, sc; try discriminate; try reflexivity;
    destruct (Z.compare_spec ea eb), (Z.compare_spec eb ec); try discriminate;
    destruct (Z.compare_spec ea ec); try lia; try reflexivity;
    destruct (Pos.compare_spec ma mb), (Pos.compare_spec mb mc); cbn; try discriminate;
    destruct (Pos.compare_spec ma mc); cbn; try lia; reflexivity.
Qed.

Lemma ltb_not_leb (x y : float) : (x <? y)%float = true -> (y <=? x)%float = false.
Proof.
  rewrite ltb_spec, leb_spec. unfold SFltb, SFleb.
  destruct (SFcompare (Prim2SF x) (Prim2SF y)) as [[| |] |] eqn:Hc; try discriminate.
  intros _. now rewrite (SFcompare_Lt_swap _ _ Hc).
Qed.

Lemma ltb_trans (x y z : float) :
  (x <? y)%float = true -> (y <? z)%float = true -> (x <? z)%float = true.
Proof.
  rewrite !ltb_spec. unfold SFltb.
  destruct (SFcompare (Prim2SF x) (Prim2SF y)) as [[| |] |] eqn:Hxy; try discriminate.
  destruct (SFcompare (Prim2SF y) (Prim2SF z)) as [[| |] |] eqn:Hyz; try discriminate.
  intros _ _. now rewrite (SFcompare_Lt_trans _ _ _ Hxy Hyz).
Qed.

Lemma RiskGauge_color_bands (p : float) :
  ((90 <=? p)%float = true -> ScoringPanel.RiskGauge_color p = ScoringPanel.critical_band) /\
  ((75 <=? p)%float = true -> (p <? 90)%float = true ->
   ScoringPanel.RiskGauge_color p = ScoringPanel.high_band) /\
  ((50 <=? p)%float = true -> (p <? 75)%float = true ->
   ScoringPanel.RiskGauge_color p = ScoringPanel.elevated_band) /\
  ((p <? 50)%float = true -> ScoringPanel.RiskGauge_color p = ScoringPanel.normal_band).
Proof.
  unfold ScoringPanel.RiskGauge_color. repeat split.
  - intros H90. now rewrite H90.
  - intros H75 H90. now rewrite (ltb_not_leb _ _ H90), H75.
  - intros H50 H75.
    assert (H90 : (p <? 90)%float = true) by (apply (ltb_trans p 75 90); [exact H75 | reflexivity]).
    now rewrite (ltb_not_leb _ _ H90), (ltb_not_leb _ _ H75), H50.
  - intros H50.
    assert (H75 : (p <? 75)%float = true) by (apply (ltb_trans p 50 75); [exact H50 | reflexivity]).
    assert (H90 : (p <? 90)%float = true) by (apply (ltb_trans p 75 90); [exact H75 | reflexivity]).
    now rewrite (ltb_not_leb _ _ H90), (ltb_not_leb _ _ H75), (ltb_not_leb _ _ H50).
Qed.

End Binary64Order.

Section GaugeAngle.
Import Binary64.

Ltac const_finite := unfold finite; vm_compute; reflexivity.

Lemma B2Q_100 : (B2Q 100 == 100)%Q. Proof. vm_compute. reflexivity. Qed.
Lemma B2Q_180 : (B2Q 180 == 180)%Q. Proof. vm_compute. reflexivity. Qed.
Lemma B2Q_90 : (B2Q 90 == 90)%Q. Proof. vm_compute. reflexivity. Qed.
Lemma B2Q_0 : (B2Q 0 == 0)%Q. Proof. vm_compute. reflexivity. Qed.
Lemma B2Q_1 : (B2Q 1 == 1)%Q. Proof. vm_compute. reflexivity. Qed.
Lemma B2Q_m90 : (B2Q (-90) == -90)%Q. Proof. vm_compute. reflexivity. Qed.

(** On [0, 100] every intermediate result is finite; the three roundings
    add up to less than 2^-44. *)
Lemma RiskGauge_angle_range (p : float) :
  (0 <=? p)%float = true -> (p <=? 100)%float = true ->
  (-90 <=? ScoringPanel.RiskGauge_angle p)%float = true /\
  (ScoringPanel.RiskGauge_angle p <=? 90)%float = true /\
  (- (1 # 17592186044416) <= B2Q (ScoringPanel.RiskGauge_angle p) - (B2Q p / 100 * 180 - 90))%Q /\
  (B2Q (ScoringPanel.RiskGauge_angle p) - (B2Q p / 100 * 180 - 90) <= 1 # 17592186044416)%Q.
Proof.
  intros H0 H100.
  assert (F0 : finite 0%float) by const_finite.
  assert (F1 : finite 1%float) by const_finite.
  assert (F90 : finite 90%float) by const_finite.
  assert (Fm90 : finite (-90)%float) by const_finite.
  assert (F100 : finite 100%float) by const_finite.
  assert (F180 : finite 180%float) by const_finite.
  assert (Fp : finite p) by (apply (between_finite 0 p 100); assumption).
  apply (leb_B2Q 0 p F0 Fp) in H0. apply (leb_B2Q p 100 Fp F100) in H100.
  rewrite B2Q_0 in H0. rewrite B2Q_100 in H100.
  unfold ScoringPanel.RiskGauge_angle.
  (* p / 100 *)
  assert (Ra : Rounded (B2Q p / 100) (Prim2SF (p / 100)))
    by (apply div_rounds; [assumption | assumption | reflexivity | exact B2Q_100 | lra]).
  set (a := (p / 100)%float) in *.
  assert (Hr1 : (B2Q p / 100 == B2Q p * (1 # 100))%Q) by field.
  destruct (Rounded_within _ 0 1 0 a 1 Ra F0 F1 B2Q_0 B2Q_1) as [Fa [Ha0 Ha1]];
    [rewrite Hr1; lra | rewrite Hr1; lra |].
  destruct (Rounded_error _ _ 1 Ra Fa) as [Ea1 Ea2];
    [change (pow2 1) with 2%Q; rewrite Hr1; lra
    | change (pow2 1) with 2%Q; rewrite Hr1; lra |].
  change (pow2 (Z.max (1 - 53) (-1074) - 1)) with (1 # 9007199254740992)%Q in Ea1, Ea2.
  fold (B2Q a) in Ea1, Ea2.
  (* a * 180 *)
  assert (Rb : Rounded (B2Q a * 180) (Prim2SF (a * 180)))
    by (apply mul_rounds; [assumption | assumption | reflexivity | exact B2Q_180]).
  set (b := (a * 180)%float) in *.
  destruct (Rounded_within _ 0 180 0 b 180 Rb F0 F180 B2Q_0 B2Q_180) as [Fb [Hb0 Hb1]];
    [lra | lra |].
  destruct (Rounded_error _ _ 8 Rb Fb) as [Eb1 Eb2];
    [change (pow2 8) with 256%Q; lra | change (pow2 8) with 256%Q; lra |].
  change (pow2 (Z.max (8 - 53) (-1074) - 1)) with (1 # 70368744177664)%Q in Eb1, Eb2.
  fold (B2Q b) in Eb1, Eb2.
  (* b - 90 *)
  assert (Rc : Rounded (B2Q b - 90) (Prim2SF (b - 90)))
    by (apply sub_rounds; [assumption | assumption | reflexivity | exact B2Q_90]).
  set (c := (b - 90)%float) in *.
  destruct (Rounded_within _ (-90) 90 (-90) c 90 Rc Fm90 F90 B2Q_m90 B2Q_90)
    as [Fc [Hc0 Hc1]]; [lra | lra |].
  destruct (Rounded_error _ _ 7 Rc Fc) as [Ec1 Ec2];
    [change (pow2 7) with 128%Q; lra | change (pow2 7) with 128%Q; lra |].
  change (pow2 (Z.max (7 - 53) (-1074) - 1)) with (1 # 140737488355328)%Q in Ec1, Ec2.
  fold (B2Q c) in Ec1, Ec2.
  split; [apply leb_B2Q; [assumption | assumption | now rewrite B2Q_m90] |].
  split; [apply leb_B2Q; [assumption | assumption | now rewrite B2Q_90] |].
  rewrite Hr1 in *. split; lra.
Qed.

End GaugeAngle.

(** C7 as stated fails on binary64 numbers: at the percentile 35 the
    expression evaluates to -27.000000000000007, which is not the number
    35/100 x 180 - 90 = -27. *)
Lemma C7_angle_at_35_is_not_exact :
  ScoringPanel.RiskGauge_angle 35 = (-27.000000000000007)%float /\
  (ScoringPanel.RiskGauge_angle 35 =? -27)%float = false /\
  (Binary64.B2Q 35 / 100 * 180 - 90 == -27)%Q /\
  (Binary64.B2Q (ScoringPanel.RiskGauge_angle 35) < -27)%Q /\
  (0 <=? 35)%float = true /\ (35 <=? 100)%float = true.
Proof. vm_compute. repeat split; reflexivity. Qed.

(** C7 (amended). For every binary64 percentile between 0 and 100 the
    needle angle is the binary64 value of (percentile / 100) * 180 - 90: a
    finite number between -90 and 90 that differs from the exact
    percentile/100 x 180 - 90 by at most 2^-44 degrees. The colour is that
    of the critical band from 90 up, of the high band from 75 up to 90, of
    the elevated band from 50 up to 75 and of the normal band below 50. At
    95 the band is critical and the angle is exactly 81; at 50 the angle is
    exactly 0; at 0 and 100 it is exactly -90 and 90. *)
Theorem C7_gauge_angle_and_bands :
  forall p : float,
    (0 <=? p)%float = true -> (p <=? 100)%float = true ->
    (ScoringPanel.RiskGauge_angle p = (p / 100 * 180 - 90)%float /\
     is_finite (ScoringPanel.RiskGauge_angle p) = true /\
     (-90 <=? ScoringPanel.RiskGauge_angle p)%float = true /\
     (ScoringPanel.RiskGauge_angle p <=? 90)%float = true /\
     (- (1 # 17592186044416)
      <= Binary64.B2Q (ScoringPanel.RiskGauge_angle p) - (Binary64.B2Q p / 100 * 180 - 90))%Q /\
     (Binary64.B2Q (ScoringPanel.RiskGauge_angle p) - (Binary64.B2Q p / 100 * 180 - 90)
      <= 1 # 17592186044416)%Q) /\
    (((90 <=? p)%float = true -> ScoringPanel.RiskGauge_color p = ScoringPanel.critical_band) /\
     ((75 <=? p)%float = true -> (p <? 90)%float = true ->
      ScoringPanel.RiskGauge_color p = ScoringPanel.high_band) /\
     ((50 <=? p)%float = true -> (p <? 75)%float = true ->
      ScoringPanel.RiskGauge_color p = ScoringPanel.elevated_band) /\
     ((p <? 50)%float = true -> ScoringPanel.RiskGauge_color p = ScoringPanel.normal_band)) /\
    (ScoringPanel.RiskGauge_angle 95 = 81%float /\
     ScoringPanel.RiskGauge_color 95 = ScoringPanel.critical_band /\
     ScoringPanel.RiskGauge_angle 50 = 0%float /\
     ScoringPanel.RiskGauge_color 50 = ScoringPanel.elevated_band /\
     ScoringPanel.RiskGauge_angle 0 = (-90)%float /\
     ScoringPanel.RiskGauge_angle 100 = 90%float).
Proof.
  intros p H0 H100.
  destruct (RiskGauge_angle_range p H0 H100) as [Hlo [Hhi [He1 He2]]].
  split; [| split].
  - split; [reflexivity |].
    split; [| repeat split; assumption].
    apply is_finite_iff.
    apply (Binary64.between_finite (-90) _ 90); [reflexivity | reflexivity | assumption | assumption].
  - exact (RiskGauge_color_bands p).
  - repeat split; reflexivity.
Qed.

Lemma C7_witness_percentile_35 :
  (ScoringPanel.RiskGauge_angle 35 = (35 / 100 * 180 - 90)%float /\
   is_finite (ScoringPanel.RiskGauge_angle 35) = true /\
   (-90 <=? ScoringPanel.RiskGauge_angle 35)%float = true /\
   (ScoringPanel.RiskGauge_angle 35 <=? 90)%float = true /\
   (- (1 # 17592186044416)
    <= Binary64.B2Q (ScoringPanel.RiskGauge_angle 35) - (Binary64.B2Q 35 / 100 * 180 - 90))%Q /\
   (Binary64.B2Q (ScoringPanel.RiskGauge_angle 35) - (Binary64.B2Q 35 / 100 * 180 - 90)
    <= 1 # 17592186044416)%Q) /\
  (((90 <=? 35)%float = true -> ScoringPanel.RiskGauge_color 35 = ScoringPanel.critical_band) /\
   ((75 <=? 35)%float = true -> (35 <? 90)%float = true ->
    ScoringPanel.RiskGauge_color 35 = ScoringPanel.high_band) /\
   ((50 <=? 35)%float = true -> (35 <? 75)%float = true ->
    ScoringPanel.RiskGauge_color 35 = ScoringPanel.elevated_band) /\
   ((35 <? 50)%float = true -> ScoringPanel.RiskGauge_color 35 = ScoringPanel.normal_band)) /\
  (ScoringPanel.RiskGauge_angle 95 = 81%float /\
   ScoringPanel.RiskGauge_color 95 = ScoringPanel.critical_band /\
   ScoringPanel.RiskGauge_angle 50 = 0%float /\
   ScoringPanel.RiskGauge_color 50 = ScoringPanel.elevated_band /\
   ScoringPanel.RiskGauge_angle 0 = (-90)%float /\
   ScoringPanel.RiskGauge_angle 100 = 90%float).
Proof. apply (C7_gauge_angle_and_bands 35%float); reflexivity. Defined.

(** *** ConsoleExecutor *)

Section Executor.
Import Js EsqlTab.

Lemma run_begin_while_running (st : EsqlState) :
  running st = true -> run_begin st = (st, None).
Proof.
  intros Hr. unfold run_begin. rewrite Hr, orb_true_r. reflexivity.
Qed.

Lemma submit_while_running (c : Console) :
  running (ui c) = true -> step c Submit = c.
Proof.
  intros Hr. cbn [step]. rewrite (run_begin_while_running _ Hr).
  destruct c as [st out]. cbn. now rewrite app_nil_r.
Qed.

Lemma run_settle_not_running (r : settled) (st : EsqlState) :
  running (run_settle r st) = false.
Proof. reflexivity. Qed.

Lemma step_one_at_a_time (c : Console) (e : event) :
  one_at_a_time c -> one_at_a_time (step c e).
Proof.
  destruct c as [st out]. unfold one_at_a_time. cbn [outstanding ui].
  destruct e as [| i r | q | i q]; cbn [step outstanding ui].
  - unfold run_begin. destruct out as [| r0 [| r1 out]]; intros Hinv; try contradiction.
    + rewrite Hinv, orb_false_r. destruct (blank (query st)); cbn; [exact Hinv | reflexivity].
    + rewrite Hinv, orb_true_r. cbn. exact Hinv.
  - destruct out as [| r0 [| r1 out]]; intros Hinv; try contradiction.
    + destruct i; cbn; exact Hinv.
    + destruct i as [| i]; cbn.
      * reflexivity.
      * destruct i; cbn; exact Hinv.
  - destruct out as [| r0 [| r1 out]]; intros Hinv; try contradiction; exact Hinv.
  - destruct out as [| r0 [| r1 out]]; intros Hinv; try contradiction; exact Hinv.
Qed.

Lemma reachable_one_at_a_time (first_example : string) (es : list event) :
  one_at_a_time (steps (start first_example) es).
Proof.
  unfold steps. apply fold_left_preserves.
  - intros c e. apply step_one_at_a_time.
  - reflexivity.
Qed.

Lemma one_at_a_time_bound (c : Console) :
  one_at_a_time c ->
  List.length (outstanding c) <= 1 /\
  (running (ui c) = true <-> List.length (outstanding c) = 1).
Proof.
  unfold one_at_a_time. destruct (outstanding c) as [| r0 [| r1 out]]; cbn; intros Hinv.
  - split; [lia |]. rewrite Hinv. split; discriminate.
  - split; [lia |]. rewrite Hinv. split; reflexivity.
  - contradiction.
Qed.

End Executor.

(** C9. A submission made while the executor is running changes nothing:
    the state (running flag, result, error and the rest) is returned as it
    was and no request leaves. Hence, along any sequence of submissions,
    responses, edits and example picks from the initial console, at most one
    request is ever outstanding, and one is outstanding exactly while the
    running flag is up: a response always meets the state its own dispatch
    created, never that of a later dispatch. *)
Theorem C9_submission_while_running_is_noop :
  forall (st : EsqlTab.EsqlState) (first_example : string) (es : list EsqlTab.event),
    EsqlTab.running st = true ->
    let c := EsqlTab.steps (EsqlTab.start first_example) es in
    EsqlTab.run_begin st = (st, None) /\
    (EsqlTab.running (EsqlTab.ui c) = true -> EsqlTab.step c EsqlTab.Submit = c) /\
    (List.length (EsqlTab.outstanding c) <= 1)%nat /\
    (EsqlTab.running (EsqlTab.ui c) = true <-> List.length (EsqlTab.outstanding c) = 1%nat).
Proof.
  intros st first_example es Hr c.
  split; [now apply run_begin_while_running |].
  split; [apply submit_while_running |].
  apply one_at_a_time_bound. apply reachable_one_at_a_time.
Qed.

Lemma C9_witness_double_submit :
  EsqlTab.run_begin console_running = (console_running, None) /\
  (EsqlTab.running
     (EsqlTab.ui (EsqlTab.steps (EsqlTab.start "FROM lab-results | LIMIT 10")
                    [EsqlTab.Submit; EsqlTab.Submit])) = true ->
   EsqlTab.step
     (EsqlTab.steps (EsqlTab.start "FROM lab-results | LIMIT 10")
        [EsqlTab.Submit; EsqlTab.Submit]) EsqlTab.Submit
   = EsqlTab.steps (EsqlTab.start "FROM lab-results | LIMIT 10")
       [EsqlTab.Submit; EsqlTab.Submit]) /\
  (List.length
     (EsqlTab.outstanding
        (EsqlTab.steps (EsqlTab.start "FROM lab-results | LIMIT 10")
           [EsqlTab.Submit; EsqlTab.Submit])) <= 1)%nat /\
  (EsqlTab.running
     (EsqlTab.ui (EsqlTab.steps (EsqlTab.start "FROM lab-results | LIMIT 10")
                    [EsqlTab.Submit; EsqlTab.Submit])) = true <->
   List.length
     (EsqlTab.outstanding
        (EsqlTab.steps (EsqlTab.start "FROM lab-results | LIMIT 10")
           [EsqlTab.Submit; EsqlTab.Submit])) = 1%nat).
Proof.
  apply (C9_submission_while_running_is_noop console_running
           "FROM lab-results | LIMIT 10" [EsqlTab.Submit; EsqlTab.Submit]).
  reflexivity.
Defined.

(** *** The model on the inputs of the specification's scenarios *)

Section Scenarios.
Import Js.

Example url_is_normalized :
  Page.normalized_url (Page.API None)
    (Some "http://localhost:8000/api/alerts/feed?patient_id=PAT001")
  = "/api/alerts/feed".
Proof. reflexivity. Qed.

Example health_probe_is_not_tapped :
  Page.tapped (Page.normalized_url (Page.API None) (Some "http://localhost:8000/health")) = false
  /\ Page.tapped "/api/mcp/health-check" = false
  /\ Page.tapped "/api/patients" = true.
Proof. repeat split; reflexivity. Qed.

(** A response is attributed to the head placeholder of the same path. *)
Example response_fills_placeholder :
  Page.esqlFeed
    (Page.tap_all (Page.API None)
       [Page.Request (Some "http://localhost:8000/api/patients/PAT001/biomarkers");
        Page.Request (Some "http://localhost:8000/health");
        Page.Response (Some "http://localhost:8000/api/patients/PAT001/biomarkers")
          (VObj [("biomarkers", VArr [VNull; VNull; VNull]); ("esql_ms", VNum 12%Q)])]
       Page.initial)
  = [Page.mkFeedEntry "/api/patients/PAT001/biomarkers" (VNum 12%Q) (VNum 3%Q)].
Proof. reflexivity. Qed.

(** With another request in between, the response of the first is dropped. *)
Example interleaved_response_is_dropped :
  Page.esqlFeed
    (Page.tap_all (Page.API None)
       [Page.Request (Some "http://localhost:8000/api/patients/PAT001/summary");
        Page.Request (Some "http://localhost:8000/api/patients/PAT001/risk-score");
        Page.Response (Some "http://localhost:8000/api/patients/PAT001/summary")
          (VObj [("total", VNum 7%Q)])]
       Page.initial)
  = [Page.mkFeedEntry "/api/patients/PAT001/risk-score" (VNum 0%Q) (VNum 0%Q);
     Page.mkFeedEntry "/api/patients/PAT001/summary" (VNum 0%Q) (VNum 0%Q)].
Proof. reflexivity. Qed.

Example probe_success_then_failure :
  let body := VObj [("elasticsearch", VStr "connected"); ("lab_results_count", VNum 120%Q)] in
  let st1 := Page.checkStatus_settle 1000 1042 "10:00:00" (Fulfilled body) Page.initial in
  let st2 := Page.checkStatus_settle 21000 21500 "10:00:20" (Rejected VNull) st1 in
  Page.status st1
  = Some (Page.mkSysStatus true (VNum 120%Q) (VBool false) 42 "10:00:00") /\
  Page.status st2
  = Some (Page.mkSysStatus false (VNum 120%Q) (VBool false) 42 "10:00:00") /\
  Page.status (Page.checkStatus_settle 0 9 "10:00:00" (Rejected VNull) Page.initial) = None.
Proof. repeat split; reflexivity. Qed.

(** Summary and biomarkers succeed, risk score and alerts fail. *)
Example partial_failure_cycle :
  let rs := DashboardTab.mkSettled4
              (Fulfilled (VObj [("total_tests", VNum 3%Q)]))
              (Fulfilled (VObj [("biomarkers", VArr [VObj []])]))
              (Rejected VNull) (Rejected VNull) in
  let st' := DashboardTab.after_load "PAT001" 0 40 "10:00:00" rs DashboardTab.initial in
  DashboardTab.summary st' = VObj [("total_tests", VNum 3%Q)] /\
  DashboardTab.biomarkers st' = VArr [VObj []] /\
  DashboardTab.risk st' = VNull /\
  DashboardTab.alerts st' = VArr [] /\
  DashboardTab.loading st' = false /\
  map DashboardTab.ms (DashboardTab.queryLog st') = [13%Z; 10%Z] /\
  snd (DashboardTab.load "PAT001" 0 40 "10:00:00" rs) = Some tt.
Proof. vm_compute. repeat split; reflexivity. Qed.

Example constant_series_chart :
  DashboardTab.Sparkline 100 [5; 5]%float true
  = DashboardTab.Chart [(2, 22); (78, 22)]%float "#f87171" 78%float 22%float true.
Proof. vm_compute. reflexivity. Qed.

Example console_run_and_error :
  let c1 := EsqlTab.steps (EsqlTab.start "FROM lab-results | LIMIT 10") [EsqlTab.Submit] in
  let c2 := EsqlTab.step c1
              (EsqlTab.Settle 0 (Fulfilled (VObj [("status", VStr "error");
                                                  ("error", VStr "parsing_exception")]))) in
  EsqlTab.outstanding c1 = [EsqlTab.mkRun "FROM lab-results | LIMIT 10" 100] /\
  EsqlTab.running (EsqlTab.ui c1) = true /\
  EsqlTab.running (EsqlTab.ui c2) = false /\
  EsqlTab.error (EsqlTab.ui c2) = VStr "parsing_exception" /\
  EsqlTab.outstanding c2 = [].
Proof. repeat split; reflexivity. Qed.

End Scenarios.

(* ================================================================== *)
(** ** Further properties of the code                                  *)
(* ================================================================== *)

(** *** The telemetry tap beyond its bounds *)

Section TapInvariants.
Import Js Page.

Lemma attribute_labels (url : string) (m r : value) (prev : list FeedEntry) :
  map label (attribute url m r prev) = map label prev /\
  tl (attribute url m r prev) = tl prev.
Proof.
  destruct prev as [| head rest]; cbn; [split; reflexivity |].
  destruct (String.eqb (label head) url) eqn:He; cbn; [| split; reflexivity].
  apply String.eqb_eq in He. rewrite He. split; reflexivity.
Qed.

Lemma coalesce_default (a d : value) : nullish d = false -> nullish (coalesce a d) = false.
Proof. intros Hd. unfold coalesce. destruct (nullish a) eqn:Ha; assumption. Qed.

Lemma extract_rows_present (data : value) : nullish (extract_rows data) = false.
Proof. unfold extract_rows. now apply coalesce_default. Qed.

Lemma extract_ms_present (data : value) : nullish (extract_ms data) = false.
Proof. unfold extract_ms. now apply coalesce_default. Qed.

Lemma prefix_one_char (c a : ascii) (rest : string) :
  String.prefix (String c EmptyString) (String a rest) = Ascii.eqb a c.
Proof.
  cbn. destruct (ascii_dec c a) as [-> | Hne].
  - rewrite Ascii.eqb_refl. now destruct rest.
  - symmetry. apply Ascii.eqb_neq. congruence.
Qed.

(** What stands before the first [sep] holds no [sep]. *)
Lemma before_has_no_sep (sep : ascii) (s : string) :
  includes (before sep s) (String sep EmptyString) = false.
Proof.
  unfold includes. induction s as [| a rest IH]; [reflexivity |].
  cbn [before]. destruct (Ascii.eqb a sep) eqn:Ha; [reflexivity |].
  cbn [index_of]. rewrite prefix_one_char, Ha.
  destruct (index_of (String sep EmptyString) (before sep rest)); [discriminate | reflexivity].
Qed.

Lemma normalized_url_no_query (api : string) (u : option string) :
  includes (normalized_url api u) "?" = false.
Proof. unfold normalized_url. apply before_has_no_sep. Qed.

(** An entry as the interceptors write it. *)
Definition well_formed_entry (e : FeedEntry) : Prop :=
  startsWith (label e) "/api/" = true /\
  includes (label e) "health" = false /\
  includes (label e) "?" = false /\
  nullish (ms e) = false /\ nullish (rows e) = false.

Lemma tapped_parts (url : string) :
  tapped url = true -> startsWith url "/api/" = true /\ includes url "health" = false.
Proof.
  unfold tapped. intros Ht. apply andb_prop in Ht. destruct Ht as [H1 H2].
  split; [exact H1 | now apply negb_true_iff in H2].
Qed.

Lemma tap_keeps_entries_well_formed (api : string) (st : AppState) (e : tap_event) :
  Forall well_formed_entry (esqlFeed st) ->
  Forall well_formed_entry (esqlFeed (tap api st e)).
Proof.
  intros Hl.
  destruct e as [u | u d]; cbn [tap]; unfold on_request, on_response;
    destruct (tapped (normalized_url api u)) eqn:Ht; try exact Hl;
    cbn [esqlFeed setEsqlFeed]; apply tapped_parts in Ht; destruct Ht as [Hp Hh].
  - unfold push_placeholder. apply Forall_firstn_of. constructor; [| exact Hl].
    repeat split; try assumption; try reflexivity. apply normalized_url_no_query.
  - unfold attribute. destruct (esqlFeed st) as [| head rest]; [constructor |].
    destruct (String.eqb (label head) (normalized_url api u)); [| exact Hl].
    inversion Hl; subst. constructor; [| assumption].
    repeat split; try assumption.
    + apply normalized_url_no_query.
    + apply extract_ms_present.
    + apply extract_rows_present.
Qed.

End TapInvariants.

(** X1. A response never adds, removes or reorders entries of the feed and
    never changes a label: whatever the URL and the body, the labels and
    everything behind the head stay as they were. *)
Theorem response_keeps_labels_and_tail :
  forall (api : string) (u : option string) (data : Js.value) (st : Page.AppState),
    let feed' := Page.esqlFeed (Page.on_response api u data st) in
    map Page.label feed' = map Page.label (Page.esqlFeed st) /\
    tl feed' = tl (Page.esqlFeed st) /\
    List.length feed' = List.length (Page.esqlFeed st).
Proof.
  intros api u data st feed'. subst feed'. unfold Page.on_response.
  destruct (Page.tapped (Page.normalized_url api u)); [| repeat split; reflexivity].
  cbn [Page.esqlFeed Page.setEsqlFeed].
  destruct (attribute_labels (Page.normalized_url api u) (Page.extract_ms data)
              (Page.extract_rows data) (Page.esqlFeed st)) as [Hl Ht].
  split; [exact Hl | split; [exact Ht |]].
  now rewrite <- (length_map Page.label), Hl, length_map.
Qed.

(** X2. Whatever passes the interceptors, every entry of the feed has a
    label that starts with /api/, holds neither "health" nor a query string,
    and carries a latency and a cardinality that are neither null nor
    undefined. *)
Theorem feed_entries_well_formed :
  forall (api : string) (es : list Page.tap_event),
    Forall well_formed_entry (Page.esqlFeed (Page.tap_all api es Page.initial)).
Proof.
  intros api es. unfold Page.tap_all.
  apply (fold_left_preserves (fun s => Forall well_formed_entry (Page.esqlFeed s))).
  - intros s e. apply tap_keeps_entries_well_formed.
  - constructor.
Qed.

(** X3. A tapped request directly followed by its own response leaves the
    feed with the measured entry at the head and the newest five of the
    earlier entries behind it. *)
Theorem request_then_response_fills_head :
  forall (api : string) (u : option string) (data : Js.value) (st : Page.AppState),
    Page.tapped (Page.normalized_url api u) = true ->
    Page.esqlFeed (Page.on_response api u data (Page.on_request api u st))
    = Page.mkFeedEntry (Page.normalized_url api u) (Page.extract_ms data)
        (Page.extract_rows data)
      :: firstn 5 (Page.esqlFeed st).
Proof.
  intros api u data st Ht. unfold Page.on_response, Page.on_request. rewrite Ht.
  cbn [Page.esqlFeed Page.setEsqlFeed]. rewrite push_placeholder_eq.
  cbn [Page.attribute Page.label]. now rewrite String.eqb_refl.
Qed.

Lemma request_then_response_fills_head_witness :
  Page.esqlFeed
    (Page.on_response "http://localhost:8000" (Some "http://localhost:8000/api/patients?x=1")
       (Js.VObj [("total", Js.VNum 4%Q)])
       (Page.on_request "http://localhost:8000" (Some "http://localhost:8000/api/patients?x=1")
          Page.initial))
  = Page.mkFeedEntry
      (Page.normalized_url "http://localhost:8000" (Some "http://localhost:8000/api/patients?x=1"))
      (Page.extract_ms (Js.VObj [("total", Js.VNum 4%Q)]))
      (Page.extract_rows (Js.VObj [("total", Js.VNum 4%Q)]))
    :: firstn 5 (Page.esqlFeed Page.initial).
Proof.
  apply (request_then_response_fills_head "http://localhost:8000"
           (Some "http://localhost:8000/api/patients?x=1")).
  reflexivity.
Defined.

(** *** The status monitor over several probes *)

Section Probes.
Import Js Page.

(** A probe that ends in the [catch] of [checkStatus]: rejected, or
    fulfilled with a body that cannot be read. *)
Definition probe_failed (r : settled) : bool :=
  match r with
  | Rejected _ => true
  | Fulfilled data => nullish data
  end.

(** One settled probe with its clock readings. *)
Record Probe : Type := mkProbe {
  p_t0 : Z;
  p_now : Z;
  p_clock : string;
  p_result : settled
}.

Definition after_probe (st : AppState) (p : Probe) : AppState :=
  checkStatus_settle (p_t0 p) (p_now p) (p_clock p) (p_result p) st.

Definition after_probes (st : AppState) (ps : list Probe) : AppState :=
  fold_left after_probe ps st.

(** The snapshot with only its connectivity flag off. *)
Definition offline (s : SysStatus) : SysStatus :=
  mkSysStatus false (doc_count s) (mcp_enabled s) (latency_ms s) (last_checked s).

Lemma failed_probe_degrades (t0 now : Z) (clock : string) (r : settled) (st : AppState) :
  probe_failed r = true ->
  status (checkStatus_settle t0 now clock r st) = degrade (status st).
Proof.
  destruct r as [data | reason]; cbn [probe_failed]; intros Hf; [| reflexivity].
  now rewrite checkStatus_bodyless.
Qed.

Lemma answered_probe_replaces (t0 now : Z) (clock : string) (data : value) (st : AppState) :
  nullish data = false ->
  status (checkStatus_settle t0 now clock (Fulfilled data) st)
  = Some (mkSysStatus (is_str (prop data "elasticsearch") "connected")
            (coalesce (prop data "lab_results_count") (VNum 0%Q))
            (coalesce (prop data "mcp_enabled") (VBool false)) (now - t0) clock).
Proof.
  intros Hn. unfold checkStatus_settle, status_of_health, get. now rewrite Hn.
Qed.

Lemma offline_offline (s : SysStatus) : offline (offline s) = offline s.
Proof. reflexivity. Qed.

End Probes.

(** X4. After a probe the status is null exactly when it was null before
    and the probe failed; and a status that exists reports a connection
    exactly when this very probe was answered with
    [elasticsearch === 'connected']: no snapshot kept from earlier ever
    shows a connection after a failure. *)
Theorem probe_null_and_connected_exactly :
  forall (t0 now : Z) (clock : string) (r : Js.settled) (st : Page.AppState),
    let st' := Page.checkStatus_settle t0 now clock r st in
    (Page.status st' = None <-> Page.status st = None /\ probe_failed r = true) /\
    (forall s', Page.status st' = Some s' ->
       (Page.es_connected s' = true <->
        exists data, r = Js.Fulfilled data /\ Js.nullish data = false /\
                     Js.is_str (Js.prop data "elasticsearch") "connected" = true)).
Proof.
  intros t0 now clock r st st'. subst st'.
  destruct (probe_failed r) eqn:Hf.
  - rewrite (failed_probe_degrades t0 now clock r st Hf). split.
    + destruct (Page.status st) as [s |]; cbn; split; try discriminate; auto.
      intros [Hs _]. discriminate.
    + intros s' Hs'. destruct (Page.status st) as [s |]; cbn in Hs'; [| discriminate].
      injection Hs' as <-. cbn. split; [discriminate |].
      intros [data [Hr [Hn _]]]. subst r. cbn in Hf. congruence.
  - destruct r as [data | reason]; cbn in Hf; [| discriminate].
    rewrite (answered_probe_replaces t0 now clock data st Hf). split.
    + split; [discriminate | intros [_ Hx]; discriminate].
    + intros s' [= <-]. cbn. split.
      * intros Hc. exists data. auto.
      * intros [d [[= <-] [_ Hc]]]. exact Hc.
Qed.

(** X5. A run of failed probes, however long, leaves exactly the snapshot
    that was there before it with its connectivity flag off: document
    count, feature flag, latency and last-checked time are those of the
    last successful probe. *)
Theorem failed_probes_keep_last_snapshot :
  forall (ps : list Probe) (st : Page.AppState) (s : Page.SysStatus),
    Page.status st = Some s ->
    ps <> [] ->
    Forall (fun p => probe_failed (p_result p) = true) ps ->
    Page.status (after_probes st ps) = Some (offline s).
Proof.
  intros ps st s Hs Hne Hall.
  assert (Hgen : forall ps' st' s',
             Forall (fun p => probe_failed (p_result p) = true) ps' ->
             Page.status st' = Some s' ->
             Page.status (after_probes st' ps')
             = Some (match ps' with [] => s' | _ :: _ => offline s' end)).
  { induction ps' as [| p ps' IH]; intros st' s' Hall' Hs'; [exact Hs' |].
    inversion Hall' as [| ? ? Hp Hrest]; subst.
    unfold after_probes. cbn [fold_left]. fold (after_probes (after_probe st' p) ps').
    assert (Hone : Page.status (after_probe st' p) = Some (offline s')).
    { unfold after_probe. rewrite (failed_probe_degrades _ _ _ _ _ Hp), Hs'. reflexivity. }
    rewrite (IH _ _ Hrest Hone). destruct ps'; reflexivity. }
  rewrite (Hgen ps st s Hall Hs). destruct ps; [congruence | reflexivity].
Qed.

Lemma failed_probes_keep_last_snapshot_witness :
  Page.status
    (after_probes
       (Page.checkStatus_settle 0 42 "10:00:00"
          (Js.Fulfilled (Js.VObj [("elasticsearch", Js.VStr "connected")])) Page.initial)
       [mkProbe 20000 20900 "10:00:20" (Js.Rejected Js.VNull);
        mkProbe 40000 40001 "10:00:40" (Js.Fulfilled Js.VNull)])
  = Some (offline (Page.mkSysStatus true (Js.VNum 0%Q) (Js.VBool false) 42 "10:00:00")).
Proof.
  apply failed_probes_keep_last_snapshot.
  - reflexivity.
  - discriminate.
  - repeat constructor.
Defined.

(** *** The patient registry beyond the fail-over scenario *)

Section RosterFacts.
Import Js Page.

Definition rows_of (data_patients : option (list RosterRow)) : list RosterRow :=
  match data_patients with Some l => l | None => [] end.

Lemma take_length (n : nat) (s : string) : String.length (take n s) <= n.
Proof.
  revert s. induction n as [| n IH]; intros s; [destruct s; reflexivity |].
  destruct s as [| c rest]; cbn; [lia |]. specialize (IH rest). lia.
Qed.

Lemma take_prefix (n : nat) (s : string) : String.prefix (take n s) s = true.
Proof.
  revert s. induction n as [| n IH]; intros s; [destruct s; reflexivity |].
  destruct s as [| c rest]; cbn; [reflexivity |].
  destruct (ascii_dec c c) as [_ | Hne]; [apply IH | congruence].
Qed.

Lemma patients_after_load (id : string) (data_patients : option (list RosterRow))
      (st : AppState) :
  patients (loadPatients_settle id (RosterOk data_patients) st)
  = map to_patient (rows_of data_patients).
Proof.
  unfold loadPatients_settle. fold (rows_of data_patients).
  destruct (map to_patient (rows_of data_patients)) as [| p ps] eqn:Hrows; [reflexivity |].
  destruct (find_patient id (p :: ps)); reflexivity.
Qed.

Lemma patientId_after_load (id : string) (data_patients : option (list RosterRow))
      (st : AppState) :
  patientId (loadPatients_settle id (RosterOk data_patients) st)
  = match map to_patient (rows_of data_patients),
          find_patient id (map to_patient (rows_of data_patients)) with
    | first :: _, None => patient_id first
    | _, _ => patientId st
    end.
Proof.
  unfold loadPatients_settle. fold (rows_of data_patients).
  destruct (map to_patient (rows_of data_patients)) as [| p ps] eqn:Hrows; [reflexivity |].
  destruct (find_patient id (p :: ps)); reflexivity.
Qed.

Lemma patientId_after_nonempty_load (id : string) (first : RosterRow) (rest : list RosterRow)
      (st : AppState) :
  patientId (loadPatients_settle id (RosterOk (Some (first :: rest))) st)
  = match find_patient id (map to_patient (first :: rest)) with
    | Some _ => patientId st
    | None => r_patient_id first
    end.
Proof.
  rewrite patientId_after_load. cbn [rows_of map].
  destruct (find_patient id (to_patient first :: map to_patient rest)); reflexivity.
Qed.

Lemma alert_after_load (id : string) (data_patients : option (list RosterRow))
      (st : AppState) :
  criticalAlert (loadPatients_settle id (RosterOk data_patients) st)
  = match find_patient id (map to_patient (rows_of data_patients)) with
    | Some c => if (0 <? critical c)%Z then Some (alert_text id (critical c)) else None
    | None => None
    end.
Proof.
  unfold loadPatients_settle. fold (rows_of data_patients).
  destruct (map to_patient (rows_of data_patients)) as [| p ps] eqn:Hrows; [reflexivity |].
  destruct (find_patient id (p :: ps)); reflexivity.
Qed.

End RosterFacts.

(** X6. When no patient switch came between the call and its answer, a
    successful load of a non-empty roster always ends with the active
    patient being one of the listed patients: the id is kept when the
    roster holds it and moved to the first row when it does not. *)
Theorem active_patient_is_listed_after_load :
  forall (first : Page.RosterRow) (rest : list Page.RosterRow) (st : Page.AppState),
    let st' := Page.loadPatients_settle (Page.patientId st)
                 (Page.RosterOk (Some (first :: rest))) st in
    In (Page.patientId st') (map Page.patient_id (Page.patients st')) /\
    (In (Page.patientId st) (map Page.r_patient_id (first :: rest)) ->
     Page.patientId st' = Page.patientId st) /\
    (~ In (Page.patientId st) (map Page.r_patient_id (first :: rest)) ->
     Page.patientId st' = Page.r_patient_id first).
Proof.
  intros first rest st st'. subst st'.
  rewrite patients_after_load, patientId_after_nonempty_load. unfold rows_of.
  assert (Hids : map Page.patient_id (map Page.to_patient (first :: rest))
                 = map Page.r_patient_id (first :: rest)) by (rewrite map_map; reflexivity).
  destruct (Page.find_patient (Page.patientId st) (map Page.to_patient (first :: rest)))
    as [p |] eqn:Hf.
  - apply find_patient_some in Hf. destruct Hf as [Hin Hid].
    apply (in_map Page.patient_id) in Hin. rewrite Hid in Hin.
    split; [exact Hin | split; [reflexivity |]].
    intros Hn. exfalso. apply Hn. now rewrite <- Hids.
  - apply find_patient_none in Hf. rewrite Hids in Hf.
    split; [rewrite Hids; now left | split; [| reflexivity]].
    intros Hin. contradiction.
Qed.

(** X7. The active patient is moved by a roster load in one case only: the
    load succeeded, the roster is not empty, and it does not hold the id
    the load was started for; the new id is then that of the first row. A
    failed load, an empty or missing roster and a roster that holds the id
    never move it. *)
Theorem active_patient_moves_only_by_failover :
  forall (id : string) (r : Page.roster_result) (st : Page.AppState),
    let st' := Page.loadPatients_settle id r st in
    Page.patientId st' = Page.patientId st \/
    (exists first rest,
        r = Page.RosterOk (Some (first :: rest)) /\
        ~ In id (map Page.r_patient_id (first :: rest)) /\
        Page.patientId st' = Page.r_patient_id first).
Proof.
  intros id r st st'. subst st'.
  destruct r as [[[| first rest] |] |]; try (left; reflexivity).
  rewrite patientId_after_nonempty_load.
  destruct (Page.find_patient id (map Page.to_patient (first :: rest))) as [p |] eqn:Hf;
    [left; reflexivity |].
  right. exists first, rest. split; [reflexivity | split; [| reflexivity]].
  apply find_patient_none in Hf. now rewrite map_map in Hf.
Qed.

(** X8. After a successful load the critical alert does not depend on
    anything that was in the state before, neither the old alert nor the
    old roster; and an alert that is raised names the id the load was
    started for and the positive critical count of a row of the roster just
    received. *)
Theorem alert_comes_from_the_fresh_roster_only :
  forall (id : string) (data_patients : option (list Page.RosterRow))
         (st1 st2 : Page.AppState),
    Page.criticalAlert (Page.loadPatients_settle id (Page.RosterOk data_patients) st1)
    = Page.criticalAlert (Page.loadPatients_settle id (Page.RosterOk data_patients) st2) /\
    (forall msg,
        Page.criticalAlert (Page.loadPatients_settle id (Page.RosterOk data_patients) st1)
        = Some msg ->
        exists row, In row (rows_of data_patients) /\ Page.r_patient_id row = id /\
                    (0 < Page.or_zero (Page.r_critical row))%Z /\
                    msg = Page.alert_text id (Page.or_zero (Page.r_critical row))).
Proof.
  intros id data_patients st1 st2. split.
  - now rewrite !alert_after_load.
  - intros msg Hmsg. exact (alert_from_fresh_rows id data_patients st1 msg Hmsg).
Qed.

(** X9. A successful load replaces the roster wholesale: the new list
    depends on the response alone, holds the ids of the response in the
    same order, and each date in it is a prefix of at most ten characters
    of the date that was sent. *)
Theorem roster_replaced_and_normalized :
  forall (id : string) (data_patients : option (list Page.RosterRow))
         (st1 st2 : Page.AppState),
    let after := Page.patients
                   (Page.loadPatients_settle id (Page.RosterOk data_patients) st1) in
    after = Page.patients (Page.loadPatients_settle id (Page.RosterOk data_patients) st2) /\
    map Page.patient_id after = map Page.r_patient_id (rows_of data_patients) /\
    Forall2 (fun (p : Page.Patient) (row : Page.RosterRow) =>
               (String.length (Page.last_test p) <= 10)%nat /\
               (String.length (Page.first_test p) <= 10)%nat /\
               (forall d, Page.r_last_test row = Some d ->
                          String.prefix (Page.last_test p) d = true) /\
               (forall d, Page.r_first_test row = Some d ->
                          String.prefix (Page.first_test p) d = true) /\
               Page.critical p = Page.or_zero (Page.r_critical row))
            after (rows_of data_patients).
Proof.
  intros id data_patients st1 st2 after. subst after.
  rewrite !patients_after_load. split; [reflexivity |].
  split; [now rewrite map_map |].
  induction (rows_of data_patients) as [| row rows IH]; cbn [map]; constructor; [| exact IH].
  cbn [Page.to_patient Page.last_test Page.first_test Page.critical].
  unfold Page.date_prefix, Js.slice0.
  split; [apply take_length |]. split; [apply take_length |].
  split; [| split; [| reflexivity]].
  - intros d Hd. rewrite Hd. apply take_prefix.
  - intros d Hd. rewrite Hd. apply take_prefix.
Qed.

(** *** The shell: roster spinner and dashboard key *)

Section ShellFacts.
Import Js Page Shell.

Lemma filter_remove_nth_other {A : Type} (f : A -> bool) (l : list A) :
  forall (i : nat) (a : A),
    nth_error l i = Some a -> f a = false -> filter f (remove_nth i l) = filter f l.
Proof.
  induction l as [| b l IH]; intros [| i] a Hi Hf; cbn in *; try discriminate.
  - injection Hi as ->. now rewrite Hf.
  - rewrite (IH i a Hi Hf). reflexivity.
Qed.

(** With no roster load in flight the roster spinner is off. *)
Definition roster_spinner_sound (rt : Runtime) : Prop :=
  roster_in_flight rt = 0 -> patientsLoading (app rt) = false.

Lemma loadPatients_call_in_flight (rt : Runtime) :
  roster_in_flight (loadPatients_call rt) = S (roster_in_flight rt).
Proof.
  unfold roster_in_flight, loadPatients_call. cbn [pending].
  rewrite filter_length_snoc. cbn. lia.
Qed.

Lemma settle_spinner_sound (i : nat) (resp : response) (rt : Runtime) :
  roster_spinner_sound rt -> roster_spinner_sound (settle i resp rt).
Proof.
  unfold roster_spinner_sound, settle. intros Hinv.
  destruct (nth_error (pending rt) i) as [[t0 | id] |] eqn:Hi; [| | exact Hinv].
  - destruct resp as [now clock r | r]; [| exact Hinv].
    unfold roster_in_flight. cbn [pending app].
    rewrite (filter_remove_nth_other is_roster _ i (GetHealth t0) Hi eq_refl).
    intros H0. specialize (Hinv H0).
    unfold checkStatus_settle.
    destruct r as [data | reason]; [destruct (status_of_health t0 now clock data) |];
      exact Hinv.
  - destruct resp as [now clock r | r]; [exact Hinv |].
    intros _. reflexivity.
Qed.

Lemma step_spinner_sound (sh : ShellState) (e : event) :
  roster_spinner_sound (runtime sh) -> roster_spinner_sound (runtime (step sh e)).
Proof.
  intros Hinv. destruct e as [now | i resp | | now | id | id | | |]; cbn [step runtime].
  - unfold roster_spinner_sound, interval_tick. destruct (poll_starts_both now (runtime sh)) as [_ Hr].
    rewrite Hr. discriminate.
  - now apply settle_spinner_sound.
  - unfold roster_spinner_sound. rewrite loadPatients_call_in_flight. discriminate.
  - unfold refresh_all. cbn [runtime]. unfold roster_spinner_sound.
    destruct (poll_starts_both now (runtime sh)) as [_ Hr]. rewrite Hr. discriminate.
  - unfold switchPatient. cbn [runtime]. exact Hinv.
  - unfold upload_patient. cbn [runtime]. exact Hinv.
  - unfold handleUploadSuccess. cbn [runtime]. unfold roster_spinner_sound.
    rewrite loadPatients_call_in_flight. discriminate.
  - exact Hinv.
  - unfold dismiss_alert. cbn [runtime]. exact Hinv.
Qed.

Lemma step_refreshKey_grows (sh : ShellState) (e : event) :
  (refreshKey sh <= refreshKey (step sh e))%Z.
Proof.
  destruct e; cbn [step refreshKey switchPatient refresh_all handleUploadSuccess
                     upload_patient upload_timeout dismiss_alert]; lia.
Qed.

(** Decimal digits hold no dash. *)
Lemma string_of_uint_no_dash (d : Decimal.uint) :
  has_char dash (NilEmpty.string_of_uint d) = false.
Proof. induction d; cbn; auto. Qed.

Lemma show_int_no_dash (k : Z) : (0 <= k)%Z -> has_char dash (show_int k) = false.
Proof.
  intros Hk. unfold show_int. destruct k as [| p | p]; [reflexivity | | lia].
  cbn. apply string_of_uint_no_dash.
Qed.

Lemma show_int_injective (k k' : Z) : show_int k = show_int k' -> k = k'.
Proof.
  unfold show_int. intros Heq.
  apply (f_equal NilEmpty.int_of_string) in Heq. rewrite !NilEmpty.isi in Heq.
  injection Heq as Heq. apply (f_equal Z.of_int) in Heq.
  now rewrite !DecimalZ.of_to in Heq.
Qed.

Lemma append_cancel_l (p s t : string) : (p ++ s = p ++ t)%string -> s = t.
Proof.
  induction p as [| c p IH]; cbn; [auto |]. intros [= Heq]. auto.
Qed.

Lemma has_char_append (c : ascii) (s t : string) :
  has_char c (s ++ t) = has_char c s || has_char c t.
Proof.
  induction s as [| a s IH]; cbn; [reflexivity |]. now rewrite IH, orb_assoc.
Qed.

(** Two strings cut at their last dash agree part by part. *)
Lemma split_at_last_dash (s1 s2 t1 t2 : string) :
  has_char dash t1 = false -> has_char dash t2 = false ->
  (s1 ++ String dash t1 = s2 ++ String dash t2)%string ->
  s1 = s2 /\ t1 = t2.
Proof.
  revert s2. induction s1 as [| a s1 IH]; intros [| b s2] H1 H2 Heq; cbn [append] in Heq.
  - injection Heq as ->. auto.
  - injection Heq as _ Ht. subst t1. rewrite has_char_append in H1. cbn [has_char] in H1.
    rewrite Ascii.eqb_refl, orb_true_r in H1. discriminate.
  - injection Heq as _ Ht. subst t2. rewrite has_char_append in H2. cbn [has_char] in H2.
    rewrite Ascii.eqb_refl, orb_true_r in H2. discriminate.
  - injection Heq as -> Heq. destruct (IH s2 H1 H2 Heq) as [-> ->]. auto.
Qed.

End ShellFacts.

(** X10. Whatever ticks, answers, button presses, patient switches and
    uploads follow the mount, the roster spinner is never left on with no
    roster load in flight: every load, failed or not, ends by clearing it. *)
Theorem roster_spinner_clears :
  forall (now : Z) (es : list Shell.event),
    let sh := Shell.run (Shell.start now) es in
    Page.roster_in_flight (Shell.runtime sh) = 0%nat ->
    Page.patientsLoading (Page.app (Shell.runtime sh)) = false.
Proof.
  intros now es sh. subst sh. unfold Shell.run.
  apply (fold_left_preserves (fun s => roster_spinner_sound (Shell.runtime s))).
  - intros s e. apply step_spinner_sound.
  - unfold roster_spinner_sound. cbn. discriminate.
Qed.

Lemma roster_spinner_clears_witness :
  Page.patientsLoading
    (Page.app
       (Shell.runtime
          (Shell.run (Shell.start 0)
             [Shell.Settle 1 (Page.RosterResponse Page.RosterFailed)]))) = false.
Proof.
  apply (roster_spinner_clears 0 [Shell.Settle 1 (Page.RosterResponse Page.RosterFailed)]).
  reflexivity.
Defined.

(** X11. The dashboard key tells patients and refresh counters apart: two
    keys built from counters that are not negative are equal only when
    both the patient id and the counter are. *)
Theorem dash_key_injective :
  forall (id id' : string) (k k' : Z),
    (0 <= k)%Z -> (0 <= k')%Z ->
    Shell.dash_key id k = Shell.dash_key id' k' ->
    id = id' /\ k = k'.
Proof.
  intros id id' k k' Hk Hk' Heq. unfold Shell.dash_key in Heq.
  apply append_cancel_l in Heq.
  destruct (split_at_last_dash id id' (Js.show_int k) (Js.show_int k')
              (show_int_no_dash k Hk) (show_int_no_dash k' Hk') Heq) as [Hid Hshow].
  split; [exact Hid | now apply show_int_injective].
Qed.

Lemma dash_key_injective_witness : "PAT-7" = "PAT-7" /\ 12%Z = 12%Z.
Proof.
  apply (dash_key_injective "PAT-7" "PAT-7" 12 12); [lia | lia | reflexivity].
Defined.

(** X12. From the mount on, a patient switch, the refresh button and the
    timeout that follows an upload each give the dashboard a key it did
    not have just before, also when the switch names the patient that is
    already active: the dashboard is mounted anew every time. *)
Theorem switch_and_refresh_change_the_key :
  forall (now : Z) (es : list Shell.event) (id : string) (t : Z),
    let sh := Shell.run (Shell.start now) es in
    Shell.dashboard_key (Shell.switchPatient id sh) <> Shell.dashboard_key sh /\
    Shell.dashboard_key (Shell.refresh_all t sh) <> Shell.dashboard_key sh /\
    Shell.dashboard_key (Shell.upload_timeout sh) <> Shell.dashboard_key sh.
Proof.
  intros now es id t sh.
  assert (Hk : (0 <= Shell.refreshKey sh)%Z).
  { subst sh. unfold Shell.run.
    apply (fold_left_preserves (fun s => (0 <= Shell.refreshKey s)%Z)).
    - intros s e Hs. pose proof (step_refreshKey_grows s e). lia.
    - cbn. lia. }
  unfold Shell.dashboard_key.
  repeat split; intros Heq;
    apply dash_key_injective in Heq; cbn in *; try lia; destruct Heq as [_ Heq]; lia.
Qed.

(** *** The dashboard over time *)

(** The cases of a settled cycle, as for the refresh cycle above. *)
Ltac cycle_cases rs :=
  destruct rs as [[ds | es] [db | eb] [dr | er] [da | ea]];
  unfold DashboardTab.after_load, DashboardTab.load, DashboardTab.load_settle,
    DashboardTab.try_finally, DashboardTab.load_try, DashboardTab.load_begin,
    DashboardTab.on_summary, DashboardTab.on_biomarkers, DashboardTab.on_risk,
    DashboardTab.on_alerts, Js.get, DashboardTab.bodyless, DashboardTab.fulfilled,
    DashboardView.count_fulfilled;
  cbn [DashboardTab.sumR DashboardTab.bioR DashboardTab.riskR DashboardTab.alertR];
  try destruct (Js.nullish db) eqn:Hdb; try destruct (Js.nullish da) eqn:Hda.

Section DashboardFacts.
Import Js DashboardTab DashboardView.

Lemma settle_calls_countdown (pid : string) (t0 now : Z) (clock : string) (rs : Settled4)
      (st : DashState) :
  let st' := apply_all st (fst (load_settle pid t0 now clock rs)) in
  loading st' = false /\
  (countdown st' = 30%Z \/ countdown st' = countdown st) /\
  (snd (load_settle pid t0 now clock rs) = Some tt -> countdown st' = 30%Z /\ lastUpdate st' = clock) /\
  (snd (load_settle pid t0 now clock rs) = None ->
   countdown st' = countdown st /\ lastUpdate st' = lastUpdate st).
Proof.
  cycle_cases rs; cbn; repeat split; intros; try discriminate; auto.
Qed.

(** The countdown stays between 1 and 30, and the spinner flag is off when
    no cycle is in flight. *)
Definition steady (rt : Runtime) : Prop :=
  (1 <= countdown (view rt) <= 30)%Z /\
  (in_flight rt = [] -> loading (view rt) = false).

Lemma step_steady (pid : string) (rt : Runtime) (e : event) :
  steady rt -> steady (step pid rt e).
Proof.
  unfold steady. intros [Hc Hl]. destruct e as [now | i now clock rs | now]; cbn [step].
  - unfold second_tick. destruct (countdown (view rt) <=? 1)%Z eqn:Hle.
    + cbn. split; [lia |]. intros Hnil. now destruct (in_flight rt).
    + apply Z.leb_gt in Hle. cbn. split; [lia | exact Hl].
  - unfold settle. destruct (nth_error (in_flight rt) i) as [c |]; [| auto].
    cbn [view in_flight].
    destruct (settle_calls_countdown (c_patient c) (c_t0 c) now clock rs (view rt))
      as [Hload [[H30 | Hsame] _]].
    + split; [rewrite H30; lia | auto].
    + split; [rewrite Hsame; exact Hc | auto].
  - unfold load_call. cbn. split; [exact Hc |]. intros Hnil. now destruct (in_flight rt).
Qed.

Lemma run_steady (pid : string) (t0 : Z) (es : list event) :
  steady (run pid (mount pid t0) es).
Proof.
  unfold run. apply fold_left_preserves.
  - intros rt e. apply step_steady.
  - unfold steady. cbn. split; [lia | discriminate].
Qed.

Lemma push_query_length_eq (q : string) (r : value) (m : Z) (clock : string)
      (prev : list QueryLog) :
  List.length (push_query q r m clock prev) = Nat.min 10 (S (List.length prev)).
Proof. unfold push_query, log_capacity. now rewrite length_firstn. Qed.

End DashboardFacts.

(** X13. From the mount on, through any sequence of one-second ticks,
    settled cycles and button presses, the countdown that is displayed
    stays between 1 and 30: it never shows 0 and never goes negative. *)
Theorem countdown_stays_between_1_and_30 :
  forall (pid : string) (t0 : Z) (es : list DashboardView.event),
    let rt := DashboardView.run pid (DashboardTab.mount pid t0) es in
    (1 <= DashboardTab.countdown (DashboardTab.view rt) <= 30)%Z.
Proof. intros pid t0 es rt. exact (proj1 (run_steady pid t0 es)). Qed.

(** X14. From the mount on, the loading flag is never left on with no
    cycle in flight: each cycle that settles clears it, whether it ran to
    its end or threw. *)
Theorem dashboard_loading_clears :
  forall (pid : string) (t0 : Z) (es : list DashboardView.event),
    let rt := DashboardView.run pid (DashboardTab.mount pid t0) es in
    DashboardTab.in_flight rt = [] ->
    DashboardTab.loading (DashboardTab.view rt) = false.
Proof. intros pid t0 es rt. exact (proj2 (run_steady pid t0 es)). Qed.

Lemma dashboard_loading_clears_witness :
  DashboardTab.loading
    (DashboardTab.view
       (DashboardView.run "PAT001" (DashboardTab.mount "PAT001" 0)
          [DashboardView.Second 1000;
           DashboardView.Settled 0 1200 "10:00:01" cycle_null_biomarkers])) = false.
Proof.
  apply (dashboard_loading_clears "PAT001" 0
           [DashboardView.Second 1000;
            DashboardView.Settled 0 1200 "10:00:01" cycle_null_biomarkers]).
  reflexivity.
Defined.

(** X15. A cycle that runs to its end sets the countdown back to 30 and
    stamps the update time with the clock of that moment; a cycle that
    throws leaves both as they were, so the countdown keeps running down
    from where it stood. *)
Theorem countdown_reset_only_by_completed_cycle :
  forall (pid : string) (t0 now : Z) (clock : string)
         (rs : DashboardTab.Settled4) (st : DashboardTab.DashState),
    let st' := DashboardTab.after_load pid t0 now clock rs st in
    (snd (DashboardTab.load pid t0 now clock rs) = Some tt ->
     DashboardTab.countdown st' = 30%Z /\ DashboardTab.lastUpdate st' = clock) /\
    (snd (DashboardTab.load pid t0 now clock rs) = None ->
     DashboardTab.countdown st' = DashboardTab.countdown st /\
     DashboardTab.lastUpdate st' = DashboardTab.lastUpdate st).
Proof.
  intros pid t0 now clock rs st st'. subst st'.
  cycle_cases rs; cbn; split; intros; try discriminate; auto.
Qed.

(** X16. What the dashboard shows after a cycle. The spinner is never
    shown once a cycle has settled. A fulfilled summary that is truthy and
    whose [total_tests] is not 0 puts the board on screen whatever happened
    to the three other calls. A failed summary call leaves the screen of
    the summary that was there: the no-data screen on a first load, the
    board if the board was shown. *)
Theorem screen_after_cycle :
  forall (pid : string) (t0 now : Z) (clock : string)
         (rs : DashboardTab.Settled4) (st : DashboardTab.DashState),
    let st' := DashboardTab.after_load pid t0 now clock rs st in
    DashboardView.screen_of st' <> DashboardView.Spinner /\
    (forall d, DashboardTab.sumR rs = Js.Fulfilled d -> Js.truthy d = true ->
               DashboardView.total_tests_is_zero d = false ->
               DashboardView.screen_of st' = DashboardView.Board) /\
    (DashboardTab.fulfilled (DashboardTab.sumR rs) = false ->
     Js.truthy (DashboardTab.summary st) = false ->
     DashboardView.screen_of st' = DashboardView.NoLabData) /\
    (DashboardTab.fulfilled (DashboardTab.sumR rs) = false ->
     DashboardView.screen_of st = DashboardView.Board ->
     DashboardView.screen_of st' = DashboardView.Board).
Proof.
  intros pid t0 now clock rs st st'.
  pose proof (load_ends_not_loading pid t0 now clock rs st) as Hload.
  destruct (failed_slices_kept pid t0 now clock rs st) as [Hkept _].
  destruct (fulfilled_slices_replaced pid t0 now clock rs st) as [Hnew _].
  fold st' in Hload, Hkept, Hnew.
  unfold DashboardView.screen_of. rewrite Hload. cbn [andb].
  split; [| split; [| split]].
  - destruct (negb (Js.truthy (DashboardTab.summary st'))
              || DashboardView.total_tests_is_zero (DashboardTab.summary st'));
      discriminate.
  - intros d Hd Ht Hz. rewrite (Hnew d Hd). unfold DashboardTab.summary_of.
    now rewrite Ht, Hz.
  - intros Hf Hs. rewrite (Hkept Hf), Hs. reflexivity.
  - intros Hf Hb. rewrite (Hkept Hf).
    destruct (DashboardTab.loading st && negb (Js.truthy (DashboardTab.summary st)));
      [discriminate | exact Hb].
Qed.

(** X17. On a log within its capacity, a cycle that runs to its end adds
    one line for each call that was fulfilled, up to the capacity: the log
    then holds the smaller of 10 and its old length plus the number of
    fulfilled calls. *)
Theorem one_log_line_per_fulfilled_call :
  forall (pid : string) (t0 now : Z) (clock : string)
         (rs : DashboardTab.Settled4) (st : DashboardTab.DashState),
    (List.length (DashboardTab.queryLog st) <= 10)%nat ->
    snd (DashboardTab.load pid t0 now clock rs) = Some tt ->
    List.length (DashboardTab.queryLog (DashboardTab.after_load pid t0 now clock rs st))
    = Nat.min 10 (DashboardView.count_fulfilled rs
                  + List.length (DashboardTab.queryLog st)).
Proof.
  intros pid t0 now clock rs st Hcap.
  cycle_cases rs;
    cbn -[DashboardTab.push_query Nat.min]; intros Hend; try discriminate;
    rewrite ?push_query_length_eq; lia.
Qed.

Lemma one_log_line_per_fulfilled_call_witness :
  List.length
    (DashboardTab.queryLog
       (DashboardTab.after_load "PAT001" 0 40 "10:00:00"
          (DashboardTab.mkSettled4 (Js.Fulfilled (Js.VObj [])) (Js.Rejected Js.VNull)
             (Js.Fulfilled Js.VNull) (Js.Rejected Js.VNull))
          DashboardTab.initial))
  = Nat.min 10
      (DashboardView.count_fulfilled
         (DashboardTab.mkSettled4 (Js.Fulfilled (Js.VObj [])) (Js.Rejected Js.VNull)
            (Js.Fulfilled Js.VNull) (Js.Rejected Js.VNull))
       + List.length (DashboardTab.queryLog DashboardTab.initial)).
Proof.
  apply (one_log_line_per_fulfilled_call "PAT001" 0 40 "10:00:00");
    [cbn; lia | reflexivity].
Defined.

(** *** The query log pill *)

Section Pill.
Import Js DashboardTab DashboardView.

Lemma take_before_prefix (sep : ascii) (s : string) :
  forall n, String.prefix (take n (before sep s)) s = true.
Proof.
  induction s as [| a rest IH]; intros n.
  - destruct n; reflexivity.
  - cbn [before]. destruct (Ascii.eqb a sep).
    + destruct n; reflexivity.
    + destruct n; [reflexivity |]. cbn.
      destruct (ascii_dec a a) as [_ | Hne]; [apply IH | congruence].
Qed.

Lemma take_before_no_sep (sep : ascii) (s : string) :
  forall n, includes (take n (before sep s)) (String sep EmptyString) = false.
Proof.
  unfold includes. induction s as [| a rest IH]; intros n.
  - destruct n; reflexivity.
  - cbn [before]. destruct (Ascii.eqb a sep) eqn:Ha.
    + destruct n; reflexivity.
    + destruct n; [reflexivity |]. cbn [take index_of].
      rewrite prefix_one_char, Ha. specialize (IH n).
      destruct (index_of (String sep EmptyString) (take n (before sep rest)));
        [discriminate | reflexivity].
Qed.

End Pill.

(** X18. The text of a query log pill is a prefix of the logged query,
    holds no line break and has at most 60 characters (of the model's
    strings), whatever the query is. *)
Theorem pill_text_is_short_first_line :
  forall q : DashboardTab.QueryLog,
    String.prefix (DashboardView.pill_text q) (DashboardTab.query q) = true /\
    Js.includes (DashboardView.pill_text q) (String DashboardView.newline EmptyString) = false /\
    (String.length (DashboardView.pill_text q) <= 60)%nat.
Proof.
  intros q. unfold DashboardView.pill_text, Js.slice0.
  split; [apply take_before_prefix | split; [apply take_before_no_sep | apply take_length]].
Qed.

(** *** The caption and the colour of the gauge *)

Section Captions.

Lemma SFcompare_Lt_Eq (a b c : spec_float) :
  SFcompare a b = Some Lt -> SFcompare b c = Some Eq -> SFcompare a c = Some Lt.
Proof.
  destruct a as [sa | sa | | sa ma ea], b as [sb | sb | | sb mb eb],
           c as [sc | sc | | sc mc ec]; cbn; try discriminate;
    try (repeat match goal with s : bool |- _ => destruct s end;
         solve [discriminate | reflexivity | auto]).
  change (Pos.compare_cont Eq ma mb) with (Pos.compare ma mb).
  change (Pos.compare_cont Eq mb mc) with (Pos.compare mb mc).
  change (Pos.compare_cont Eq ma mc) with (Pos.compare ma mc).
  destruct sa, sb, sc; try discriminate; try reflexivity;
    destruct (Z.compare_spec eb ec); try discriminate;
    destruct (Pos.compare_spec mb mc); cbn; try discriminate;
    subst; intros H _; exact H.
Qed.

Lemma leb_above (a b p : float) :
  (a <? b)%float = true -> (b <=? p)%float = true -> (a <=? p)%float = true.
Proof.
  rewrite ltb_spec, !leb_spec. unfold SFltb, SFleb.
  destruct (SFcompare (Prim2SF a) (Prim2SF b)) as [[| |] |] eqn:Hab; try discriminate.
  destruct (SFcompare (Prim2SF b) (Prim2SF p)) as [[| |] |] eqn:Hbp; try discriminate;
    intros _ _.
  - now rewrite (SFcompare_Lt_Eq _ _ _ Hab Hbp).
  - now rewrite (SFcompare_Lt_trans _ _ _ Hab Hbp).
Qed.

End Captions.

(** X19. The caption under the gauge and the colour of the needle never
    disagree: for every binary64 percentile, NaN and the infinities
    included, the caption starts with the red mark exactly when the colour
    is that of the critical band, with the orange mark exactly for the
    high band, with the yellow mark exactly for the elevated band and with
    the green mark exactly for the normal band. *)
Theorem gauge_caption_matches_colour :
  forall p : float,
    (String.prefix "🔴" (ScoringView.RiskGauge_label p) = true <->
     ScoringPanel.RiskGauge_color p = ScoringPanel.critical_band) /\
    (String.prefix "🟠" (ScoringView.RiskGauge_label p) = true <->
     ScoringPanel.RiskGauge_color p = ScoringPanel.high_band) /\
    (String.prefix "🟡" (ScoringView.RiskGauge_label p) = true <->
     ScoringPanel.RiskGauge_color p = ScoringPanel.elevated_band) /\
    (String.prefix "🟢" (ScoringView.RiskGauge_label p) = true <->
     ScoringPanel.RiskGauge_color p = ScoringPanel.normal_band).
Proof.
  intros p. unfold ScoringView.RiskGauge_label, ScoringPanel.RiskGauge_color.
  destruct (95 <=? p)%float eqn:H95.
  - rewrite (leb_above 90 95 p eq_refl H95).
    repeat split; intros H; try reflexivity; vm_compute in H; discriminate.
  - destruct (90 <=? p)%float, (75 <=? p)%float, (50 <=? p)%float;
      repeat split; intros H; try reflexivity; vm_compute in H; discriminate.
Qed.

(** *** The scoring panel's [load] *)

Section PanelFacts.
Import Js ScoringView.

(** What the [try] block threw, if anything. *)
Definition thrown (f : fanout) (st : PanelState) : option value :=
  snd (load_try f (load_begin st)).

(** A statement keeps a slice of the state, always or when it throws. *)
Definition keeps {A : Type} (slice : PanelState -> A) (s : Stmt) : Prop :=
  forall st, slice (fst (s st)) = slice st.

Definition keeps_on_throw {A : Type} (slice : PanelState -> A) (s : Stmt) : Prop :=
  forall st st' e, s st = (st', Some e) -> slice st' = slice st.

Lemma keeps_then {A : Type} (slice : PanelState -> A) (a b : Stmt) :
  keeps slice a -> keeps slice b -> keeps slice (then_ a b).
Proof.
  intros Ha Hb st. unfold then_. specialize (Ha st).
  destruct (a st) as [s1 [e |]]; cbn [fst] in *; [exact Ha |].
  now rewrite Hb.
Qed.

Lemma keeps_on_throw_then {A : Type} (slice : PanelState -> A) (a b : Stmt) :
  keeps slice a -> keeps_on_throw slice b -> keeps_on_throw slice (then_ a b).
Proof.
  intros Ha Hb st st' e. unfold then_. specialize (Ha st).
  destruct (a st) as [s1 [e1 |]]; cbn [fst] in *.
  - now intros [= <- _].
  - intros Hthrow. now rewrite (Hb _ _ _ Hthrow).
Qed.

Lemma take_body_keeps {A : Type} (slice : PanelState -> A)
      (set : value -> PanelState -> PanelState) (res : Response) :
  (forall v s, slice (set v s) = slice s) -> keeps slice (take_body set res).
Proof.
  intros Hset st. unfold take_body. destruct (ok res); [| reflexivity].
  destruct (json res); cbn; [apply Hset | reflexivity].
Qed.

Lemma take_field_keeps {A : Type} (slice : PanelState -> A)
      (set : value -> PanelState -> PanelState) (field : string) (res : Response) :
  (forall v s, slice (set v s) = slice s) -> keeps slice (take_field set field res).
Proof.
  intros Hset st. unfold take_field. destruct (ok res); [| reflexivity].
  destruct (json res) as [v | e]; cbn; [| reflexivity].
  destruct (get v field); cbn; [apply Hset | reflexivity].
Qed.

Lemma take_body_keeps_on_throw {A : Type} (slice : PanelState -> A)
      (set : value -> PanelState -> PanelState) (res : Response) :
  keeps_on_throw slice (take_body set res).
Proof.
  intros st st' e. unfold take_body. destruct (ok res); [| discriminate].
  destruct (json res); [discriminate |]. now intros [= <- _].
Qed.

(** The [try] block never touches the error, and it replaces the
    population statistics only when it runs to its end. *)
Lemma load_try_error (f : fanout) : keeps error (load_try f).
Proof.
  destruct f as [r1 r2 r3 r4 | e]; [| intros st; reflexivity].
  unfold load_try.
  repeat apply keeps_then;
    first [apply take_body_keeps | apply take_field_keeps]; reflexivity.
Qed.

Lemma load_try_throw_popStats (f : fanout) : keeps_on_throw popStats (load_try f).
Proof.
  destruct f as [r1 r2 r3 r4 | e0]; [| intros st st' e; now intros [= <- _]].
  unfold load_try.
  apply keeps_on_throw_then; [apply take_body_keeps; reflexivity |].
  apply keeps_on_throw_then; [apply take_field_keeps; reflexivity |].
  apply keeps_on_throw_then; [apply take_field_keeps; reflexivity |].
  apply take_body_keeps_on_throw.
Qed.

End PanelFacts.

(** X20. When one of the four fetches rejects, no slice of the panel's data
    changes, the spinner goes, and the error is the [message] of the
    rejection; the error line is shown when that message is truthy, and
    the sections, over the previous data, when it is not. *)
Theorem scoring_rejected_fetch_keeps_data :
  forall (e : Js.value) (st : ScoringView.PanelState),
    let st' := ScoringView.load (ScoringView.Rejection e) st in
    ScoringView.percentile st' = ScoringView.percentile st /\
    ScoringView.similar st' = ScoringView.similar st /\
    ScoringView.panels st' = ScoringView.panels st /\
    ScoringView.popStats st' = ScoringView.popStats st /\
    ScoringView.loading st' = false /\
    ScoringView.error st' =
      match Js.get e "message" with
      | Some m => m
      | None => Js.VStr EmptyString
      end /\
    ScoringView.screen_of st' =
      if Js.truthy (Js.oget e "message")
      then ScoringView.ErrorLine (Js.oget e "message")
      else ScoringView.Sections.
Proof.
  intros e st st'. subst st'.
  unfold ScoringView.load, ScoringView.load_settle, ScoringView.load_try,
    ScoringView.load_catch, ScoringView.screen_of, Js.get, Js.oget.
  destruct (Js.nullish e); cbn; repeat split; reflexivity.
Qed.

(** X21. A response that is not [ok] is passed over in silence: when every
    body parses (and the bodies read for [similar] and [panels] are not
    null), no error is shown whatever the statuses are, each slice whose
    response is [ok] is replaced and each slice whose response is not
    keeps its previous value. *)
Theorem scoring_refused_responses_are_silent :
  forall (o1 o2 o3 o4 : bool) (b1 b2 b3 b4 : Js.value) (st : ScoringView.PanelState),
    (o2 = true -> Js.nullish b2 = false) ->
    (o3 = true -> Js.nullish b3 = false) ->
    let reply o b := ScoringView.mkResponse o (ScoringView.Json b) in
    let st' := ScoringView.load
                 (ScoringView.Responses (reply o1 b1) (reply o2 b2) (reply o3 b3) (reply o4 b4))
                 st in
    ScoringView.screen_of st' = ScoringView.Sections /\
    ScoringView.percentile st' = (if o1 then b1 else ScoringView.percentile st) /\
    ScoringView.similar st' =
      (if o2 then Js.or_else (Js.prop b2 "similar") (Js.VArr []) else ScoringView.similar st) /\
    ScoringView.panels st' =
      (if o3 then Js.or_else (Js.prop b3 "panels") (Js.VArr []) else ScoringView.panels st) /\
    ScoringView.popStats st' = (if o4 then b4 else ScoringView.popStats st).
Proof.
  intros o1 o2 o3 o4 b1 b2 b3 b4 st H2 H3 reply st'. subst st' reply.
  unfold ScoringView.load, ScoringView.load_settle, ScoringView.load_try,
    ScoringView.then_, ScoringView.take_body, ScoringView.take_field, Js.get.
  cbn [ScoringView.ok ScoringView.json].
  destruct o1, o2, o3, o4;
    try rewrite (H2 eq_refl); try rewrite (H3 eq_refl); cbn; repeat split; reflexivity.
Qed.

Lemma scoring_refused_responses_are_silent_witness :
  let st := ScoringView.setPercentile (Js.VNum 42%Q) ScoringView.initial in
  let st' := ScoringView.load
               (ScoringView.Responses
                  (ScoringView.mkResponse false (ScoringView.Json Js.VNull))
                  (ScoringView.mkResponse true (ScoringView.Json (Js.VObj [])))
                  (ScoringView.mkResponse false (ScoringView.Json Js.VNull))
                  (ScoringView.mkResponse false (ScoringView.Json Js.VNull)))
               st in
  ScoringView.screen_of st' = ScoringView.Sections /\
  ScoringView.percentile st' = Js.VNum 42%Q /\
  ScoringView.similar st' = Js.VArr [] /\
  ScoringView.panels st' = Js.VArr [] /\
  ScoringView.popStats st' = Js.VNull.
Proof.
  apply (scoring_refused_responses_are_silent false true false false
           Js.VNull (Js.VObj []) Js.VNull Js.VNull
           (ScoringView.setPercentile (Js.VNum 42%Q) ScoringView.initial)).
  - reflexivity.
  - discriminate.
Defined.

(** X22. After every [load] the spinner is gone. An error can only be shown
    when the [try] block was interrupted by an exception: the error is the
    [message] of that exception, the error line is what the panel
    renders, and the population statistics are those from before the
    load. *)
Theorem scoring_error_line_means_interrupted_load :
  forall (f : ScoringView.fanout) (st : ScoringView.PanelState),
    let st' := ScoringView.load f st in
    ScoringView.loading st' = false /\
    (Js.truthy (ScoringView.error st') = true ->
     ScoringView.screen_of st' = ScoringView.ErrorLine (ScoringView.error st') /\
     ScoringView.popStats st' = ScoringView.popStats st /\
     exists e, thrown f st = Some e /\ Js.get e "message" = Some (ScoringView.error st')).
Proof.
  intros f st st'. subst st'. unfold ScoringView.load, ScoringView.load_settle, thrown.
  split; [destruct (ScoringView.load_try f (ScoringView.load_begin st)); reflexivity |].
  pose proof (load_try_error f (ScoringView.load_begin st)) as Herr.
  destruct (ScoringView.load_try f (ScoringView.load_begin st)) as [s1 [e |]] eqn:Htry;
    cbn [fst snd] in *.
  - pose proof (load_try_throw_popStats _ _ _ _ Htry) as Hpop. cbn in Hpop.
    cbn [ScoringView.load_catch].
    destruct (Js.get e "message") as [m |] eqn:Hm.
    + intros Ht. cbn in Ht |- *. unfold ScoringView.screen_of. cbn. rewrite Ht.
      split; [reflexivity |]. split; [exact Hpop |]. exists e. split; [reflexivity | exact Hm].
    + cbn. rewrite Herr. cbn. discriminate.
  - cbn. rewrite Herr. cbn. discriminate.
Qed.

(** *** The two ends of the sparkline *)

Section SparklineEnds.
Import Binary64 DashboardTab.

(** Two finite binary64 numbers of the same value, other than zero, are the
    same number. *)
Lemma SFcompare_Eq_finite (s1 s2 : bool) (m1 m2 : positive) (e1 e2 : Z) :
  SFcompare (S754_finite s1 m1 e1) (S754_finite s2 m2 e2) = Some Eq ->
  S754_finite s1 m1 e1 = S754_finite s2 m2 e2.
Proof.
  cbn. change (Pos.compare_cont Eq m1 m2) with (Pos.compare m1 m2).
  destruct s1, s2; try discriminate;
    destruct (Z.compare_spec e1 e2); try discriminate;
    destruct (Pos.compare_spec m1 m2); cbn; try discriminate;
    intros _; now subst.
Qed.

Lemma same_value_same_number (x y : float) :
  finite x -> finite y -> (B2Q x == B2Q y)%Q -> ~ (B2Q x == 0)%Q -> x = y.
Proof.
  intros Fx Fy Hv Hnz.
  assert (Hnz' : ~ (B2Q y == 0)%Q) by now rewrite <- Hv.
  apply (eqb_B2Q x y Fx Fy) in Hv. rewrite FloatAxioms.eqb_spec in Hv.
  apply Prim2SF_inj.
  unfold B2Q, finite in *.
  destruct (Prim2SF x) as [sx | sx | | sx mx ex]; try discriminate;
    [exfalso; apply Hnz; reflexivity |].
  destruct (Prim2SF y) as [sy | sy | | sy my ey]; try discriminate;
    [exfalso; apply Hnz'; reflexivity |].
  apply SFcompare_Eq_finite. unfold SFeqb in Hv.
  destruct (SFcompare (S754_finite sx mx ex) (S754_finite sy my ey)) as [[| |] |];
    try discriminate. reflexivity.
Qed.

(** The abscissa of the last point is that of the marker, and the abscissa
    of the first point is the left edge. *)
Lemma last_abscissa (n : nat) :
  (2 <= n)%nat -> (Z.of_nat n < 2 ^ 53)%Z ->
  (pad + of_index (n - 1) / (of_index n - 1) * (W - pad * 2))%float = 78%float.
Proof.
  intros Hn H53.
  destruct (of_index_exact n H53) as [Fn En].
  destruct (of_index_exact (n - 1)) as [Fp Ep]; [lia |].
  assert (F1 : finite 1%float) by reflexivity.
  assert (E1 : (B2Q 1 == 1)%Q) by (vm_compute; reflexivity).
  assert (Hpred : (inject_Z (Z.of_nat (n - 1)) == inject_Z (Z.of_nat n) - 1)%Q).
  { rewrite Nat2Z.inj_sub by lia. change (Z.of_nat 1) with 1%Z.
    unfold Z.sub. rewrite inject_Z_plus. reflexivity. }
  assert (Hpos : (0 < inject_Z (Z.of_nat (n - 1)))%Q).
  { change 0%Q with (inject_Z 0). rewrite <- Zlt_Qlt. lia. }
  assert (Rd : Rounded (inject_Z (Z.of_nat n) - 1) (Prim2SF (of_index n - 1)))
    by (apply sub_rounds; assumption).
  destruct (Rounded_exact _ _ _ Rd Fp) as [Fd Ed]; [now rewrite Ep, Hpred |].
  assert (Rq : Rounded (inject_Z (Z.of_nat (n - 1)) / inject_Z (Z.of_nat (n - 1)))
                 (Prim2SF (of_index (n - 1) / (of_index n - 1)))).
  { apply div_rounds; [exact Fp | exact Fd | exact Ep | now rewrite Ed, Ep | lra]. }
  destruct (Rounded_exact _ _ _ Rq F1) as [Fq Eq1]; [rewrite E1; field; lra |].
  rewrite (same_value_same_number _ 1%float Fq F1 Eq1) by (rewrite Eq1, E1; lra).
  reflexivity.
Qed.

Lemma first_abscissa (n : nat) :
  (2 <= n)%nat -> (Z.of_nat n < 2 ^ 53)%Z ->
  (pad + of_index 0 / (of_index n - 1) * (W - pad * 2))%float = 2%float.
Proof.
  intros Hn H53.
  destruct (of_index_exact n H53) as [Fn En].
  destruct (of_index_exact (n - 1)) as [Fp Ep]; [lia |].
  destruct (of_index_exact 0) as [F0 E0]; [reflexivity |].
  change (inject_Z (Z.of_nat 0)) with 0%Q in E0.
  assert (F1 : finite 1%float) by reflexivity.
  assert (E1 : (B2Q 1 == 1)%Q) by (vm_compute; reflexivity).
  assert (Fz : finite 0%float) by reflexivity.
  assert (Ez : (B2Q 0 == 0)%Q) by (vm_compute; reflexivity).
  assert (F2 : finite 2%float) by reflexivity.
  assert (E2 : (B2Q 2 == 2)%Q) by (vm_compute; reflexivity).
  assert (Fs : finite (W - pad * 2)%float) by reflexivity.
  assert (Es : (B2Q (W - pad * 2) == 76)%Q) by (vm_compute; reflexivity).
  assert (Hpred : (inject_Z (Z.of_nat (n - 1)) == inject_Z (Z.of_nat n) - 1)%Q).
  { rewrite Nat2Z.inj_sub by lia. change (Z.of_nat 1) with 1%Z.
    unfold Z.sub. rewrite inject_Z_plus. reflexivity. }
  assert (Hpos : (0 < inject_Z (Z.of_nat (n - 1)))%Q).
  { change 0%Q with (inject_Z 0). rewrite <- Zlt_Qlt. lia. }
  assert (Rd : Rounded (inject_Z (Z.of_nat n) - 1) (Prim2SF (of_index n - 1)))
    by (apply sub_rounds; assumption).
  destruct (Rounded_exact _ _ _ Rd Fp) as [Fd Ed]; [now rewrite Ep, Hpred |].
  assert (Rq : Rounded (0 / inject_Z (Z.of_nat (n - 1)))
                 (Prim2SF (of_index 0 / (of_index n - 1)))).
  { apply div_rounds; [exact F0 | exact Fd | exact E0 | now rewrite Ed, Ep | lra]. }
  destruct (Rounded_exact _ _ _ Rq Fz) as [Fq Eq0]; [rewrite Ez; field; lra |].
  rewrite Ez in Eq0.
  set (q := (of_index 0 / (of_index n - 1))%float) in *.
  assert (Rt : Rounded (0 * 76) (Prim2SF (q * (W - pad * 2))))
    by (apply mul_rounds; assumption).
  destruct (Rounded_exact _ _ _ Rt Fz) as [Ft Et]; [rewrite Ez; ring |].
  rewrite Ez in Et.
  set (t := (q * (W - pad * 2))%float) in *.
  assert (Rx : Rounded (2 + 0) (Prim2SF (pad + t)))
    by (apply add_rounds; [reflexivity | exact Ft | exact E2 | exact Et]).
  destruct (Rounded_exact _ _ _ Rx F2) as [Fx Ex]; [rewrite E2; ring |].
  apply (same_value_same_number _ 2%float Fx F2 Ex). rewrite Ex, E2. lra.
Qed.

Lemma mapi_from_last {A B : Type} (f : nat -> A -> B) (l : list A) (d : B) (a : A) :
  forall i, l <> [] ->
            List.last (mapi_from i f l) d = f (i + List.length l - 1)%nat (List.last l a).
Proof.
  induction l as [| x rest IH]; intros i Hne; [congruence |].
  destruct rest as [| y rest'].
  - cbn. f_equal. lia.
  - change (List.last (mapi_from i f (x :: y :: rest')) d)
      with (List.last (mapi_from (S i) f (y :: rest')) d).
    rewrite (IH (S i)) by discriminate.
    change (List.last (x :: y :: rest') a) with (List.last (y :: rest') a).
    f_equal. cbn [List.length]. lia.
Qed.

End SparklineEnds.

(** X23. Whatever the values are (NaN and the infinities included), a
    series that is drawn has one point per value, its first point on the
    left edge, at abscissa 2 exactly, and its last point exactly where the
    marker is drawn, at abscissa 78: the division of the last index by
    itself and the products and sums after it are exact in binary64. The
    pulse ring is drawn exactly for an abnormal series. *)
Theorem sparkline_runs_from_left_edge_to_marker :
  forall (max_args : nat) (values : list float) (isAbnormal : bool)
         (pts : list (float * float)) (color : string) (lx ly : float) (pulse : bool),
    (Z.of_nat (List.length values) <= 4294967295)%Z ->
    DashboardTab.Sparkline max_args values isAbnormal
    = DashboardTab.Chart pts color lx ly pulse ->
    (exists y0 rest, pts = (2%float, y0) :: rest) /\
    List.last pts (0%float, 0%float) = (lx, ly) /\
    lx = 78%float /\
    List.length pts = List.length values /\
    pulse = isAbnormal.
Proof.
  intros max_args values isAbnormal pts color lx ly pulse Hmax.
  unfold DashboardTab.Sparkline.
  destruct (List.length values <? 2)%nat eqn:Hshort; [discriminate |].
  apply Nat.ltb_ge in Hshort.
  destruct (DashboardTab.Math_min max_args values) as [lo |]; [| discriminate].
  destruct (DashboardTab.Math_max max_args values) as [hi |]; [| discriminate].
  intros [= <- _ <- <- <-].
  assert (H53 : (Z.of_nat (List.length values) < 2 ^ 53)%Z).
  { eapply Z.le_lt_trans; [exact Hmax | reflexivity]. }
  assert (Hne : values <> []) by (destruct values; [cbn in Hshort; lia | discriminate]).
  split; [| split; [| split; [| split]]].
  - destruct values as [| v0 rest]; [congruence |].
    unfold DashboardTab.mapi. cbn [DashboardTab.mapi_from].
    eexists _, _. unfold DashboardTab.point at 1.
    rewrite (first_abscissa _ Hshort H53). reflexivity.
  - unfold DashboardTab.mapi.
    rewrite (mapi_from_last _ _ _ nan 0%nat Hne).
    unfold DashboardTab.point. cbn [Nat.add].
    rewrite (last_abscissa _ Hshort H53). reflexivity.
  - reflexivity.
  - apply mapi_from_length.
  - reflexivity.
Qed.

Lemma sparkline_runs_from_left_edge_to_marker_witness :
  (exists y0 rest, [(2, 22); (40, 12); (78, 2)]%float = (2%float, y0) :: rest) /\
  List.last [(2, 22); (40, 12); (78, 2)]%float (0%float, 0%float) = (78, 2)%float /\
  78%float = 78%float /\
  List.length [(2, 22); (40, 12); (78, 2)]%float = List.length [1; 2; 3]%float /\
  false = false.
Proof.
  apply (sparkline_runs_from_left_edge_to_marker 100 [1; 2; 3]%float false
           [(2, 22); (40, 12); (78, 2)]%float "#34d399" 78%float 2%float false);
    [cbn; lia | vm_compute; reflexivity].
Defined.

(** *** The query console: result and error *)

Section ConsoleFacts.
Import Js EsqlTab.

(** While a query runs the console holds neither a result nor an error,
    and it never holds both. *)
Definition clean (c : Console) : Prop :=
  (running (ui c) = true -> result (ui c) = VNull /\ error (ui c) = VNull) /\
  (result (ui c) = VNull \/ error (ui c) = VNull).

Lemma run_catch_result (e : value) (st : EsqlState) :
  result (run_catch e st) = result st.
Proof. unfold run_catch. destruct (get e "response"), (get e "message"); reflexivity. Qed.

Lemma run_settle_clean (r : settled) (st : EsqlState) :
  result st = VNull -> error st = VNull ->
  result (run_settle r st) = VNull \/ error (run_settle r st) = VNull.
Proof.
  intros Hres Herr. unfold run_settle.
  destruct r as [data | e]; unfold setRunning; cbn [result error].
  - destruct (get data "status") as [s |].
    + destruct (is_str s "error"); cbn; [left; exact Hres | right; exact Herr].
    + left. now rewrite run_catch_result.
  - left. now rewrite run_catch_result.
Qed.

Lemma step_clean (c : Console) (e : event) :
  one_at_a_time c -> clean c -> clean (step c e).
Proof.
  destruct c as [st out]. unfold one_at_a_time, clean. cbn [outstanding ui].
  intros Hone [Hrun Hnot].
  destruct e as [| i r | q | i q]; cbn [step outstanding ui].
  - unfold run_begin. destruct (blank (query st) || running st); cbn; auto.
  - destruct (nth_error out i) eqn:Hnth; cbn [ui]; [| auto].
    assert (Hr : running st = true).
    { destruct out as [| q0 [| q1 out]]; [destruct i; discriminate | exact Hone | contradiction]. }
    destruct (Hrun Hr) as [Hres Herr].
    split; [cbn; discriminate | now apply run_settle_clean].
  - cbn. auto.
  - cbn. split; auto.
Qed.

Lemma reachable_clean (first_example : string) (es : list event) :
  one_at_a_time (steps (start first_example) es) /\ clean (steps (start first_example) es).
Proof.
  unfold steps.
  apply (fold_left_preserves (fun c => one_at_a_time c /\ clean c)).
  - intros c e [Hone Hclean]. split; [now apply step_one_at_a_time | now apply step_clean].
  - split; [reflexivity |]. split; cbn; auto.
Qed.

End ConsoleFacts.

(** X24. From the initial console, through any sequence of submissions,
    responses, edits and example picks: while a query runs the console
    holds neither a result nor an error, and it never holds both. The
    response to the running query ends the run; when its body has a
    status, an error status stores the body's [error] and no result, and
    any other status stores the body as the result and no error. *)
Theorem console_shows_result_or_error_never_both :
  forall (first_example : string) (es : list EsqlTab.event),
    let c := EsqlTab.steps (EsqlTab.start first_example) es in
    (EsqlTab.running (EsqlTab.ui c) = true ->
     EsqlTab.result (EsqlTab.ui c) = Js.VNull /\ EsqlTab.error (EsqlTab.ui c) = Js.VNull) /\
    (EsqlTab.result (EsqlTab.ui c) = Js.VNull \/ EsqlTab.error (EsqlTab.ui c) = Js.VNull) /\
    (forall r,
        EsqlTab.running (EsqlTab.ui c) = true ->
        let c' := EsqlTab.step c (EsqlTab.Settle 0 r) in
        EsqlTab.running (EsqlTab.ui c') = false /\
        EsqlTab.outstanding c' = [] /\
        (forall data s, r = Js.Fulfilled data -> Js.get data "status" = Some s ->
                        if Js.is_str s "error"
                        then EsqlTab.error (EsqlTab.ui c') = Js.prop data "error" /\
                             EsqlTab.result (EsqlTab.ui c') = Js.VNull
                        else EsqlTab.result (EsqlTab.ui c') = data /\
                             EsqlTab.error (EsqlTab.ui c') = Js.VNull)).
Proof.
  intros first_example es c.
  destruct (reachable_clean first_example es) as [Hone [Hrun Hnot]]. fold c in Hone, Hrun, Hnot.
  split; [exact Hrun |]. split; [exact Hnot |].
  intros r Hr c'. subst c'.
  destruct (Hrun Hr) as [Hres Herr].
  unfold EsqlTab.one_at_a_time in Hone.
  destruct c as [st out]. cbn [EsqlTab.ui EsqlTab.outstanding] in *.
  destruct out as [| r0 [| r1 out]]; [congruence | | contradiction].
  cbn [EsqlTab.step nth_error EsqlTab.outstanding EsqlTab.ui].
  split; [reflexivity |]. split; [reflexivity |].
  intros data s -> Hs. unfold EsqlTab.run_settle. rewrite Hs.
  destruct (Js.is_str s "error"); cbn; split; auto.
Qed.

(** *** The result table *)

Section CellFacts.
Import Js EsqlView.

Lemma positive_number_spec (val : value) :
  positive_number val = true <-> exists q, val = VNum q /\ (0 < q)%Q.
Proof.
  unfold positive_number. split.
  - destruct val; try discriminate. intros Hq. eexists. split; [reflexivity |].
    apply negb_true_iff in Hq. destruct (Qlt_le_dec 0 q) as [Hlt | Hle]; [exact Hlt |].
    apply Qle_bool_iff in Hle. congruence.
  - intros [q [-> Hq]]. apply negb_true_iff.
    destruct (Qle_bool q 0) eqn:Hb; [| reflexivity].
    apply Qle_bool_iff in Hb. lra.
Qed.

End CellFacts.

Lemma firstn_skipn_chips {A : Type} (l : list A) :
  (5 <? List.length l)%nat = false -> firstn 5 l = l.
Proof. intros Hl. apply Nat.ltb_ge in Hl. now apply firstn_all2. Qed.

(** X25. A cell of the result table is drawn in red or amber only for a
    number above zero: red in a column whose name contains [critical], or
    for a risk score of 10 or more; amber in a column whose name contains
    [abnormal], or for a risk score from 4 up to 10. The patient id column
    has its own colour whatever the value is. *)
Theorem cell_is_flagged_only_for_positive_numbers :
  forall (col : EsqlView.Col) (val : Js.value),
    (EsqlView.name col = "patient_id" ->
     EsqlView.cellClass col val = "text-emerald-300 font-semibold") /\
    (EsqlView.cellClass col val = EsqlView.red ->
     exists q, val = Js.VNum q /\ (0 < q)%Q /\
               (Js.includes (EsqlView.name col) "critical" = true \/
                (EsqlView.name col = "risk_score" /\ (10 <= q)%Q))) /\
    (EsqlView.cellClass col val = EsqlView.amber ->
     exists q, val = Js.VNum q /\ (0 < q)%Q /\
               (Js.includes (EsqlView.name col) "abnormal" = true \/
                (EsqlView.name col = "risk_score" /\ (4 <= q)%Q /\ (q < 10)%Q))).
Proof.
  intros col val. unfold EsqlView.cellClass.
  split; [intros ->; reflexivity |].
  destruct (String.eqb (EsqlView.name col) "patient_id") eqn:Hid;
    [split; intros Hc; vm_compute in Hc; discriminate |].
  destruct (EsqlView.positive_number val) eqn:Hpos.
  - apply positive_number_spec in Hpos. destruct Hpos as [q [-> Hq]].
    rewrite !andb_true_r.
    destruct (Js.includes (EsqlView.name col) "critical") eqn:Hcrit;
      [split; [intros _; exists q; auto | intros Hc; vm_compute in Hc; discriminate] |].
    destruct (Js.includes (EsqlView.name col) "abnormal") eqn:Habn;
      [split; [intros Hc; vm_compute in Hc; discriminate | intros _; exists q; auto] |].
    destruct (String.eqb (EsqlView.name col) "risk_score") eqn:Hrisk.
    + apply String.eqb_eq in Hrisk.
      destruct (Qle_bool 10 q) eqn:H10.
      * apply Qle_bool_iff in H10.
        split; [intros _; exists q; auto | intros Hc; vm_compute in Hc; discriminate].
      * assert (Hlt : (q < 10)%Q).
        { destruct (Qlt_le_dec q 10) as [Hl | Hg]; [exact Hl |].
          apply Qle_bool_iff in Hg. congruence. }
        destruct (Qle_bool 4 q) eqn:H4.
        -- apply Qle_bool_iff in H4.
           split; [intros Hc; vm_compute in Hc; discriminate |].
           intros _. exists q. repeat split; try assumption. right. auto.
        -- split; intros Hc; vm_compute in Hc; discriminate.
    + destruct (String.eqb (EsqlView.type col) "long" || String.eqb (EsqlView.type col) "double");
        [split; intros Hc; vm_compute in Hc; discriminate |].
      destruct (Js.includes (EsqlView.name col) "date");
        split; intros Hc; vm_compute in Hc; discriminate.
  - rewrite !andb_false_r.
    destruct (String.eqb (EsqlView.name col) "risk_score") eqn:Hrisk.
    + destruct val as [| | b | q | s | items | fields];
        try (destruct (String.eqb (EsqlView.type col) "long"
                       || String.eqb (EsqlView.type col) "double");
             [split; intros Hc; vm_compute in Hc; discriminate |];
             destruct (Js.includes (EsqlView.name col) "date");
             split; intros Hc; vm_compute in Hc; discriminate).
      assert (Hq : (q <= 0)%Q).
      { unfold EsqlView.positive_number in Hpos. apply negb_false_iff in Hpos.
        now apply Qle_bool_iff in Hpos. }
      assert (H10 : Qle_bool 10 q = false).
      { destruct (Qle_bool 10 q) eqn:Hb; [| reflexivity]. apply Qle_bool_iff in Hb. lra. }
      assert (H4 : Qle_bool 4 q = false).
      { destruct (Qle_bool 4 q) eqn:Hb; [| reflexivity]. apply Qle_bool_iff in Hb. lra. }
      rewrite H10, H4. split; intros Hc; vm_compute in Hc; discriminate.
    + destruct (String.eqb (EsqlView.type col) "long" || String.eqb (EsqlView.type col) "double");
        [split; intros Hc; vm_compute in Hc; discriminate |].
      destruct (Js.includes (EsqlView.name col) "date");
        split; intros Hc; vm_compute in Hc; discriminate.
Qed.

(** X26. The chips above the table are the first columns of the result, at
    most 5 of them; the number behind the plus sign is shown exactly when
    there are more than 5 columns, and is then the number of columns that
    have no chip. *)
Theorem column_chips_account_for_every_column :
  forall columns : list EsqlView.Col,
    (List.length (EsqlView.shown_columns columns) <= 5)%nat /\
    EsqlView.shown_columns columns ++ skipn 5 columns = columns /\
    match EsqlView.hidden_columns columns with
    | Some k =>
        (0 < k)%nat /\
        (List.length (EsqlView.shown_columns columns) + k = List.length columns)%nat
    | None => EsqlView.shown_columns columns = columns
    end.
Proof.
  intros columns. unfold EsqlView.shown_columns, EsqlView.hidden_columns.
  split; [apply firstn_le_length |]. split; [apply firstn_skipn |].
  destruct (5 <? List.length columns)%nat eqn:Hl.
  - apply Nat.ltb_lt in Hl. rewrite length_firstn. lia.
  - now apply firstn_skipn_chips.
Qed.

(** *** The animated number *)

Section AnimatedFacts.
Import Binary64 ScoringView.
Local Open Scope Q_scope.

(** A positive number lies between two consecutive powers of two. *)
Lemma bracket (n : nat) (lo : Z) (q : Q) :
  pow2 lo <= q -> q < pow2 (lo + Z.of_nat n) ->
  exists k : Z, (lo < k <= lo + Z.of_nat n)%Z /\ pow2 (k - 1) <= q /\ q < pow2 k.
Proof.
  induction n as [| n IH]; intros Hlo Hhi.
  - exfalso. replace (lo + Z.of_nat 0)%Z with lo in Hhi by lia. lra.
  - destruct (Qlt_le_dec q (pow2 (lo + Z.of_nat n))) as [Hlt | Hge].
    + destruct (IH Hlo Hlt) as [k [Hk Hq]]. exists k. split; [lia | exact Hq].
    + exists (lo + Z.of_nat (S n))%Z. split; [lia |].
      replace (lo + Z.of_nat (S n) - 1)%Z with (lo + Z.of_nat n)%Z by lia.
      split; assumption.
Qed.

Lemma ticks_S (n : nat) (value : float) :
  forall c, ticks (S n) value c = tick value (ticks n value c).
Proof.
  induction n as [| n IH]; intros c; [reflexivity |].
  change (ticks (S (S n)) value c) with (ticks (S n) value (tick value c)).
  rewrite IH. reflexivity.
Qed.

Lemma ticks_stopped (n : nat) (value : float) (c : Counter) :
  ticking c = false -> ticks n value c = c.
Proof.
  intros Hs. induction n as [| n IH]; [reflexivity |].
  cbn [ticks]. unfold tick. rewrite Hs. exact IH.
Qed.

Variable value : float.
Variable k : Z.
Hypothesis Fv : finite value.
Hypothesis Hk1 : pow2 (k - 1) <= B2Q value.
Hypothesis Hk2 : B2Q value < pow2 k.
Hypothesis Hkr : (-1000 <= k <= 1001)%Z.

Let v : Q := B2Q value.
Let P : Q := pow2 (k - 53).
Let inc : float := increment value.

Lemma P_pos : 0 < P.
Proof. apply pow2_pos. Qed.

Lemma pow2_k : pow2 k == 9007199254740992 * P.
Proof.
  unfold P. replace k with (k - 53 + 53)%Z at 1 by lia. rewrite pow2_add.
  change (pow2 53) with (2 ^ 53). vm_compute (2 ^ 53). ring.
Qed.

Lemma pow2_k1 : pow2 (k - 1) == 4503599627370496 * P.
Proof.
  unfold P. replace (k - 1)%Z with (k - 53 + 52)%Z by lia. rewrite pow2_add.
  change (pow2 52) with (2 ^ 52). vm_compute (2 ^ 52). ring.
Qed.

Lemma v_bounds : 4503599627370496 * P <= v /\ v < 9007199254740992 * P.
Proof. unfold v. rewrite <- pow2_k1, <- pow2_k. split; assumption. Qed.

(** The increment is [value / 56.25] up to one rounding. *)
Lemma increment_spec :
  finite inc /\ 0 <= B2Q inc /\
  v * (4 # 225) - P * (1 # 64) <= B2Q inc /\ B2Q inc <= v * (4 # 225) + P * (1 # 64).
Proof.
  pose proof P_pos as HP. destruct v_bounds as [Hv1 Hv2].
  assert (F0 : finite 0%float) by reflexivity.
  assert (E0 : B2Q 0 == 0) by (vm_compute; reflexivity).
  assert (Fc : finite (900 / 16)%float) by reflexivity.
  assert (Ec : B2Q (900 / 16)%float == 225 # 4) by (vm_compute; reflexivity).
  assert (R0 : Rounded (v - 0) (Prim2SF (value - 0)%float))
    by (apply sub_rounds; [exact Fv | exact F0 | reflexivity | exact E0]).
  destruct (Rounded_exact _ _ value R0 Fv) as [Fd Ed]; [unfold v; ring |].
  assert (Rd : Rounded (v / (225 # 4)) (Prim2SF inc)).
  { unfold inc, increment. apply div_rounds; [exact Fd | exact Fc | exact Ed | exact Ec |].
    discriminate. }
  assert (Hr : v / (225 # 4) == v * (4 # 225)) by (field; discriminate).
  apply (Rounded_compat _ _ _ Hr) in Rd.
  destruct (Rounded_between _ 0%float inc value Rd F0 Fv) as [Fi [Hi0 Hi1]];
    [rewrite E0; lra | fold v; lra |].
  rewrite E0 in Hi0.
  destruct (Rounded_error _ _ (k - 5) Rd Fi) as [He1 He2].
  - assert (0 < pow2 (k - 5)) by apply pow2_pos. lra.
  - assert (Hp : pow2 (k - 5) == 281474976710656 * P).
    { unfold P. replace (k - 5)%Z with (k - 53 + 48)%Z by lia. rewrite pow2_add.
      change (pow2 48) with (2 ^ 48). vm_compute (2 ^ 48). ring. }
    rewrite Hp. lra.
  - rewrite Z.max_l in He1, He2 by lia.
    assert (Hp : pow2 (k - 5 - 53 - 1) == P * (1 # 64)).
    { unfold P. replace (k - 5 - 53 - 1)%Z with (k - 53 + -6)%Z by lia. rewrite pow2_add.
      change (pow2 (-6)) with (2 ^ (-6)). vm_compute (2 ^ (-6)). reflexivity. }
    rewrite Hp in He1, He2. fold (B2Q inc) in He1, He2.
    split; [exact Fi |]. split; [exact Hi0 |]. split; assumption.
Qed.

(** One addition of the increment. *)
Lemma start_step (s : float) :
  finite s -> 0 <= B2Q s -> B2Q s < v ->
  finite (s + inc)%float /\
  B2Q s + B2Q inc - P <= B2Q (s + inc)%float /\
  B2Q (s + inc)%float <= B2Q s + B2Q inc + P.
Proof.
  intros Fs Hs0 Hs1.
  pose proof P_pos as HP. destruct v_bounds as [Hv1 Hv2].
  destruct increment_spec as [Fi [Hi0 [Hi1 Hi2]]].
  assert (F0 : finite 0%float) by reflexivity.
  assert (E0 : B2Q 0 == 0) by (vm_compute; reflexivity).
  assert (Ft : finite 0x1p+1002%float) by reflexivity.
  assert (Et : B2Q 0x1p+1002%float == pow2 1002) by (vm_compute; reflexivity).
  assert (Ra : Rounded (B2Q s + B2Q inc) (Prim2SF (s + inc)%float)) by now apply add_Rounded.
  assert (Hk1' : pow2 (k + 1) == 18014398509481984 * P).
  { unfold P. replace (k + 1)%Z with (k - 53 + 54)%Z by lia. rewrite pow2_add.
    change (pow2 54) with (2 ^ 54). vm_compute (2 ^ 54). ring. }
  assert (Htop : pow2 (k + 1) <= pow2 1002) by (apply pow2_le; lia).
  destruct (Rounded_between _ 0%float (s + inc)%float 0x1p+1002%float Ra F0 Ft) as [Fa _];
    [rewrite E0; lra | rewrite Et; lra |].
  destruct (Rounded_error _ _ (k + 1) Ra Fa) as [He1 He2]; [lra | lra |].
  rewrite Z.max_l in He1, He2 by lia.
  replace (k + 1 - 53 - 1)%Z with (k - 53)%Z in He1, He2 by lia.
  fold P in He1, He2. fold (B2Q (s + inc)%float) in He1, He2.
  split; [exact Fa |]. split; assumption.
Qed.

Let d : Q := v * (4 # 225) - P * (65 # 64).
Let u : Q := v * (4 # 225) + P * (65 # 64).

(** The counter after [j] ticks, while it runs. *)
Definition running_at (j : nat) (c : Counter) : Prop :=
  ticking c = true /\ finite (start c) /\
  inject_Z (Z.of_nat j) * d <= B2Q (start c) /\
  B2Q (start c) <= inject_Z (Z.of_nat j) * u /\
  (j = 0%nat \/ display c = start c).

Lemma d_u_pos : 0 < d /\ 0 < u /\ 56 * u < v /\ v <= 57 * d.
Proof.
  pose proof P_pos as HP. destruct v_bounds as [Hv1 Hv2]. unfold d, u.
  repeat split; lra.
Qed.

Lemma running_start_bounds (j : nat) (c : Counter) :
  (j <= 56)%nat -> running_at j c -> 0 <= B2Q (start c) /\ B2Q (start c) < v.
Proof.
  intros Hj [_ [_ [Hlo [Hhi _]]]]. destruct d_u_pos as [Hd [Hu [H56 _]]].
  assert (Hj0 : 0 <= inject_Z (Z.of_nat j)).
  { change 0 with (inject_Z 0). rewrite <- Zle_Qle. lia. }
  assert (Hj56 : inject_Z (Z.of_nat j) <= 56).
  { change 56 with (inject_Z 56). rewrite <- Zle_Qle. lia. }
  assert (0 <= inject_Z (Z.of_nat j) * d) by (apply Qmult_le_0_compat; lra).
  assert (inject_Z (Z.of_nat j) * u <= 56 * u) by (apply Qmult_le_compat_r; lra).
  split; lra.
Qed.

Lemma inject_S (j : nat) (x : Q) :
  inject_Z (Z.of_nat (S j)) * x == inject_Z (Z.of_nat j) * x + x.
Proof. rewrite Nat2Z.inj_succ. unfold Z.succ. rewrite inject_Z_plus. ring. Qed.

Lemma running_step (j : nat) (c : Counter) :
  (j < 56)%nat -> running_at j c -> running_at (S j) (tick value c).
Proof.
  intros Hj Hrun. destruct (running_start_bounds j c ltac:(lia) Hrun) as [Hs0 Hs1].
  destruct Hrun as [Ht [Fs [Hlo [Hhi _]]]].
  destruct (start_step (start c) Fs Hs0 Hs1) as [Fa [Ha1 Ha2]].
  destruct increment_spec as [Fi [Hi0 [Hi1 Hi2]]].
  destruct d_u_pos as [Hd [Hu [H56 _]]].
  pose proof (inject_S j d) as Hsd. pose proof (inject_S j u) as Hsu.
  assert (Hj56 : inject_Z (Z.of_nat (S j)) <= 56).
  { change 56 with (inject_Z 56). rewrite <- Zle_Qle. lia. }
  assert (Hup : inject_Z (Z.of_nat (S j)) * u <= 56 * u) by (apply Qmult_le_compat_r; lra).
  unfold tick. rewrite Ht. fold inc. cbv zeta.
  assert (Hnot : (value <=? start c + inc)%float = false).
  { destruct (value <=? start c + inc)%float eqn:Hle; [| reflexivity].
    apply (leb_B2Q _ _ Fv Fa) in Hle. fold v in Hle. unfold d, u in *. lra. }
  rewrite Hnot. unfold running_at. cbn [ticking start display].
  split; [reflexivity |]. split; [exact Fa |].
  unfold d, u in *. split; [lra |]. split; [lra |]. now right.
Qed.

Lemma running_stop (c : Counter) :
  running_at 56 c ->
  ticking (tick value c) = false /\ display (tick value c) = value.
Proof.
  intros Hrun. destruct (running_start_bounds 56 c ltac:(lia) Hrun) as [Hs0 Hs1].
  destruct Hrun as [Ht [Fs [Hlo [Hhi _]]]].
  destruct (start_step (start c) Fs Hs0 Hs1) as [Fa [Ha1 Ha2]].
  destruct increment_spec as [Fi [Hi0 [Hi1 Hi2]]].
  destruct d_u_pos as [Hd [Hu [_ H57]]].
  unfold tick. rewrite Ht. fold inc. cbv zeta.
  assert (Hyes : (value <=? start c + inc)%float = true).
  { apply (leb_B2Q _ _ Fv Fa). fold v.
    change (inject_Z (Z.of_nat 56)) with 56 in Hlo. unfold d, u in *. lra. }
  rewrite Hyes. split; reflexivity.
Qed.

Lemma running_ticks (n : nat) (shown : float) :
  (n <= 56)%nat -> running_at n (ticks n value (restart shown)).
Proof.
  induction n as [| n IH]; intros Hn.
  - unfold running_at, restart. cbn [ticks ticking start display].
    split; [reflexivity |]. split; [reflexivity |].
    change (B2Q 0) with 0. change (inject_Z (Z.of_nat 0)) with 0.
    split; [lra |]. split; [lra |]. now left.
  - rewrite ticks_S. apply running_step; [lia |]. apply IH. lia.
Qed.

Lemma shown_while_running (n : nat) (shown : float) :
  (n <= 56)%nat ->
  let c := ticks n value (restart shown) in
  ticking c = true /\ (n <> 0%nat -> display c = start c /\ (display c <? value)%float = true).
Proof.
  intros Hn c. pose proof (running_ticks n shown Hn) as Hrun. fold c in Hrun.
  destruct (running_start_bounds n c Hn Hrun) as [Hs0 Hs1].
  destruct Hrun as [Ht [Fs [_ [_ Hd]]]].
  split; [exact Ht |]. intros Hnz. destruct Hd as [-> | Hd]; [congruence |].
  split; [exact Hd |]. rewrite Hd. now apply (ltb_B2Q _ _ Fs Fv).
Qed.

End AnimatedFacts.

Lemma ticks_add (a b : nat) (value : float) :
  forall c, ScoringView.ticks (a + b) value c
            = ScoringView.ticks b value (ScoringView.ticks a value c).
Proof.
  induction a as [| a IH]; intros c; [reflexivity |].
  cbn [Nat.add ScoringView.ticks]. apply IH.
Qed.

(** X27. For a value between 2^-1000 and 2^1000 (a percentile above 0 is
    one) the counter runs for exactly 57 ticks of its interval: through the
    first 56 it keeps ticking and shows its running sum, which stays below
    the value; from the 57th on it has stopped and shows the value itself.
    The sums are those of binary64: the increment and each addition are
    rounded, and the rounding errors of 57 additions stay far below the
    1/75 of the value by which 57 increments exceed it. *)
Theorem animated_number_lands_on_value :
  forall value shown : float,
    (0x1p-1000 <=? value)%float = true ->
    (value <=? 0x1p+1000)%float = true ->
    let c n := ScoringView.ticks n value (ScoringView.restart shown) in
    (forall n, (n <= 56)%nat -> ScoringView.ticking (c n) = true) /\
    (forall n, (1 <= n <= 56)%nat ->
               ScoringView.display (c n) = ScoringView.start (c n) /\
               (ScoringView.display (c n) <? value)%float = true) /\
    (forall n, (57 <= n)%nat ->
               ScoringView.ticking (c n) = false /\ ScoringView.display (c n) = value).
Proof.
  intros value shown Hlo Hhi c.
  assert (Fl : Binary64.finite 0x1p-1000%float) by reflexivity.
  assert (Fh : Binary64.finite 0x1p+1000%float) by reflexivity.
  assert (El : (Binary64.B2Q 0x1p-1000%float == Binary64.pow2 (-1000))%Q)
    by (vm_compute; reflexivity).
  assert (Eh : (Binary64.B2Q 0x1p+1000%float == Binary64.pow2 1000)%Q)
    by (vm_compute; reflexivity).
  assert (Fv : Binary64.finite value)
    by (apply (Binary64.between_finite 0x1p-1000 value 0x1p+1000); assumption).
  apply (Binary64.leb_B2Q _ _ Fl Fv) in Hlo. apply (Binary64.leb_B2Q _ _ Fv Fh) in Hhi.
  rewrite El in Hlo. rewrite Eh in Hhi.
  assert (Htop : (Binary64.B2Q value < Binary64.pow2 (-1000 + Z.of_nat 2001))%Q).
  { eapply Qle_lt_trans; [exact Hhi |]. apply Binary64.pow2_lt. lia. }
  destruct (bracket 2001 (-1000) _ Hlo Htop) as [k [Hk [Hk1 Hk2]]].
  assert (Hkr : (-1000 <= k <= 1001)%Z) by lia.
  split; [| split].
  - intros n Hn. apply (shown_while_running value k Fv Hk1 Hk2 Hkr n shown Hn).
  - intros n [Hn1 Hn2].
    apply (shown_while_running value k Fv Hk1 Hk2 Hkr n shown Hn2). lia.
  - intros n Hn. subst c. cbv beta.
    replace n with (57 + (n - 57))%nat by lia. rewrite ticks_add.
    pose proof (running_ticks value k Fv Hk1 Hk2 Hkr 56 shown (le_n _)) as Hrun.
    apply (running_stop value k Fv Hk1 Hk2 Hkr) in Hrun.
    rewrite <- ticks_S in Hrun. destruct Hrun as [Hstop Hshow].
    rewrite (ticks_stopped _ _ _ Hstop). split; assumption.
Qed.

Lemma animated_number_lands_on_value_witness :
  let c n := ScoringView.ticks n 95%float (ScoringView.restart 0%float) in
  (forall n, (n <= 56)%nat -> ScoringView.ticking (c n) = true) /\
  (forall n, (1 <= n <= 56)%nat ->
             ScoringView.display (c n) = ScoringView.start (c n) /\
             (ScoringView.display (c n) <? 95)%float = true) /\
  (forall n, (57 <= n)%nat ->
             ScoringView.ticking (c n) = false /\ ScoringView.display (c n) = 95%float).
Proof. apply (animated_number_lands_on_value 95%float 0%float); reflexivity. Defined.

Section AnimatedEdges.
Import Binary64 ScoringView.

Lemma is_nan_spec (x : float) : is_nan x = true <-> Prim2SF x = S754_nan.
Proof.
  unfold is_nan. rewrite negb_true_iff, FloatAxioms.eqb_spec. unfold SFeqb.
  destruct (Prim2SF x) as [s | s | | s m e]; cbn.
  - destruct s; split; discriminate.
  - destruct s; split; discriminate.
  - split; reflexivity.
  - change (Pos.compare_cont Eq m m) with (Pos.compare m m).
    rewrite Z.compare_refl, Pos.compare_refl. destruct s; split; discriminate.
Qed.

Lemma nan_not_below (x s : float) : is_nan x = true -> (x <=? s)%float = false.
Proof. intros Hx. apply is_nan_spec in Hx. rewrite leb_spec, Hx. reflexivity. Qed.

Lemma add_nan (x y : float) : is_nan y = true -> is_nan (x + y) = true.
Proof.
  rewrite !is_nan_spec, add_spec. intros ->.
  destruct (Prim2SF x) as [s | s | | s m e]; reflexivity.
Qed.

Lemma increment_nan (x : float) : is_nan x = true -> is_nan (increment x) = true.
Proof.
  unfold increment. rewrite !is_nan_spec, div_spec, sub_spec. intros ->. reflexivity.
Qed.

Lemma tick_nan (value : float) (c : Counter) :
  is_nan value = true -> ticking c = true ->
  ticking (tick value c) = true /\ is_nan (display (tick value c)) = true.
Proof.
  intros Hn Ht. unfold tick. rewrite Ht. cbv zeta.
  rewrite (nan_not_below _ _ Hn). cbn [ticking display].
  split; [reflexivity |]. apply add_nan. now apply increment_nan.
Qed.

Lemma tick_not_positive (value : float) (c : Counter) :
  finite value -> (B2Q value <= 0)%Q -> ticking c = true -> start c = 0%float ->
  ticking (tick value c) = false /\ display (tick value c) = value.
Proof.
  intros Fv Hv Ht Hs. unfold tick. rewrite Ht, Hs. cbv zeta.
  assert (F0 : finite 0%float) by reflexivity.
  assert (E0 : (B2Q 0 == 0)%Q) by (vm_compute; reflexivity).
  assert (Fc : finite (900 / 16)%float) by reflexivity.
  assert (Ec : (B2Q (900 / 16)%float == 225 # 4)%Q) by (vm_compute; reflexivity).
  assert (R0 : Rounded (B2Q value - 0) (Prim2SF (value - 0)%float))
    by (apply sub_rounds; [exact Fv | exact F0 | reflexivity | exact E0]).
  destruct (Rounded_exact _ _ value R0 Fv) as [Fd Ed]; [ring |].
  assert (Rd : Rounded (B2Q value / (225 # 4)) (Prim2SF (increment value))).
  { unfold increment. apply div_rounds; [exact Fd | exact Fc | exact Ed | exact Ec |].
    discriminate. }
  assert (Hr : (B2Q value / (225 # 4) == B2Q value * (4 # 225))%Q) by (field; discriminate).
  apply (Rounded_compat _ _ _ Hr) in Rd.
  destruct (Rounded_between _ value (increment value) 0%float Rd Fv F0) as [Fi [Hi0 Hi1]];
    [lra | rewrite E0; lra |].
  rewrite E0 in Hi1.
  assert (Ra : Rounded (0 + B2Q (increment value)) (Prim2SF (0 + increment value)%float))
    by (apply add_rounds; [exact F0 | exact Fi | exact E0 | reflexivity]).
  destruct (Rounded_between _ value (0 + increment value)%float 0%float Ra Fv F0)
    as [Fa [Ha0 _]]; [lra | rewrite E0; lra |].
  rewrite (proj2 (leb_B2Q _ _ Fv Fa) Ha0). split; reflexivity.
Qed.

End AnimatedEdges.

(** X28. At the edges. For a finite value that is 0 or negative the first
    tick already stops the counter and shows the value. For a NaN value
    the counter never stops: every comparison with NaN fails, the interval
    is never cleared, and NaN is what is shown from the first tick on. *)
Theorem animated_number_at_the_edges :
  forall value shown : float,
    let c n := ScoringView.ticks n value (ScoringView.restart shown) in
    (is_finite value = true -> (value <=? 0)%float = true ->
     forall n, (1 <= n)%nat ->
               ScoringView.ticking (c n) = false /\ ScoringView.display (c n) = value) /\
    (is_nan value = true ->
     forall n, ScoringView.ticking (c n) = true /\
               ((1 <= n)%nat -> is_nan (ScoringView.display (c n)) = true)).
Proof.
  intros value shown c. split.
  - intros Hf Hle n Hn. apply is_finite_iff in Hf.
    assert (F0 : Binary64.finite 0%float) by reflexivity.
    apply (Binary64.leb_B2Q _ _ Hf F0) in Hle.
    assert (E0 : (Binary64.B2Q 0 == 0)%Q) by (vm_compute; reflexivity).
    rewrite E0 in Hle.
    destruct (tick_not_positive value (ScoringView.restart shown) Hf Hle eq_refl eq_refl)
      as [Hstop Hshow].
    subst c. cbv beta. replace n with (1 + (n - 1))%nat by lia. rewrite ticks_add.
    change (ScoringView.ticks 1 value (ScoringView.restart shown))
      with (ScoringView.tick value (ScoringView.restart shown)).
    rewrite (ticks_stopped _ _ _ Hstop). split; assumption.
  - intros Hnan n. subst c. cbv beta. induction n as [| n [IHt IHd]].
    + split; [reflexivity | lia].
    + rewrite ticks_S. destruct (tick_nan value _ Hnan IHt) as [Ht Hd].
      split; [exact Ht | intros _; exact Hd].
Qed.
